(** * Panel cutting optimisation: a shallow embedding of the placement
      strategies and their shared geometry kernel.

    The development follows the TypeScript sources:
    - [lib/types/index.ts]                       the data model,
    - [lib/utils] (expandPieces, sortPiecesByPriority, splitSpace, ...),
    - [lib/algorithms/first-fit-decreasing.ts],
    - [lib/algorithms/beam-search-guillotine.ts],
    - [lib/algorithms/hybrid-constructive-local-search.ts],
    - [lib/algorithms/advanced-genetic-algorithm.ts],
    - [lib/algorithms/algorithm-manager.ts] and [lib/algorithms/index.ts].

    JavaScript numbers are modelled as rationals [Q] (the code multiplies,
    divides and jitters coordinates by fractions, and the sample requests
    use a kerf of 3.2); counts and indices are [Z] or [nat].  Rationals and
    the doubles of the source agree on every comparison of given numbers and
    on the sums, differences, products and halves of whole numbers (up to
    the 2^53 doubles represent exactly); elsewhere the source rounds, and a
    quotient by zero, [Infinity] or [NaN] in the source, is 0 in [Q].  A
    statement whose conclusion the rounding of computed coordinates or areas
    would break is therefore made for dimensions that are whole numbers
    ([integral]), and one that reads a quotient for a panel of positive
    area.

    Objects that the code mutates while several arrays point at them (placed
    pieces in the local search and in the genetic search, the remaining-piece
    arrays of beam nodes) live in an explicit store and are referred to by
    location.  Exceptions are the [Throw] outcome of [Result].  Wall-clock
    fields ([executionTime]) and the cut instructions, which no placement
    decision reads, are left out of the result record. *)

From Stdlib Require Import QArith Qround ZArith List String Lia Lqa.
From stdpp Require Import base list strings option.

Open Scope Q_scope.

(** ** Numbers *)

(** [a < b], [a <= b] and [a === b] on JavaScript numbers, as booleans. *)
Definition Qltb (a b : Q) : bool := negb (Qle_bool b a).
Definition Qleb (a b : Q) : bool := Qle_bool a b.
Definition Qeqb (a b : Q) : bool := Qeq_bool a b.

Infix "<?" := Qltb (at level 70, no associativity) : Q_scope.
Infix "<=?" := Qleb (at level 70, no associativity) : Q_scope.
Infix "=?" := Qeqb (at level 70, no associativity) : Q_scope.

(** ** Outcomes of fallible code: a value, or a thrown [Error] message. *)

Inductive Result (A : Type) : Type :=
| Ok (value : A)
| Throw (message : string).
Arguments Ok {A} value.
Arguments Throw {A} message.

(** ** Data model ([lib/types/index.ts]) *)

Module Piece.
Record t := mk {
  id : string;
  width : Q;
  height : Q;
  quantity : Z;
  label : option string;
  canRotate : option bool;
  mustFollowGrain : option bool;
  priority : option Q
}.
(** [{ ...piece, quantity: q }] *)
Definition withQuantity (piece : t) (q : Z) : t :=
  mk (id piece) (width piece) (height piece) q (label piece)
     (canRotate piece) (mustFollowGrain piece) (priority piece).
(** The truthiness test [piece.canRotate]. *)
Definition rotatable (piece : t) : bool :=
  match canRotate piece with Some b => b | None => false end.
(** [piece.priority || 0] *)
Definition priorityOr0 (piece : t) : Q :=
  match priority piece with Some p => p | None => 0 end.
End Piece.
Abbreviation OptimizationPiece := Piece.t.

Inductive GrainDirection := horizontal | vertical.

Module Panel.
Record t := mk {
  width : Q;
  height : Q;
  grainDirection : option GrainDirection
}.
End Panel.
Abbreviation OptimizationPanel := Panel.t.

Inductive CutPreference := long | short | hybrid | minimize_cuts.

Record Padding := { left : Q; right : Q; top : Q; bottom : Q }.

Module Settings.
Record t := mk {
  kerf : Q;
  padding : Padding;
  cutPreference : CutPreference;
  timeout : option Q;
  algorithm : option string
}.
End Settings.
Abbreviation OptimizationSettings := Settings.t.

Module Rectangle.
Record t := mk { x : Q; y : Q; width : Q; height : Q }.
End Rectangle.
Abbreviation Rectangle := Rectangle.t.

Module Placed.
Record t := mk {
  id : string;
  x : Q;
  y : Q;
  width : Q;
  height : Q;
  rotated : bool;
  sheetNumber : option nat;
  label : option string
}.
(** The rectangle a placed piece covers. *)
Definition footprint (p : t) : Rectangle :=
  Rectangle.mk (x p) (y p) (width p) (height p).
(** Assignments to [piece.x] and [piece.y]. *)
Definition withPosition (p : t) (x' y' : Q) : t :=
  mk (id p) x' y' (width p) (height p) (rotated p) (sheetNumber p) (label p).
End Placed.
Abbreviation PlacedPiece := Placed.t.

Module AlgorithmResult.
Record t := mk {
  placedPieces : list PlacedPiece;
  unusedPieces : list OptimizationPiece;
  efficiency : Q;
  totalArea : Q;
  usedArea : Q;
  wastedArea : Q;
  sheetCount : Z;
  algorithm : string
}.
End AlgorithmResult.
Abbreviation AlgorithmResult := AlgorithmResult.t.

(** ** [Array.prototype.sort] with a comparison function.

    ECMAScript requires the sort to be stable; for a consistent comparison
    function the result is the unique ordered rearrangement that keeps ties
    in input order.  Insertion of each element in front of the first one it
    does not have to follow computes exactly that. *)

Section ArraySort.
Context {A : Type} (compareFn : A -> A -> Q).

Fixpoint sortInsert (a : A) (sorted : list A) : list A :=
  match sorted with
  | [] => [a]
  | b :: rest =>
      if compareFn a b <=? 0 then a :: b :: rest
      else b :: sortInsert a rest
  end.

Definition arraySort (l : list A) : list A := foldr sortInsert [] l.

End ArraySort.

(** ** Shared utilities ([lib/utils]) *)

(** [expandPieces]: one copy per unit of quantity, each [{...piece, quantity: 1}]. *)
Definition expandPieces (pieces : list OptimizationPiece) : list OptimizationPiece :=
  flat_map (fun piece =>
              replicate (Z.to_nat (Piece.quantity piece))
                        (Piece.withQuantity piece 1))
           pieces.

(** The comparison function handed to [sort] by [sortPiecesByPriority].
    The secondary key is written as in the source:
    [(b.width * b.height) - (a.width * b.height)]. *)
Definition comparePriority (a b : OptimizationPiece) : Q :=
  if negb (Piece.priorityOr0 b =? Piece.priorityOr0 a)
  then Piece.priorityOr0 b - Piece.priorityOr0 a
  else (Piece.width b * Piece.height b) - (Piece.width a * Piece.height b).

Definition sortPiecesByPriority (pieces : list OptimizationPiece)
  : list OptimizationPiece :=
  arraySort comparePriority pieces.

(** The overlap test written inline in [splitSpace]. *)
Definition overlapsSpace (usedSpace space : Rectangle) : bool :=
  (Rectangle.x usedSpace <? Rectangle.x space + Rectangle.width space)
  && (Rectangle.x space <? Rectangle.x usedSpace + Rectangle.width usedSpace)
  && (Rectangle.y usedSpace <? Rectangle.y space + Rectangle.height space)
  && (Rectangle.y space <? Rectangle.y usedSpace + Rectangle.height usedSpace).

(** The four strips [splitSpace] may push for one overlapping space. *)
Definition stripBelow (usedSpace space : Rectangle) : Rectangle :=
  Rectangle.mk (Rectangle.x space) (Rectangle.y space) (Rectangle.width space)
               (Rectangle.y usedSpace - Rectangle.y space).
Definition stripAbove (usedSpace space : Rectangle) : Rectangle :=
  Rectangle.mk (Rectangle.x space)
               (Rectangle.y usedSpace + Rectangle.height usedSpace)
               (Rectangle.width space)
               (Rectangle.y space + Rectangle.height space
                - (Rectangle.y usedSpace + Rectangle.height usedSpace)).
Definition stripLeft (usedSpace space : Rectangle) : Rectangle :=
  Rectangle.mk (Rectangle.x space) (Rectangle.y space)
               (Rectangle.x usedSpace - Rectangle.x space)
               (Rectangle.height space).
Definition stripRight (usedSpace space : Rectangle) : Rectangle :=
  Rectangle.mk (Rectangle.x usedSpace + Rectangle.width usedSpace)
               (Rectangle.y space)
               (Rectangle.x space + Rectangle.width space
                - (Rectangle.x usedSpace + Rectangle.width usedSpace))
               (Rectangle.height space).

(** [cond ? [r] : []]: one conditional [newSpaces.push]. *)
Definition pushIf (cond : bool) (r : Rectangle) : list Rectangle :=
  if cond then [r] else [].

(** The body of the [for (const space of availableSpaces)] loop of
    [splitSpace]: what one space contributes to [newSpaces]. *)
Definition splitOne (usedSpace space : Rectangle) : list Rectangle :=
  if overlapsSpace usedSpace space then
    pushIf (Rectangle.y space <? Rectangle.y usedSpace)
           (stripBelow usedSpace space)
    ++ pushIf (Rectangle.y usedSpace + Rectangle.height usedSpace
               <? Rectangle.y space + Rectangle.height space)
              (stripAbove usedSpace space)
    ++ pushIf (Rectangle.x space <? Rectangle.x usedSpace)
              (stripLeft usedSpace space)
    ++ pushIf (Rectangle.x usedSpace + Rectangle.width usedSpace
               <? Rectangle.x space + Rectangle.width space)
              (stripRight usedSpace space)
  else [space].

(** The final [filter] of [splitSpace]. *)
Definition widerThanKerf (kerf : Q) (space : Rectangle) : bool :=
  (kerf <? Rectangle.width space) && (kerf <? Rectangle.height space).

Definition splitSpace (availableSpaces : list Rectangle) (usedSpace : Rectangle)
    (_pieceWidth _pieceHeight kerf : Q) : list Rectangle :=
  List.filter (widerThanKerf kerf) (flat_map (splitOne usedSpace) availableSpaces).

Definition calculateArea (rect : Rectangle) : Q :=
  Rectangle.width rect * Rectangle.height rect.

Definition rectanglesOverlap (rect1 rect2 : Rectangle) : bool :=
  negb ((Rectangle.x rect1 + Rectangle.width rect1 <=? Rectangle.x rect2)
        || (Rectangle.x rect2 + Rectangle.width rect2 <=? Rectangle.x rect1)
        || (Rectangle.y rect1 + Rectangle.height rect1 <=? Rectangle.y rect2)
        || (Rectangle.y rect2 + Rectangle.height rect2 <=? Rectangle.y rect1)).

(** A rectangle lies inside another one. *)
Definition insideOf (inner outer : Rectangle) : Prop :=
  Rectangle.x outer <= Rectangle.x inner
  /\ Rectangle.y outer <= Rectangle.y inner
  /\ Rectangle.x inner + Rectangle.width inner
     <= Rectangle.x outer + Rectangle.width outer
  /\ Rectangle.y inner + Rectangle.height inner
     <= Rectangle.y outer + Rectangle.height outer.

(** [placedPieces.reduce((sum, piece) => sum + piece.width * piece.height, 0)] *)
Definition sumPlacedArea (placedPieces : list PlacedPiece) : Q :=
  fold_left (fun sum piece => sum + Placed.width piece * Placed.height piece)
            placedPieces 0.

(** The rectangle [{ x: 0, y: 0, width: panel.width, height: panel.height }]. *)
Definition wholePanel (panel : OptimizationPanel) : Rectangle :=
  Rectangle.mk 0 0 (Panel.width panel) (Panel.height panel).

(** [pieces.filter(piece => !allPlacedPieces.some(placed => placed.id === piece.id))] *)
Definition notPlacedById (allPlacedPieces : list PlacedPiece)
    (pieces : list OptimizationPiece) : list OptimizationPiece :=
  List.filter
    (fun piece =>
       negb (existsb (fun placed => String.eqb (Placed.id placed) (Piece.id piece))
                     allPlacedPieces))
    pieces.

(** ** First-Fit-Decreasing ([first-fit-decreasing.ts]) *)

Module FirstFitDecreasing.

Definition name : string := "first_fit_decreasing".
Definition supportsRotation : bool := false.
Definition supportsMultiSheet : bool := true.

Record Sheet := mkSheet {
  placedPieces : list PlacedPiece;
  availableSpace : list Rectangle
}.

(** [waste < bestWaste], where [bestWaste] starts as [Infinity] ([None]). *)
Definition improves (waste : Q) (bestWaste : option Q) : bool :=
  match bestWaste with
  | None => true
  | Some best => waste <? best
  end.

(** One iteration of the loop of [findBestFit]; the state is
    [(bestFit, bestWaste)]. *)
Definition findBestFitStep (piece : OptimizationPiece) (rotated : bool)
    (best : option Rectangle * option Q) (space : Rectangle)
  : option Rectangle * option Q :=
  let best1 :=
    if negb rotated
       && (Piece.width piece <=? Rectangle.width space)
       && (Piece.height piece <=? Rectangle.height space)
    then
      let waste := (Rectangle.width space - Piece.width piece)
                   * (Rectangle.height space - Piece.height piece) in
      if improves waste (snd best)
      then (Some (Rectangle.mk (Rectangle.x space) (Rectangle.y space)
                               (Piece.width piece) (Piece.height piece)),
            Some waste)
      else best
    else best in
  if rotated
     && (Piece.height piece <=? Rectangle.width space)
     && (Piece.width piece <=? Rectangle.height space)
  then
    let waste := (Rectangle.width space - Piece.height piece)
                 * (Rectangle.height space - Piece.width piece) in
    if improves waste (snd best1)
    then (Some (Rectangle.mk (Rectangle.x space) (Rectangle.y space)
                             (Piece.height piece) (Piece.width piece)),
          Some waste)
    else best1
  else best1.

Definition findBestFit (piece : OptimizationPiece)
    (availableSpaces : list Rectangle) (rotated : bool) : option Rectangle :=
  fst (fold_left (findBestFitStep piece rotated) availableSpaces (None, None)).

(** The class's own [splitSpace]: an [if / else if / else] on the two axes,
    and no filter on the kerf. *)
Definition splitOne (placedPiece space : Rectangle) : list Rectangle :=
  if (Rectangle.x placedPiece <? Rectangle.x space + Rectangle.width space)
     && (Rectangle.x space <? Rectangle.x placedPiece + Rectangle.width placedPiece)
  then
    pushIf (Rectangle.y space <? Rectangle.y placedPiece)
           (stripBelow placedPiece space)
    ++ pushIf (Rectangle.y placedPiece + Rectangle.height placedPiece
               <? Rectangle.y space + Rectangle.height space)
              (stripAbove placedPiece space)
  else if (Rectangle.y placedPiece <? Rectangle.y space + Rectangle.height space)
          && (Rectangle.y space <? Rectangle.y placedPiece + Rectangle.height placedPiece)
  then
    pushIf (Rectangle.x space <? Rectangle.x placedPiece)
           (stripLeft placedPiece space)
    ++ pushIf (Rectangle.x placedPiece + Rectangle.width placedPiece
               <? Rectangle.x space + Rectangle.width space)
              (stripRight placedPiece space)
  else [space].

Definition splitSpace (availableSpaces : list Rectangle) (placedPiece : Rectangle)
    (_originalWidth _originalHeight _kerf : Q) : list Rectangle :=
  flat_map (splitOne placedPiece) availableSpaces.

(** The object literal [placedPiece] built from a fit. *)
Definition placedAt (piece : OptimizationPiece) (fit : Rectangle)
    (rotated : bool) (sheetNumber : nat) : PlacedPiece :=
  Placed.mk (Piece.id piece) (Rectangle.x fit) (Rectangle.y fit)
            (Rectangle.width fit) (Rectangle.height fit)
            rotated (Some sheetNumber) (Piece.label piece).

(** [sheet.placedPieces.push(..); sheet.availableSpace = this.splitSpace(..)] *)
Definition occupy (sheet : Sheet) (placed : PlacedPiece) (fit : Rectangle)
    (w h kerf : Q) : Sheet :=
  mkSheet (placedPieces sheet ++ [placed])
          (splitSpace (availableSpace sheet) fit w h kerf).

(** The loop [for (let i = 0; i < sheets.length; i++)] over the open sheets,
    from sheet [i] on: [Some sheets'] when the piece was placed ([break]),
    [None] when no open sheet takes it. *)
Fixpoint placeOnSheets (piece : OptimizationPiece) (kerf : Q) (i : nat)
    (sheets : list Sheet) : option (list Sheet) :=
  match sheets with
  | [] => None
  | sheet :: rest =>
      match findBestFit piece (availableSpace sheet) false with
      | Some bestFit =>
          Some (occupy sheet (placedAt piece bestFit false i) bestFit
                       (Piece.width piece) (Piece.height piece) kerf :: rest)
      | None =>
          let next := option_map (cons sheet) (placeOnSheets piece kerf (S i) rest) in
          if Piece.rotatable piece then
            match findBestFit piece (availableSpace sheet) true with
            | Some bestFitRotated =>
                Some (occupy sheet (placedAt piece bestFitRotated true i)
                             bestFitRotated
                             (Piece.height piece) (Piece.width piece) kerf :: rest)
            | None => next
            end
          else next
      end
  end.

(** One iteration of [for (const piece of sortedPieces)]. *)
Definition placePiece (panel : OptimizationPanel) (kerf : Q)
    (sheets : list Sheet) (piece : OptimizationPiece) : list Sheet :=
  match placeOnSheets piece kerf 0 sheets with
  | Some sheets' => sheets'
  | None =>
      let newSheet := mkSheet [] [wholePanel panel] in
      match findBestFit piece (availableSpace newSheet) false with
      | Some bestFit =>
          sheets ++ [occupy newSheet
                            (placedAt piece bestFit false (length sheets)) bestFit
                            (Piece.width piece) (Piece.height piece) kerf]
      | None => sheets
      end
  end.

Definition compareArea (a b : OptimizationPiece) : Q :=
  (Piece.width b * Piece.height b) - (Piece.width a * Piece.height a).

Definition runOptimization (pieces : list OptimizationPiece)
    (panel : OptimizationPanel) (settings : OptimizationSettings)
  : AlgorithmResult :=
  let sortedPieces := arraySort compareArea pieces in
  let sheets :=
    fold_left (placePiece panel (Settings.kerf settings)) sortedPieces
              [mkSheet [] [wholePanel panel]] in
  let allPlacedPieces := flat_map placedPieces sheets in
  let unusedPieces := notPlacedById allPlacedPieces pieces in
  let totalArea :=
    Panel.width panel * Panel.height panel * inject_Z (Z.of_nat (length sheets)) in
  let usedArea := sumPlacedArea allPlacedPieces in
  AlgorithmResult.mk allPlacedPieces unusedPieces (usedArea / totalArea)
                     totalArea usedArea (totalArea - usedArea)
                     (Z.of_nat (length sheets)) name.

Definition execute (pieces : list OptimizationPiece)
    (panels : list OptimizationPanel) (settings : OptimizationSettings)
  : Result AlgorithmResult :=
  match panels with
  | [] => Throw "No panels provided"
  | panel :: _ =>
      let expandedPieces := expandPieces pieces in
      let sortedPieces := sortPiecesByPriority expandedPieces in
      Ok (runOptimization sortedPieces panel settings)
  end.

End FirstFitDecreasing.

(** ** Beam-Search-Guillotine ([beam-search-guillotine.ts]) *)

Module BeamSearch.

Definition name : string := "beam_search_guillotine".
Definition supportsRotation : bool := true.
Definition supportsMultiSheet : bool := true.

(** A node refers to its remaining-piece array by its location in the store
    of arrays: sibling nodes are built with the same array object. *)
Module Node.
Record t := mk {
  placedPieces : list PlacedPiece;
  availableSpaces : list Rectangle;
  pieces : nat;
  score : Q
}.
End Node.
Abbreviation BeamNode := Node.t.

(** The store of piece arrays. *)
Abbreviation Arrays := (list (list OptimizationPiece)).

Definition beamWidth : nat := 10.

(** The class's private [splitSpace] is the text of the shared one. *)
Definition splitSpace (availableSpaces : list Rectangle) (usedSpace : Rectangle)
    (_pieceWidth _pieceHeight kerf : Q) : list Rectangle :=
  List.filter (widerThanKerf kerf) (flat_map (splitOne usedSpace) availableSpaces).

Definition placePiece (piece : OptimizationPiece) (space : Rectangle)
    (rotated : bool) (sheetNumber : nat) : PlacedPiece :=
  Placed.mk (Piece.id piece) (Rectangle.x space) (Rectangle.y space)
            (if rotated then Piece.height piece else Piece.width piece)
            (if rotated then Piece.width piece else Piece.height piece)
            rotated (Some sheetNumber) (Piece.label piece).

Definition canPlacePiece (piece : OptimizationPiece) (space : Rectangle)
    (rotated : bool) : bool :=
  let pieceWidth := if rotated then Piece.height piece else Piece.width piece in
  let pieceHeight := if rotated then Piece.width piece else Piece.height piece in
  (pieceWidth <=? Rectangle.width space) && (pieceHeight <=? Rectangle.height space).

Definition calculateEfficiency (placedPiece : PlacedPiece) : Q :=
  Placed.width placedPiece * Placed.height placedPiece.

(** The nodes pushed to [newBeam] for one [space] of [node.availableSpaces];
    [unplacedPieces] is the location of the array every one of them is given. *)
Definition childrenAt (kerf : Q) (node : BeamNode) (piece : OptimizationPiece)
    (unplacedPieces : nat) (space : Rectangle) : list BeamNode :=
  (if canPlacePiece piece space false then
     let placement := placePiece piece space false 0 in
     let newSpaces := splitSpace (Node.availableSpaces node) space
                                 (Piece.width piece) (Piece.height piece) kerf in
     [Node.mk (Node.placedPieces node ++ [placement]) newSpaces unplacedPieces
             (Node.score node + calculateEfficiency placement)]
   else [])
  ++
  (if Piece.rotatable piece && canPlacePiece piece space true then
     let placement := placePiece piece space true 0 in
     let newSpaces := splitSpace (Node.availableSpaces node) space
                                 (Piece.height piece) (Piece.width piece) kerf in
     [Node.mk (Node.placedPieces node ++ [placement]) newSpaces unplacedPieces
             (Node.score node + calculateEfficiency placement)]
   else []).

(** The body of [for (const node of beam)]; the state is the array store and
    [newBeam]. *)
Definition expandNode (kerf : Q) (st : Arrays * list BeamNode) (node : BeamNode)
  : Arrays * list BeamNode :=
  let '(arrays, newBeam) := st in
  match arrays !! Node.pieces node with
  | None | Some [] => st
  | Some (piece :: rest) =>
      (* const unplacedPieces = node.pieces.slice(1) *)
      let unplacedPieces := length arrays in
      let arrays1 := arrays ++ [rest] in
      let newBeam1 :=
        newBeam ++ flat_map (childrenAt kerf node piece unplacedPieces)
                            (Node.availableSpaces node) in
      (* unplacedPieces.push(node.pieces[0]) *)
      let arrays2 := alter (fun arr => arr ++ [piece]) unplacedPieces arrays1 in
      (arrays2, newBeam1)
  end.

Definition compareScore (a b : BeamNode) : Q := Node.score b - Node.score a.

(** The loop [for (depth = 0; depth < maxDepth && beam.length > 0; depth++)],
    with [remaining = maxDepth - depth]. *)
Fixpoint search (kerf : Q) (remaining : nat) (arrays : Arrays)
    (beam : list BeamNode) : Arrays * list BeamNode :=
  match remaining, beam with
  | O, _ | _, [] => (arrays, beam)
  | S remaining', _ :: _ =>
      let '(arrays', newBeam) := fold_left (expandNode kerf) beam (arrays, []) in
      search kerf remaining' arrays' (take beamWidth (arraySort compareScore newBeam))
  end.

Definition runOptimization (pieces : list OptimizationPiece)
    (panel : OptimizationPanel) (settings : OptimizationSettings)
  : Result AlgorithmResult :=
  let maxDepth := length pieces in
  (* pieces: [...pieces] is the array at location 0 *)
  let initialNode := Node.mk [] [wholePanel panel] 0 0 in
  let '(arrays, beam) :=
    search (Settings.kerf settings) maxDepth [pieces] [initialNode] in
  match beam with
  | [] => Throw "No valid solution found"
  | bestNode :: _ =>
      let placed := Node.placedPieces bestNode in
      let unusedPieces := default [] (arrays !! Node.pieces bestNode) in
      let totalArea := Panel.width panel * Panel.height panel in
      let usedArea := sumPlacedArea placed in
      Ok (AlgorithmResult.mk placed unusedPieces (usedArea / totalArea)
                             totalArea usedArea (totalArea - usedArea) 1 name)
  end.

Definition execute (pieces : list OptimizationPiece)
    (panels : list OptimizationPanel) (settings : OptimizationSettings)
  : Result AlgorithmResult :=
  match panels with
  | [] => Throw "No panels provided"
  | panel :: _ =>
      let expandedPieces := expandPieces pieces in
      let sortedPieces := sortPiecesByPriority expandedPieces in
      runOptimization sortedPieces panel settings
  end.

End BeamSearch.

(** ** The store of placed-piece objects.

    A [PlacedPiece] that is reachable from more than one array is one
    object: an assignment to its fields is seen through every array. *)

Abbreviation Objects := (list PlacedPiece).

(** The placed pieces an array of references points at. *)
Definition deref (objects : Objects) (refs : list nat) : list PlacedPiece :=
  omap (fun r => objects !! r) refs.

(** [[target.x, target.y] = [source.x, source.y]]: the right-hand side is
    read first, then both fields of [target] are assigned. *)
Definition copyPosition (objects : Objects) (target source : nat) : Objects :=
  match objects !! source with
  | Some s => alter (fun t => Placed.withPosition t (Placed.x s) (Placed.y s))
                    target objects
  | None => objects
  end.

(** ** Hybrid constructive placement and local search
       ([hybrid-constructive-local-search.ts]) *)

Module HybridLocalSearch.

Definition name : string := "hybrid_constructive_local_search".
Definition supportsRotation : bool := true.
Definition supportsMultiSheet : bool := true.

Record Sheet := mkSheet {
  placedPieces : list nat;
  availableSpace : list Rectangle
}.

(** [OptimizationState]; its [placedPieces] array is created empty and never
    touched, so it is not carried. *)
Record OptimizationState := mkState {
  sheets : list Sheet;
  currentSheet : nat
}.

Definition canPlacePiece (piece : OptimizationPiece) (space : Rectangle)
    (rotated : bool) : bool :=
  let width := if rotated then Piece.height piece else Piece.width piece in
  let height := if rotated then Piece.width piece else Piece.height piece in
  (width <=? Rectangle.width space) && (height <=? Rectangle.height space).

Definition placePiece (piece : OptimizationPiece) (space : Rectangle)
    (rotated : bool) (sheetNumber : nat) : PlacedPiece :=
  Placed.mk (Piece.id piece) (Rectangle.x space) (Rectangle.y space)
            (if rotated then Piece.height piece else Piece.width piece)
            (if rotated then Piece.width piece else Piece.height piece)
            rotated (Some sheetNumber) (Piece.label piece).

(** Place [piece] in [space], the first available space of [sheet]:
    a new object is pushed to the sheet, and the free space is split around
    [space] itself with kerf 0. *)
Definition placeIn (objects : Objects) (sheet : Sheet) (piece : OptimizationPiece)
    (space : Rectangle) (rotated : bool) (sheetNumber : nat) : Objects * Sheet :=
  let placement := placePiece piece space rotated sheetNumber in
  (objects ++ [placement],
   mkSheet (placedPieces sheet ++ [length objects])
           (splitSpace (availableSpace sheet) space
                       (if rotated then Piece.height piece else Piece.width piece)
                       (if rotated then Piece.width piece else Piece.height piece)
                       0)).

(** The two attempts made on one sheet: unrotated, else rotated if allowed. *)
Definition tryFirstSpace (objects : Objects) (sheet : Sheet)
    (piece : OptimizationPiece) (space : Rectangle) (sheetNumber : nat)
  : option (Objects * Sheet) :=
  if canPlacePiece piece space false
  then Some (placeIn objects sheet piece space false sheetNumber)
  else if Piece.rotatable piece && canPlacePiece piece space true
  then Some (placeIn objects sheet piece space true sheetNumber)
  else None.

(** The loop [for (let i = 0; i < state.sheets.length; i++)] from sheet [i]
    on; a sheet without available space is skipped. *)
Fixpoint placeOnSheets (objects : Objects) (piece : OptimizationPiece) (i : nat)
    (sheets : list Sheet) : option (Objects * list Sheet) :=
  match sheets with
  | [] => None
  | sheet :: rest =>
      let next :=
        match placeOnSheets objects piece (S i) rest with
        | Some (objects', rest') => Some (objects', sheet :: rest')
        | None => None
        end in
      match availableSpace sheet with
      | [] => next
      | space :: _ =>
          match tryFirstSpace objects sheet piece space i with
          | Some (objects', sheet') => Some (objects', sheet' :: rest)
          | None => next
          end
      end
  end.

(** What follows the attempt on the current sheet when that attempt placed
    nothing: the other open sheets, then a new sheet. *)
Definition placeElsewhere (panel : OptimizationPanel) (objects : Objects)
    (state : OptimizationState) (piece : OptimizationPiece)
  : Objects * OptimizationState :=
  match placeOnSheets objects piece 0 (sheets state) with
  | Some (objects', sheets') => (objects', mkState sheets' (currentSheet state))
  | None =>
      let newSheet := mkSheet [] [wholePanel panel] in
      if canPlacePiece piece (wholePanel panel) false
      then
        let '(objects', newSheet') :=
          placeIn objects newSheet piece (wholePanel panel) false
                  (length (sheets state)) in
        (objects', mkState (sheets state ++ [newSheet']) (currentSheet state))
      else (objects, state)
  end.

(** One iteration of [for (const piece of pieces)] in [constructivePlacement]. *)
Definition constructiveStep (panel : OptimizationPanel)
    (st : Objects * OptimizationState) (piece : OptimizationPiece)
  : Objects * OptimizationState :=
  let '(objects, state) := st in
  match sheets state !! currentSheet state with
  | Some sheet =>
      match availableSpace sheet with
      | [] => st                                   (* continue *)
      | space :: _ =>
          match tryFirstSpace objects sheet piece space (currentSheet state) with
          | Some (objects', sheet') =>
              (objects',
               mkState (<[currentSheet state := sheet']> (sheets state))
                       (currentSheet state))
          | None => placeElsewhere panel objects state piece
          end
      end
  | None => placeElsewhere panel objects state piece
  end.

Definition constructivePlacement (panel : OptimizationPanel)
    (objects : Objects) (state : OptimizationState)
    (pieces : list OptimizationPiece) : Objects * OptimizationState :=
  fold_left (constructiveStep panel) pieces (objects, state).

Definition calculateEfficiency (objects : Objects) (sheets : list Sheet)
    (panel : OptimizationPanel) : Q :=
  match sheets with
  | [] => 0
  | _ =>
      let totalArea :=
        Panel.width panel * Panel.height panel
        * inject_Z (Z.of_nat (length sheets)) in
      let usedArea :=
        fold_left
          (fun sum sheet =>
             sum + fold_left
                     (fun sheetSum piece =>
                        sheetSum + Placed.width piece * Placed.height piece)
                     (deref objects (placedPieces sheet)) 0)
          sheets 0 in
      usedArea / totalArea
  end.

(** The tentative exchange made through [newPlacements], an array whose
    entries are the objects of the two sheets themselves. *)
Definition tentativeSwap (objects : Objects) (newPlacements : list nat)
    (piece1Index piece2Index : nat) : Objects :=
  match newPlacements !! piece1Index, newPlacements !! piece2Index with
  | Some p1, Some p2 =>
      let objects1 := copyPosition objects p1 p2 in
      copyPosition objects1 p2 p1
  | _, _ => objects
  end.

(** The swap applied when the efficiency test succeeds. *)
Definition applySwap (objects : Objects) (piece1 piece2 : nat) : Objects :=
  copyPosition (copyPosition objects piece1 piece2) piece2 piece1.

(** The body of the innermost loop, for [sheet1.placedPieces[k]] and
    [sheet2.placedPieces[l]]; the state is the object store and [improved]. *)
Definition trySwap (panel : OptimizationPanel) (sheet1 sheet2 : Sheet)
    (k l : nat) (st : Objects * bool) : Objects * bool :=
  let '(objects, improved) := st in
  match placedPieces sheet1 !! k, placedPieces sheet2 !! l with
  | Some piece1, Some piece2 =>
      let currentEfficiency := calculateEfficiency objects [sheet1; sheet2] panel in
      let newPlacements := placedPieces sheet1 ++ placedPieces sheet2 in
      let piece1Index := k in
      let piece2Index := (k + length (placedPieces sheet1))%nat in
      let objects1 := tentativeSwap objects newPlacements piece1Index piece2Index in
      let newEfficiency :=
        calculateEfficiency objects1
          [mkSheet (take (length (placedPieces sheet1)) newPlacements)
                   (availableSpace sheet1);
           mkSheet (drop (length (placedPieces sheet1)) newPlacements)
                   (availableSpace sheet2)]
          panel in
      if currentEfficiency <? newEfficiency
      then (applySwap objects1 piece1 piece2, true)
      else (objects1, improved)
  | _, _ => st
  end.

(** The two loops over [k] and [l] for one pair of sheets. *)
Definition swapBetween (panel : OptimizationPanel) (sheet1 sheet2 : Sheet)
    (st : Objects * bool) : Objects * bool :=
  fold_left
    (fun st k =>
       fold_left (fun st l => trySwap panel sheet1 sheet2 k l st)
                 (seq 0 (length (placedPieces sheet2))) st)
    (seq 0 (length (placedPieces sheet1))) st.

(** One pass of the [while] loop: every pair [i < j] of sheets. *)
Definition swapPass (panel : OptimizationPanel) (sheets : list Sheet)
    (objects : Objects) : Objects * bool :=
  fold_left
    (fun st i =>
       fold_left
         (fun st j =>
            match sheets !! i, sheets !! j with
            | Some sheet1, Some sheet2 => swapBetween panel sheet1 sheet2 st
            | _, _ => st
            end)
         (seq (S i) (length sheets - S i)) st)
    (seq 0 (length sheets)) (objects, false).

(** [while (improved && iterations < maxIterations)], with
    [remaining = maxIterations - iterations]. *)
Fixpoint improveLoop (panel : OptimizationPanel) (sheets : list Sheet)
    (remaining : nat) (objects : Objects) : Objects :=
  match remaining with
  | O => objects
  | S remaining' =>
      let '(objects', improved) := swapPass panel sheets objects in
      if improved then improveLoop panel sheets remaining' objects'
      else objects'
  end.

Definition maxIterations : nat := 100.

Definition localSearchImprovement (objects : Objects) (state : OptimizationState)
    (panel : OptimizationPanel) : Objects :=
  improveLoop panel (sheets state) maxIterations objects.

Definition runOptimization (pieces : list OptimizationPiece)
    (panel : OptimizationPanel) (settings : OptimizationSettings)
  : AlgorithmResult :=
  let state0 := mkState [mkSheet [] [wholePanel panel]] 0 in
  let '(objects1, state) := constructivePlacement panel [] state0 pieces in
  let objects := localSearchImprovement objects1 state panel in
  let allPlacedPieces :=
    flat_map (fun sheet => deref objects (placedPieces sheet)) (sheets state) in
  let unusedPieces := notPlacedById allPlacedPieces pieces in
  let totalArea :=
    Panel.width panel * Panel.height panel
    * inject_Z (Z.of_nat (length (sheets state))) in
  let usedArea := sumPlacedArea allPlacedPieces in
  AlgorithmResult.mk allPlacedPieces unusedPieces (usedArea / totalArea)
                     totalArea usedArea (totalArea - usedArea)
                     (Z.of_nat (length (sheets state))) name.

Definition execute (pieces : list OptimizationPiece)
    (panels : list OptimizationPanel) (settings : OptimizationSettings)
  : Result AlgorithmResult :=
  match panels with
  | [] => Throw "No panels provided"
  | panel :: _ => Ok (runOptimization pieces panel settings)
  end.

End HybridLocalSearch.

(** ** Genetic search ([advanced-genetic-algorithm.ts])

    [Math.random()] is an oracle: [random n] is the value of the [n]-th call
    of one run.  The code runs in a state-and-exception monad over the number
    of calls made so far and the store of placed-piece objects.

    Division follows [Q]: a quotient by zero is 0, where JavaScript gives
    [Infinity] or [NaN]; this is only met with a panel of area 0 or with
    placements of total area 0. *)

Module Genetic.

Definition name : string := "advanced_genetic_algorithm".
Definition supportsRotation : bool := true.
Definition supportsMultiSheet : bool := true.

Definition populationSize : nat := 50.
Definition generations : nat := 100.

Record GeneticIndividual := mkIndividual {
  placements : list nat;
  fitness : Q;
  sheetCount : Z;
  efficiency : Q
}.

Record World := mkWorld {
  calls : nat;
  objects : Objects
}.

Definition M (A : Type) : Type := World -> Result (A * World).

Definition ret {A} (a : A) : M A := fun w => Ok (a, w).

Definition bind {A B} (m : M A) (k : A -> M B) : M B :=
  fun w => match m w with
           | Ok (a, w') => k a w'
           | Throw e => Throw e
           end.

Definition throw {A} (message : string) : M A := fun _ => Throw message.

Notation "'let*' x ':=' m 'in' k" := (bind m (fun x => k))
  (at level 10, x name, m at level 200, k at level 200).
Notation "'let*' ' pat ':=' m 'in' k" :=
  (bind m (fun x => match x with pat => k end))
  (at level 10, pat pattern, m at level 200, k at level 200).

Definition getObjects : M Objects := fun w => Ok (objects w, w).

(** A new placed-piece object. *)
Definition newObject (p : PlacedPiece) : M nat :=
  fun w => Ok (length (objects w), mkWorld (calls w) (objects w ++ [p])).

(** An assignment to fields of the object at [r]. *)
Definition update (r : nat) (f : PlacedPiece -> PlacedPiece) : M unit :=
  fun w => Ok (tt, mkWorld (calls w) (alter f r (objects w))).

(** [for (const x of l)] with an effectful body. *)
Fixpoint forEach {A} (l : list A) (body : A -> M unit) : M unit :=
  match l with
  | [] => ret tt
  | a :: rest => let* _ := body a in forEach rest body
  end.

(** [array[z]] for a number [z] that is an integer. *)
Definition at_ {A} (l : list A) (z : Z) : option A :=
  if (z <? 0)%Z then None else l !! Z.to_nat z.

(** The index [Array.prototype.slice] and [splice] make of a bound. *)
Definition relativeIndex (len : nat) (z : Z) : nat :=
  if (z <? 0)%Z then Z.to_nat (Z.max (Z.of_nat len + z) 0)
  else Nat.min (Z.to_nat z) len.

(** [l.slice(0, z)] and [l.slice(z)] *)
Definition sliceTo {A} (z : Z) (l : list A) : list A :=
  take (relativeIndex (length l) z) l.
Definition sliceFrom {A} (z : Z) (l : list A) : list A :=
  drop (relativeIndex (length l) z) l.

(** [l.splice(start, 1, ...items)] for [0 <= start]: the array afterwards. *)
Definition splice1 {A} (l : list A) (start : nat) (items : list A) : list A :=
  take start l ++ items ++ drop (S start) l.

Section WithRandom.
Variable random : nat -> Q.

(** [Math.random()] *)
Definition mathRandom : M Q :=
  fun w => Ok (random (calls w), mkWorld (S (calls w)) (objects w)).

Definition tryPlacePiece (piece : OptimizationPiece) (space : Rectangle)
    (rotated : bool) (settings : OptimizationSettings)
    (placements : list nat) (availableSpaces : list Rectangle) (spaceIndex : nat)
  : M (bool * list nat * list Rectangle) :=
  let pieceHeight := if rotated then Piece.width piece else Piece.height piece in
  let pieceWidth := if rotated then Piece.height piece else Piece.width piece in
  if (pieceHeight <=? Rectangle.height space)
     && (pieceWidth <=? Rectangle.width space)
  then
    let* placedPiece := newObject (Placed.mk (Piece.id piece)
                                        (Rectangle.x space) (Rectangle.y space)
                                        pieceWidth pieceHeight rotated
                                        (Some 0%nat) None) in
    let newSpaces :=
      splitSpace [space] space pieceWidth pieceHeight (Settings.kerf settings) in
    ret (true, placements ++ [placedPiece],
         splice1 availableSpaces spaceIndex newSpaces)
  else ret (false, placements, availableSpaces).

(** The loop [while (!placed && spaceIndex < availableSpaces.length)]:
    [rest] is [availableSpaces] from [spaceIndex] on (the array changes only
    when the piece is placed, which ends the loop). *)
Fixpoint scanSpaces (piece : OptimizationPiece) (settings : OptimizationSettings)
    (placements : list nat) (availableSpaces : list Rectangle)
    (spaceIndex : nat) (rest : list Rectangle)
  : M (bool * list nat * list Rectangle) :=
  match rest with
  | [] => ret (false, placements, availableSpaces)
  | space :: rest' =>
      let* rotated := (if Piece.rotatable piece
                       then let* r := mathRandom in ret (0.5 <? r)
                       else ret false) in
      let* '(placed, placements', availableSpaces') :=
         tryPlacePiece piece space rotated settings
                       placements availableSpaces spaceIndex in
      if (placed : bool) then ret (true, placements', availableSpaces')
      else scanSpaces piece settings placements availableSpaces (S spaceIndex) rest'
  end.

(** One iteration of [for (const piece of pieces)] in [createRandomPlacement]. *)
Definition placeRandomly (panel : OptimizationPanel)
    (settings : OptimizationSettings)
    (st : list nat * list Rectangle) (piece : OptimizationPiece)
  : M (list nat * list Rectangle) :=
  let '(placements, availableSpaces) := st in
  let* '(placed, placements', availableSpaces') :=
     scanSpaces piece settings placements availableSpaces 0 availableSpaces in
  if (placed : bool) then ret (placements', availableSpaces')
  else
    let newSheet := Rectangle.mk 0 0 (Panel.width panel) (Panel.height panel) in
    let* '(_, placements'', availableSpaces'') :=
       tryPlacePiece piece newSheet false settings
                     placements' availableSpaces' (length availableSpaces') in
    ret (placements'', availableSpaces'').

Fixpoint foldM {A B} (f : A -> B -> M A) (l : list B) (a : A) : M A :=
  match l with
  | [] => ret a
  | b :: rest => let* a' := f a b in foldM f rest a'
  end.

Definition createRandomPlacement (pieces : list OptimizationPiece)
    (panel : OptimizationPanel) (settings : OptimizationSettings)
  : M (list nat) :=
  let* st := foldM (placeRandomly panel settings) pieces
              ([], [Rectangle.mk 0 0 (Panel.width panel) (Panel.height panel)]) in
  ret (fst st).

Definition evaluateIndividual (objects : Objects) (placements : list nat)
    (panel : OptimizationPanel) : GeneticIndividual :=
  match placements with
  | [] => mkIndividual [] 0 0 0
  | _ =>
      let totalArea := Panel.height panel * Panel.width panel in
      let usedArea :=
        fold_left (fun sum piece => sum + Placed.height piece * Placed.width piece)
                  (deref objects placements) 0 in
      let efficiency := usedArea / totalArea in
      let sheetCount := Qceiling (usedArea / totalArea) in
      let fitness := efficiency * 0.8 + (1 / inject_Z sheetCount) * 0.2 in
      mkIndividual placements fitness sheetCount efficiency
  end.

Fixpoint initializePopulationFrom (n : nat) (pieces : list OptimizationPiece)
    (panel : OptimizationPanel) (settings : OptimizationSettings)
    (population : list GeneticIndividual) : M (list GeneticIndividual) :=
  match n with
  | O => ret population
  | S n' =>
      let* placements := createRandomPlacement pieces panel settings in
      let* objects := getObjects in
      let individual := evaluateIndividual objects placements panel in
      initializePopulationFrom n' pieces panel settings (population ++ [individual])
  end.

Definition initializePopulation (pieces : list OptimizationPiece)
    (panel : OptimizationPanel) (settings : OptimizationSettings)
  : M (list GeneticIndividual) :=
  initializePopulationFrom populationSize pieces panel settings [].

(** The tournament loop of [selectParent], [n] rounds from [best]. *)
Fixpoint tournament (population : list GeneticIndividual) (n : nat)
    (best : option GeneticIndividual) : M (option GeneticIndividual) :=
  match n with
  | O => ret best
  | S n' =>
      let* r := mathRandom in
      let candidate :=
        at_ population (Qfloor (r * inject_Z (Z.of_nat (length population)))) in
      let best' :=
        match candidate, best with
        | Some c, None => Some c
        | Some c, Some b => if fitness b <? fitness c then Some c else best
        | None, _ => best
        end in
      tournament population n' best'
  end.

Definition selectParent (population : list GeneticIndividual)
  : M GeneticIndividual :=
  let* best := tournament population 3 None in
  match best with
  | Some b => ret b
  | None => throw "Failed to select parent"
  end.

(** The key [`${piece.id}-${piece.x}-${piece.y}-${piece.rotated}`], kept as
    its four components; two keys are the same string when the components
    agree (identifiers that themselves end in a dash and a number apart). *)
Definition sameKey (p q : PlacedPiece) : bool :=
  String.eqb (Placed.id p) (Placed.id q)
  && (Placed.x p =? Placed.x q) && (Placed.y p =? Placed.y q)
  && Bool.eqb (Placed.rotated p) (Placed.rotated q).

Fixpoint removeDuplicatesFrom (objects : Objects) (seen : list PlacedPiece)
    (placements : list nat) : list nat :=
  match placements with
  | [] => []
  | r :: rest =>
      match objects !! r with
      | None => removeDuplicatesFrom objects seen rest
      | Some piece =>
          if existsb (sameKey piece) seen
          then removeDuplicatesFrom objects seen rest
          else r :: removeDuplicatesFrom objects (seen ++ [piece]) rest
      end
  end.

Definition removeDuplicatePlacements (objects : Objects) (placements : list nat)
  : list nat :=
  removeDuplicatesFrom objects [] placements.

Definition piecesOverlap (piece1 piece2 : PlacedPiece) : bool :=
  negb ((Placed.x piece1 + Placed.width piece1 <=? Placed.x piece2)
        || (Placed.x piece2 + Placed.width piece2 <=? Placed.x piece1)
        || (Placed.y piece1 + Placed.height piece1 <=? Placed.y piece2)
        || (Placed.y piece2 + Placed.height piece2 <=? Placed.y piece1)).

(** The bounds test is written as in the source, whose last disjunct is
    [piece.y + piece.width > panel.width]. *)
Definition validatePlacements (objects : Objects) (placements : list nat)
    (panel : OptimizationPanel) : list nat :=
  fold_left
    (fun validPlacements r =>
       match objects !! r with
       | None => validPlacements
       | Some piece =>
           if (Placed.x piece <? 0) || (Placed.y piece <? 0)
              || (Panel.width panel <? Placed.x piece + Placed.width piece)
              || (Panel.width panel <? Placed.y piece + Placed.width piece)
           then validPlacements
           else if existsb (piecesOverlap piece) (deref objects validPlacements)
           then validPlacements
           else validPlacements ++ [r]
       end)
    placements [].

Definition crossover (parent1 parent2 : GeneticIndividual)
    (panel : OptimizationPanel) : M GeneticIndividual :=
  let* r := mathRandom in
  let crossoverPoint :=
    Qfloor (r * inject_Z (Z.of_nat (length (placements parent1)))) in
  let childPlacements :=
    sliceTo crossoverPoint (placements parent1)
    ++ sliceFrom crossoverPoint (placements parent2) in
  let* objects := getObjects in
  let uniquePlacements := removeDuplicatePlacements objects childPlacements in
  let validPlacements := validatePlacements objects uniquePlacements panel in
  ret (evaluateIndividual objects validPlacements panel).

(** [[placements[i], placements[j]] = [placements[j], placements[i]]] *)
Definition swapEntries (placements : list nat) (i j : Z) : list nat :=
  match at_ placements i, at_ placements j with
  | Some pi, Some pj =>
      if (i =? j)%Z then placements
      else <[Z.to_nat j := pi]> (<[Z.to_nat i := pj]> placements)
  | _, _ => placements
  end.

Definition rotatePiece (piece : PlacedPiece) : PlacedPiece :=
  Placed.mk (Placed.id piece) (Placed.x piece) (Placed.y piece)
            (Placed.height piece) (Placed.width piece)
            (negb (Placed.rotated piece))
            (Placed.sheetNumber piece) (Placed.label piece).

Definition Qmax0 (q : Q) : Q := if q <? 0 then 0 else q.

Definition mutate (individual : GeneticIndividual) (panel : OptimizationPanel)
  : M GeneticIndividual :=
  let len := inject_Z (Z.of_nat (length (placements individual))) in
  (* swap mutation *)
  let* placements1 :=
    (if (1 <? length (placements individual))%nat then
       let* r := mathRandom in
       if r <? 0.3 then
         let* ri := mathRandom in
         let* rj := mathRandom in
         ret (swapEntries (placements individual)
                          (Qfloor (ri * len)) (Qfloor (rj * len)))
       else ret (placements individual)
     else ret (placements individual)) in
  (* rotation mutation *)
  let* _ := forEach placements1
         (fun piece =>
            let* r := mathRandom in
            if r <? 0.1 then update piece rotatePiece else ret tt) in
  (* position mutation *)
  let* _ := forEach placements1
         (fun piece =>
            let* r := mathRandom in
            if r <? 0.05 then
              let* rx := mathRandom in
              let* _ := update piece
                     (fun p => Placed.withPosition p
                                 (Qmax0 (Placed.x p + (rx - 0.5) * 10))
                                 (Placed.y p)) in
              let* ry := mathRandom in
              update piece
                (fun p => Placed.withPosition p
                            (Placed.x p)
                            (Qmax0 (Placed.y p + (ry - 0.5) * 10)))
            else ret tt) in
  (* re-evaluate after mutation *)
  let* objects := getObjects in
  let newEvaluation := evaluateIndividual objects placements1 panel in
  ret (mkIndividual placements1 (fitness newEvaluation)
                    (sheetCount newEvaluation) (efficiency newEvaluation)).

(** The loop [while (newPopulation.length < population.length)], with
    [n = population.length - newPopulation.length]. *)
Fixpoint breed (population : list GeneticIndividual) (panel : OptimizationPanel)
    (n : nat) (newPopulation : list GeneticIndividual)
  : M (list GeneticIndividual) :=
  match n with
  | O => ret newPopulation
  | S n' =>
      let* parent1 := selectParent population in
      let* parent2 := selectParent population in
      let* child := crossover parent1 parent2 panel in
      let* child' := mutate child panel in
      breed population panel n' (newPopulation ++ [child'])
  end.

Definition evolvePopulation (population : list GeneticIndividual)
    (panel : OptimizationPanel) : M (list GeneticIndividual) :=
  match population with
  | [] => throw "Reduce of empty array with no initial value"
  | first :: others =>
      let bestIndividual :=
        fold_left (fun best current =>
                     if fitness best <? fitness current then current else best)
                  others first in
      breed population panel (length population - 1) [bestIndividual]
  end.

Definition compareFitness (a b : GeneticIndividual) : Q := fitness b - fitness a.

(** The evolution loop, with [remaining = generations - generation]. *)
Fixpoint evolve (panel : OptimizationPanel) (remaining : nat)
    (population : list GeneticIndividual) : M (list GeneticIndividual) :=
  match remaining with
  | O => ret population
  | S remaining' =>
      let* objects := getObjects in
      let evaluated :=
        map (fun individual =>
               mkIndividual (placements individual)
                            (fitness (evaluateIndividual objects
                                        (placements individual) panel))
                            (sheetCount individual) (efficiency individual))
            population in
      let sorted := arraySort compareFitness evaluated in
      let converged :=
        match sorted with
        | bestIndividual :: _ => 0.95 <? efficiency bestIndividual
        | [] => false
        end in
      if converged then ret sorted
      else
        let* population' := evolvePopulation sorted panel in
        evolve panel remaining' population'
  end.

Definition runOptimization (pieces : list OptimizationPiece)
    (panels : list OptimizationPanel) (settings : OptimizationSettings)
  : M AlgorithmResult :=
  match panels with
  | [] => throw "No panels provided for optimization"
  | panel :: _ =>
      let expandedPieces := expandPieces pieces in
      let sortedPieces := sortPiecesByPriority expandedPieces in
      let* population0 := initializePopulation sortedPieces panel settings in
      let* population := evolve panel generations population0 in
      match population with
      | [] => throw "Failed to generate valid solution"
      | bestSolution :: _ =>
          let* objects := getObjects in
          let placed := deref objects (placements bestSolution) in
          let usedArea :=
            fold_left (fun sum piece =>
                         sum + Placed.height piece * Placed.width piece)
                      placed 0 in
          ret (AlgorithmResult.mk
                 placed [] (efficiency bestSolution)
                 (Panel.height panel * Panel.width panel)
                 usedArea
                 (Panel.height panel * Panel.width panel - usedArea)
                 (sheetCount bestSolution) name)
      end
  end.

Definition execute (pieces : list OptimizationPiece)
    (panels : list OptimizationPanel) (settings : OptimizationSettings)
  : Result AlgorithmResult :=
  match runOptimization pieces panels settings (mkWorld 0 []) with
  | Ok (result, _) => Ok result
  | Throw message => Throw ("Advanced Genetic Algorithm failed: " ++ message)
  end.

End WithRandom.

End Genetic.

(** ** The strategy contract and the two managers *)

Module Algorithm.
Record t := mk {
  name : string;
  description : string;
  execute : list OptimizationPiece -> list OptimizationPanel ->
            OptimizationSettings -> Result AlgorithmResult;
  supportsRotation : bool;
  supportsMultiSheet : bool;
  estimatedTime : Q
}.
End Algorithm.
Abbreviation Algorithm := Algorithm.t.

Module Request.
Record t := mk {
  pieces : list OptimizationPiece;
  panels : list OptimizationPanel;
  settings : OptimizationSettings;
  algorithm : option string
}.
End Request.
Abbreviation OptimizationRequest := Request.t.

(** A JavaScript [Map] from names to strategies, in insertion order. *)
Abbreviation AlgorithmMap := (list (string * Algorithm)).

Definition mapGet (m : AlgorithmMap) (key : string) : option Algorithm :=
  match List.find (fun entry => String.eqb (fst entry) key) m with
  | Some entry => Some (snd entry)
  | None => None
  end.

Fixpoint mapSet (m : AlgorithmMap) (key : string) (value : Algorithm)
  : AlgorithmMap :=
  match m with
  | [] => [(key, value)]
  | entry :: rest =>
      if String.eqb (fst entry) key then (key, value) :: rest
      else entry :: mapSet rest key value
  end.

Definition beamSearch : Algorithm :=
  Algorithm.mk BeamSearch.name
    "Beam search guillotine algorithm balancing speed and quality"
    BeamSearch.execute
    BeamSearch.supportsRotation BeamSearch.supportsMultiSheet 500.

Definition hybridSearch : Algorithm :=
  Algorithm.mk HybridLocalSearch.name
    "Combines constructive placement with local search improvement"
    HybridLocalSearch.execute
    HybridLocalSearch.supportsRotation HybridLocalSearch.supportsMultiSheet 5000.

Definition firstFit : Algorithm :=
  Algorithm.mk FirstFitDecreasing.name
    "Fast first-fit decreasing algorithm without rotation support"
    FirstFitDecreasing.execute
    FirstFitDecreasing.supportsRotation FirstFitDecreasing.supportsMultiSheet 100.

Definition genetic (random : nat -> Q) : Algorithm :=
  Algorithm.mk Genetic.name
    "Genetic algorithm for best quality optimization, longer processing time for maximum efficiency"
    (Genetic.execute random)
    Genetic.supportsRotation Genetic.supportsMultiSheet 5000.

(** *** [algorithm-manager.ts] *)

Module AlgorithmManager.
Section WithRandom.
Variable random : nat -> Q.

(** [registerDefaultAlgorithms]: the registry and the priority order. *)
Definition algorithms : AlgorithmMap :=
  mapSet (mapSet (mapSet (mapSet [] (Algorithm.name beamSearch) beamSearch)
                         (Algorithm.name hybridSearch) hybridSearch)
                 (Algorithm.name firstFit) firstFit)
         (Algorithm.name (genetic random)) (genetic random).

Definition algorithmPriority : list string :=
  [Algorithm.name beamSearch; Algorithm.name hybridSearch;
   Algorithm.name firstFit; Algorithm.name (genetic random)].

Definition getAlgorithm (name : string) : option Algorithm :=
  mapGet algorithms name.

Definition getDefaultAlgorithm : option Algorithm :=
  match algorithmPriority with
  | [] => None
  | defaultName :: _ =>
      if String.eqb defaultName "" then None else mapGet algorithms defaultName
  end.

(** The [for (const fallbackName of this.algorithmPriority.slice(1))] loop of
    the [catch] block: the first fallback that returns, if any. *)
Fixpoint tryFallbacks (request : OptimizationRequest) (names : list string)
  : option AlgorithmResult :=
  match names with
  | [] => None
  | fallbackName :: rest =>
      if String.eqb fallbackName "" then tryFallbacks request rest
      else
        match mapGet algorithms fallbackName with
        | Some fallbackAlgorithm =>
            match Algorithm.execute fallbackAlgorithm (Request.pieces request)
                    (Request.panels request) (Request.settings request) with
            | Ok result => Some result
            | Throw _ => tryFallbacks request rest
            end
        | None => tryFallbacks request rest
        end
  end.

Definition executeWithFallback (request : OptimizationRequest)
    (preferredAlgorithm : option string) : Result AlgorithmResult :=
  let preferred :=
    match preferredAlgorithm with
    | Some preferredName =>
        if String.eqb preferredName "" then None
        else mapGet algorithms preferredName
    | None => None
    end in
  let resolved :=
    match preferred with
    | Some algorithm => Some algorithm
    | None => getDefaultAlgorithm
    end in
  match resolved with
  | None => Throw "No algorithms available"
  | Some algorithm =>
      match Algorithm.execute algorithm (Request.pieces request)
              (Request.panels request) (Request.settings request) with
      | Ok result => Ok result
      | Throw error =>
          match tryFallbacks request (drop 1 algorithmPriority) with
          | Some result => Ok result
          | None => Throw ("All algorithms failed. Last error: " ++ error)
          end
      end
  end.

End WithRandom.
End AlgorithmManager.

(** *** [index.ts]: the manager whose [executeAlgorithm] validates *)

Module AlgorithmIndex.
Section WithRandom.
Variable random : nat -> Q.

Definition algorithms : AlgorithmMap :=
  mapSet (mapSet (mapSet (mapSet [] (Algorithm.name beamSearch) beamSearch)
                         (Algorithm.name hybridSearch) hybridSearch)
                 (Algorithm.name (genetic random)) (genetic random))
         (Algorithm.name firstFit) firstFit.

Definition getAlgorithm (name : string) : option Algorithm :=
  mapGet algorithms name.

Definition validateAlgorithmCompatibility (algorithm : Algorithm)
    (request : OptimizationRequest) : Result unit :=
  match Request.panels request with
  | [] => Throw "No panels provided"
  | panel :: _ =>
      let hasRotationRequest := existsb Piece.rotatable (Request.pieces request) in
      if hasRotationRequest && negb (Algorithm.supportsRotation algorithm)
      then Throw ("Algorithm '" ++ Algorithm.name algorithm
                  ++ "' does not support piece rotation")
      else
        let totalPieceArea :=
          fold_left (fun sum piece =>
                       sum + Piece.height piece * Piece.width piece
                             * inject_Z (Piece.quantity piece))
                    (Request.pieces request) 0 in
        let panelArea := Panel.height panel * Panel.width panel in
        let needsMultipleSheets := panelArea * 0.8 <? totalPieceArea in
        if needsMultipleSheets && negb (Algorithm.supportsMultiSheet algorithm)
        then Throw ("Algorithm '" ++ Algorithm.name algorithm
                    ++ "' does not support multiple sheets")
        else Ok tt
  end.

Definition executeAlgorithm (algorithmName : string)
    (request : OptimizationRequest) : Result AlgorithmResult :=
  match getAlgorithm algorithmName with
  | None => Throw ("Algorithm '" ++ algorithmName ++ "' not found")
  | Some algorithm =>
      match validateAlgorithmCompatibility algorithm request with
      | Throw message => Throw message
      | Ok _ =>
          match Algorithm.execute algorithm (Request.pieces request)
                  (Request.panels request) (Request.settings request) with
          | Ok result => Ok result
          | Throw message => Throw ("Algorithm execution failed: " ++ message)
          end
      end
  end.

Definition getAlgorithmPriority : list string :=
  ["beam_search_guillotine"; "hybrid_constructive_local_search";
   "first_fit_decreasing"]%string.

Fixpoint executeInOrder (request : OptimizationRequest) (names : list string)
  : Result AlgorithmResult :=
  match names with
  | [] => Throw "All algorithms failed to execute"
  | algorithmName :: rest =>
      match executeAlgorithm algorithmName request with
      | Ok result => Ok result
      | Throw _ => executeInOrder request rest
      end
  end.

Definition executeWithFallback (request : OptimizationRequest)
  : Result AlgorithmResult :=
  executeInOrder request getAlgorithmPriority.

End WithRandom.
End AlgorithmIndex.

(** ** Cut instructions ([generateCuts]) *)

Module Cut.
Inductive CutType := horizontal | vertical.
Record t := mk {
  type : CutType;
  position : option Q;
  sheetNumber : option nat
}.
End Cut.
Abbreviation CutInstruction := Cut.t.

(** [set.add(v)] on a JavaScript [Set] of numbers, kept in insertion order. *)
Definition setAdd (s : list Q) (v : Q) : list Q :=
  if existsb (fun u => u =? v) s then s else s ++ [v].

(** The comparison function [(a, b) => a - b]. *)
Definition compareNumbers (a b : Q) : Q := a - b.

(** The body of [for (let i = 1; i < sorted.length - 1; i++)] in the
    [generateCuts] of First-Fit-Decreasing, beam search and the hybrid
    search: the cut pushed for index [i], if any. *)
Definition cutAt (type : Cut.CutType) (kerf : Q) (sorted : list Q) (i : nat)
  : list CutInstruction :=
  match sorted !! i, sorted !! (i - 1)%nat with
  | Some current, Some previous =>
      if kerf <? current - previous
      then [Cut.mk type (Some current) None]
      else []
  | _, _ => []
  end.

(** [positions.add(f(piece)); positions.add(g(piece))]: the two edges of a
    piece along one axis are added to the set of coordinates. *)
Definition addEdges (f g : PlacedPiece -> Q) (positions : list Q)
    (piece : PlacedPiece) : list Q :=
  setAdd (setAdd positions (f piece)) (g piece).

Definition farX (piece : PlacedPiece) : Q := Placed.x piece + Placed.width piece.
Definition farY (piece : PlacedPiece) : Q := Placed.y piece + Placed.height piece.

(** The edge coordinates collected from the placed pieces: the two sets
    [xPositions] and [yPositions]. *)
Definition edgePositions (placedPieces : list PlacedPiece) : list Q * list Q :=
  fold_left
    (fun '(xPositions, yPositions) piece =>
       (addEdges Placed.x farX xPositions piece,
        addEdges Placed.y farY yPositions piece))
    placedPieces ([], []).

(** [generateCuts] as First-Fit-Decreasing, beam search and the hybrid
    search have it (the same text in the three classes). *)
Definition generateCuts (placedPieces : list PlacedPiece)
    (_panels : list OptimizationPanel) (settings : OptimizationSettings)
  : list CutInstruction :=
  match placedPieces with
  | [] => []
  | _ =>
      let '(xPositions, yPositions) := edgePositions placedPieces in
      let sortedX := arraySort compareNumbers xPositions in
      let sortedY := arraySort compareNumbers yPositions in
      flat_map (cutAt Cut.vertical (Settings.kerf settings) sortedX)
               (seq 1 (length sortedX - 2))
      ++ flat_map (cutAt Cut.horizontal (Settings.kerf settings) sortedY)
                  (seq 1 (length sortedY - 2))
  end.

Module GeneticCuts.

(** The body of [for (let i = 1; i < sorted.length; i++)]: the cut through
    the middle of the gap below index [i], if the gap exceeds the kerf. *)
Definition cutAt (type : Cut.CutType) (kerf : Q) (sorted : list Q) (i : nat)
  : list CutInstruction :=
  match sorted !! i, sorted !! (i - 1)%nat with
  | Some current, Some previous =>
      if kerf <? current - previous
      then [Cut.mk type (Some (previous + (current - previous) / 2)) (Some 0%nat)]
      else []
  | _, _ => []
  end.

Definition yPositions (placements : list PlacedPiece) (panel : OptimizationPanel)
  : list Q :=
  fold_left (addEdges Placed.y farY) placements
            (setAdd (setAdd [] 0) (Panel.height panel)).

Definition xPositions (placements : list PlacedPiece) (panel : OptimizationPanel)
  : list Q :=
  fold_left (addEdges Placed.x farX) placements
            (setAdd (setAdd [] 0) (Panel.width panel)).

(** [generateCuts] of the genetic search. *)
Definition generateCuts (placements : list PlacedPiece)
    (panel : OptimizationPanel) (settings : OptimizationSettings)
  : list CutInstruction :=
  let sortedY := arraySort compareNumbers (yPositions placements panel) in
  let sortedX := arraySort compareNumbers (xPositions placements panel) in
  flat_map (cutAt Cut.horizontal (Settings.kerf settings) sortedY)
           (seq 1 (length sortedY - 1))
  ++ flat_map (cutAt Cut.vertical (Settings.kerf settings) sortedX)
              (seq 1 (length sortedX - 1)).

End GeneticCuts.

(** ** The request handler ([api/optimize.ts]) *)

(** [req.body]: any of the three required fields may be missing. *)
Module Body.
Record t := mk {
  pieces : option (list OptimizationPiece);
  panels : option (list OptimizationPanel);
  settings : option OptimizationSettings;
  algorithm : option string
}.
End Body.

(** [OptimizationResponse], without the cut instructions and the duration. *)
Module Response.
Record Metadata := mkMetadata {
  algorithm : string;
  reasoning : option string;
  sheetCount : option Z
}.
Record t := mk {
  success : bool;
  placedPieces : list PlacedPiece;
  unusedPieces : list OptimizationPiece;
  efficiency : Q;
  totalArea : Q;
  usedArea : Q;
  wastedArea : Q;
  metadata : Metadata;
  error : option string
}.
End Response.
Abbreviation OptimizationResponse := Response.t.

Module Api.
Section WithRandom.
Variable random : nat -> Q.

(** The [try] block of [optimizeHandler] up to the result of the manager. *)
Definition runRequest (body : Body.t) : Result AlgorithmResult :=
  match Body.pieces body, Body.panels body, Body.settings body with
  | Some pieces, Some panels, Some settings =>
      match pieces, panels with
      | [], _ => Throw "No pieces provided"
      | _ :: _, [] => Throw "No panels provided"
      | _ :: _, _ :: _ =>
          AlgorithmManager.executeWithFallback random
            (Request.mk pieces panels settings (Body.algorithm body)) None
      end
  | _, _, _ => Throw "Missing required fields: pieces, panels, or settings"
  end.

Definition optimizeHandler (body : Body.t) : OptimizationResponse :=
  match runRequest body with
  | Ok result =>
      Response.mk true
        (AlgorithmResult.placedPieces result)
        (AlgorithmResult.unusedPieces result)
        (AlgorithmResult.efficiency result)
        (AlgorithmResult.totalArea result)
        (AlgorithmResult.usedArea result)
        (AlgorithmResult.wastedArea result)
        (Response.mkMetadata
           (AlgorithmResult.algorithm result)
           (Some ("Optimization completed using "
                  ++ AlgorithmResult.algorithm result ++ " algorithm")%string)
           (Some (AlgorithmResult.sheetCount result)))
        None
  | Throw message =>
      Response.mk false [] [] 0 0 0 0
        (Response.mkMetadata "unknown" (Some "Optimization failed") None)
        (Some message)
  end.

End WithRandom.
End Api.

(** ** Predicates of the statements and invariants of the proofs *)

Definition sumQuantities (pieces : list OptimizationPiece) : Z :=
  foldr (fun piece total => (Piece.quantity piece + total)%Z) 0%Z pieces.

(** The piece and the panel have positive sizes. *)
Definition positive (piece : OptimizationPiece) : Prop :=
  0 < Piece.width piece /\ 0 < Piece.height piece.

Definition positivePanel (panel : OptimizationPanel) : Prop :=
  0 < Panel.width panel /\ 0 < Panel.height panel.

(** [Number.isInteger]: the number is a whole number.  Dimensions given in
    whole millimetres are of this kind; the additions, subtractions and
    multiplications of the source are exact on them. *)
Definition isInteger (q : Q) : bool := Qeq_bool (inject_Z (Qfloor q)) q.

Definition integral (q : Q) : Prop := isInteger q = true.

Definition integralPiece (piece : OptimizationPiece) : Prop :=
  integral (Piece.width piece) /\ integral (Piece.height piece).

Definition integralPanel (panel : OptimizationPanel) : Prop :=
  integral (Panel.width panel) /\ integral (Panel.height panel).

Definition integralRectangle (r : Rectangle) : Prop :=
  integral (Rectangle.x r) /\ integral (Rectangle.y r)
  /\ integral (Rectangle.width r) /\ integral (Rectangle.height r).

Definition integralPlaced (p : PlacedPiece) : Prop :=
  integral (Placed.x p) /\ integral (Placed.y p)
  /\ integral (Placed.width p) /\ integral (Placed.height p).

(** The piece exceeds the panel in both orientations. *)
Definition tooLarge (piece : OptimizationPiece) (panel : OptimizationPanel) : Prop :=
  (Panel.width panel < Piece.width piece
   \/ Panel.height panel < Piece.height piece)
  /\ (Panel.width panel < Piece.height piece
      \/ Panel.height panel < Piece.width piece).

Definition withinPanel (panel : OptimizationPanel) (p : PlacedPiece) : Prop :=
  insideOf (Placed.footprint p) (wholePanel panel).

(** No two pieces that carry the same sheet number overlap. *)
Definition disjointOnSheets (placed : list PlacedPiece) : Prop :=
  ForallOrdPairs
    (fun p q =>
       Placed.sheetNumber p = Placed.sheetNumber q ->
       rectanglesOverlap (Placed.footprint p) (Placed.footprint q) = false)
    placed.

(** The invariants of a returned result: pieces within the panel, no
    overlap on a sheet, and the area accounted for. *)
Definition validResult (panel : OptimizationPanel) (result : AlgorithmResult)
  : Prop :=
  Forall (withinPanel panel) (AlgorithmResult.placedPieces result)
  /\ disjointOnSheets (AlgorithmResult.placedPieces result)
  /\ 0 <= AlgorithmResult.usedArea result
  /\ AlgorithmResult.usedArea result <= AlgorithmResult.totalArea result
  /\ 0 <= AlgorithmResult.efficiency result
  /\ AlgorithmResult.efficiency result <= 1.

(** Everything of a placed piece but its position. *)
Definition shape (p : PlacedPiece)
  : string * Q * Q * bool * option nat * option string :=
  (Placed.id p, Placed.width p, Placed.height p, Placed.rotated p,
   Placed.sheetNumber p, Placed.label p).

(** A computation of the genetic search returns from every state, with a
    value that satisfies [P]. *)
Definition returns {A} (m : Genetic.M A) (P : A -> Prop) : Prop :=
  forall w, exists a w', m w = Ok (a, w') /\ P a.

(** The individual [evaluateIndividual] makes of no placement. *)
Definition emptyIndividual : Genetic.GeneticIndividual :=
  Genetic.mkIndividual [] 0 0 0.

(** Every placed-piece object of the store carries sheet number 0. *)
Definition allOnSheet0 (w : Genetic.World) : Prop :=
  Forall (fun p => Placed.sheetNumber p = Some 0%nat) (Genetic.objects w).

(** A computation of the genetic search keeps an invariant of the state:
    if it returns, the invariant still holds. *)
Definition keeps {A} (I : Genetic.World -> Prop) (m : Genetic.M A) : Prop :=
  forall w a w', I w -> m w = Ok (a, w') -> I w'.

(** The sheet count of an individual is its efficiency rounded up. *)
Definition sheetsFromEfficiency (individual : Genetic.GeneticIndividual) : Prop :=
  Genetic.sheetCount individual = Qceiling (Genetic.efficiency individual).

(** Hybrid constructive phase: there is one sheet, whose free space is
    untouched or used up. *)
Definition singleSheet (panel : OptimizationPanel)
    (st : Objects * HybridLocalSearch.OptimizationState) : Prop :=
  HybridLocalSearch.currentSheet (snd st) = 0%nat
  /\ exists sheet,
      HybridLocalSearch.sheets (snd st) = [sheet]
      /\ (HybridLocalSearch.availableSpace sheet = []
          \/ HybridLocalSearch.availableSpace sheet = [wholePanel panel]).

(** Hybrid constructive phase: the one sheet is either untouched or holds
    exactly one piece, placed at the origin. *)
Definition atMostOnePlaced (panel : OptimizationPanel)
    (st : Objects * HybridLocalSearch.OptimizationState) : Prop :=
  HybridLocalSearch.currentSheet (snd st) = 0%nat
  /\ ((fst st = []
       /\ HybridLocalSearch.sheets (snd st)
          = [HybridLocalSearch.mkSheet [] [wholePanel panel]])
      \/ (exists piece rotated,
             positive piece
             /\ HybridLocalSearch.canPlacePiece piece (wholePanel panel) rotated
                = true
             /\ fst st
                = [HybridLocalSearch.placePiece piece (wholePanel panel) rotated 0]
             /\ HybridLocalSearch.sheets (snd st)
                = [HybridLocalSearch.mkSheet [0%nat] []])).

(** First-Fit-Decreasing: a piece on sheet [i], below the level [y0]. *)
Definition stacked (panel : OptimizationPanel) (i : nat) (y0 : Q)
    (p : PlacedPiece) : Prop :=
  Placed.sheetNumber p = Some i
  /\ 0 <= Placed.x p /\ Placed.x p + Placed.width p <= Panel.width panel
  /\ 0 <= Placed.y p /\ Placed.y p + Placed.height p <= y0
  /\ 0 < Placed.width p /\ 0 < Placed.height p.

(** First-Fit-Decreasing: sheet [i] is a stack.  Its pieces lie below a
    level [y0], they do not overlap, they cover no more than the area below
    [y0], and the free space is nothing or the full-width rectangle above
    [y0]. *)
Definition sheetOk (panel : OptimizationPanel) (i : nat)
    (sheet : FirstFitDecreasing.Sheet) : Prop :=
  exists y0 : Q,
    0 <= y0 /\ y0 <= Panel.height panel
    /\ Forall (stacked panel i y0) (FirstFitDecreasing.placedPieces sheet)
    /\ ForallOrdPairs
         (fun p q =>
            rectanglesOverlap (Placed.footprint p) (Placed.footprint q) = false)
         (FirstFitDecreasing.placedPieces sheet)
    /\ sumPlacedArea (FirstFitDecreasing.placedPieces sheet)
       <= Panel.width panel * y0
    /\ (FirstFitDecreasing.availableSpace sheet = []
        \/ exists r,
            FirstFitDecreasing.availableSpace sheet = [r]
            /\ Rectangle.x r == 0 /\ Rectangle.y r == y0
            /\ Rectangle.width r == Panel.width panel
            /\ Rectangle.y r + Rectangle.height r == Panel.height panel).

Fixpoint sheetsOk (panel : OptimizationPanel) (i : nat)
    (sheets : list FirstFitDecreasing.Sheet) : Prop :=
  match sheets with
  | [] => True
  | sheet :: rest => sheetOk panel i sheet /\ sheetsOk panel (S i) rest
  end.

(** The width and height a piece takes in an orientation. *)
Definition fitted (piece : OptimizationPiece) (rotated : bool) : Q * Q :=
  if rotated then (Piece.height piece, Piece.width piece)
  else (Piece.width piece, Piece.height piece).

(** The order [comparePriority] decides between pieces of positive height:
    higher priority first, then the wider piece first. *)
Definition priorityThenWidth (a b : OptimizationPiece) : Prop :=
  0 < Piece.height a /\ 0 < Piece.height b
  /\ (Piece.priorityOr0 b < Piece.priorityOr0 a
      \/ (Piece.priorityOr0 b == Piece.priorityOr0 a
          /\ Piece.width b <= Piece.width a)).


(** [v] is the coordinate of an edge of a placed piece that a cut of the
    given type can follow. *)
Definition edgeOf (type : Cut.CutType) (placedPieces : list PlacedPiece) (v : Q)
  : Prop :=
  exists piece,
    In piece placedPieces
    /\ match type with
       | Cut.vertical =>
           v = Placed.x piece \/ v = farX piece
       | Cut.horizontal =>
           v = Placed.y piece \/ v = farY piece
       end.

(** First-Fit-Decreasing: [piece] fits [space] in the given orientation,
    and the waste [findBestFit] computes for the pair. *)
Definition fitsIn (piece : OptimizationPiece) (rotated : bool)
    (space : Rectangle) : Prop :=
  fst (fitted piece rotated) <= Rectangle.width space
  /\ snd (fitted piece rotated) <= Rectangle.height space.

Definition wasteIn (piece : OptimizationPiece) (rotated : bool)
    (space : Rectangle) : Q :=
  (Rectangle.width space - fst (fitted piece rotated))
  * (Rectangle.height space - snd (fitted piece rotated)).

(** The state of the loop of [findBestFit] after the spaces of [seen]:
    nothing fitted so far, or [fit] is the piece at the corner of the first
    space among those of least waste. *)
Definition bestSoFar (piece : OptimizationPiece) (rotated : bool)
    (seen : list Rectangle) (state : option Rectangle * option Q) : Prop :=
  match state with
  | (None, None) => forall space, In space seen -> ~ fitsIn piece rotated space
  | (Some fit, Some bestWaste) =>
      exists space,
        In space seen /\ fitsIn piece rotated space
        /\ fit = Rectangle.mk (Rectangle.x space) (Rectangle.y space)
                              (fst (fitted piece rotated))
                              (snd (fitted piece rotated))
        /\ bestWaste = wasteIn piece rotated space
        /\ forall other, In other seen -> fitsIn piece rotated other ->
                         wasteIn piece rotated space <= wasteIn piece rotated other
  | _ => False
  end.

(** First-Fit-Decreasing: the pieces of the sheets carry the sheets'
    indices, counted from [i]. *)
Fixpoint numberedFrom (i : nat) (sheets : list FirstFitDecreasing.Sheet) : Prop :=
  match sheets with
  | [] => True
  | sheet :: rest =>
      Forall (fun p => Placed.sheetNumber p = Some i)
             (FirstFitDecreasing.placedPieces sheet)
      /\ numberedFrom (S i) rest
  end.

(** First-Fit-Decreasing: every piece of the sheet sits at the left edge,
    and every free rectangle spans the full width of the panel. *)
Definition leftAligned (panel : OptimizationPanel)
    (sheet : FirstFitDecreasing.Sheet) : Prop :=
  Forall (fun p => Placed.x p = 0) (FirstFitDecreasing.placedPieces sheet)
  /\ Forall (fun r => Rectangle.x r = 0
                      /\ Rectangle.width r = Panel.width panel)
            (FirstFitDecreasing.availableSpace sheet).

(** The piece fits the empty panel: as it is, or turned if it may rotate. *)
Definition fitsPanel (panel : OptimizationPanel) (piece : OptimizationPiece)
  : Prop :=
  fitsIn piece false (wholePanel panel)
  \/ (Piece.rotatable piece = true /\ fitsIn piece true (wholePanel panel)).

(** The state the constructive phase of the hybrid search starts from. *)
Definition initialState (panel : OptimizationPanel)
  : HybridLocalSearch.OptimizationState :=
  HybridLocalSearch.mkState
    [HybridLocalSearch.mkSheet [] [wholePanel panel]] 0.

(** A placed piece of the genetic search that is one of [pieces]: it has a
    piece's identifier and that piece's dimensions, exchanged exactly when
    it is flagged as rotated; it has no label, is on sheet 0 and its corner
    has no negative coordinate. *)
Definition genuine (pieces : list OptimizationPiece) (p : PlacedPiece) : Prop :=
  exists piece,
    In piece pieces
    /\ Placed.id p = Piece.id piece
    /\ Placed.label p = None
    /\ Placed.sheetNumber p = Some 0%nat
    /\ 0 <= Placed.x p /\ 0 <= Placed.y p
    /\ (Placed.width p, Placed.height p) = fitted piece (Placed.rotated p).

Definition genuineStore (pieces : list OptimizationPiece) (w : Genetic.World)
  : Prop :=
  Forall (genuine pieces) (Genetic.objects w).

(** A computation of the genetic search that is started in a state where
    [I] holds and returns, returns a value that satisfies [Q], in a state
    where [I] holds. *)
Definition ensures {A} (I : Genetic.World -> Prop) (m : Genetic.M A)
    (Q : A -> Prop) : Prop :=
  forall w a w', I w -> m w = Ok (a, w') -> I w' /\ Q a.

(** The individual holds [n] placements at most. *)
Definition atMost (n : nat) (individual : Genetic.GeneticIndividual) : Prop :=
  (length (Genetic.placements individual) <= n)%nat.

(** The corner of the rectangle has no negative coordinate. *)
Definition cornered (r : Rectangle) : Prop :=
  0 <= Rectangle.x r /\ 0 <= Rectangle.y r.

(** ** Sample requests used in the examples below *)

Module Samples.

Definition settings0 : OptimizationSettings :=
  Settings.mk 0 (Build_Padding 0 0 0 0) hybrid None None.

Definition plain (id : string) (w h : Q) (q : Z) : OptimizationPiece :=
  Piece.mk id w h q None None None None.

Definition rotating (id : string) (w h : Q) (q : Z) : OptimizationPiece :=
  Piece.mk id w h q None (Some true) None None.

(** Scenario C of the specification: two squares of 100 on a 150 x 100 panel. *)
Definition twoSquares : OptimizationPiece := plain "square" 100 100 2.
Definition panel150x100 : OptimizationPanel := Panel.mk 150 100 None.

(** Scenario A: one 100 x 50 piece on a 500 x 300 panel. *)
Definition small : OptimizationPiece := plain "small" 100 50 1.
Definition panel500x300 : OptimizationPanel := Panel.mk 500 300 None.

(** A piece no orientation of which fits the 500 x 300 panel. *)
Definition huge : OptimizationPiece := rotating "huge" 1000 600 1.

(** Two pieces of equal priority: the wide one has the smaller area. *)
Definition wide : OptimizationPiece := plain "wide" 10 1 1.
Definition tall : OptimizationPiece := plain "tall" 5 100 1.

(** A request whose piece fits the panel only when rotated. *)
Definition turning : OptimizationPiece := rotating "turning" 100 400 1.
Definition rotationRequest : OptimizationRequest :=
  Request.mk [turning] [panel500x300] settings0 None.

End Samples.

(** A state of the hybrid search with two sheets: [a] and [b] side by side
    on the first sheet, [c] on the second, on a 30 x 10 panel. *)
Module TwoSheets.
Definition a : PlacedPiece := Placed.mk "a" 0 0 10 10 false (Some 0%nat) None.
Definition b : PlacedPiece := Placed.mk "b" 10 0 10 10 false (Some 0%nat) None.
Definition c : PlacedPiece := Placed.mk "c" 10 0 10 10 false (Some 1%nat) None.
Definition objects : Objects := [a; b; c].
Definition sheet1 : HybridLocalSearch.Sheet :=
  HybridLocalSearch.mkSheet [0%nat; 1%nat] [].
Definition sheet2 : HybridLocalSearch.Sheet :=
  HybridLocalSearch.mkSheet [2%nat] [].
Definition state : HybridLocalSearch.OptimizationState :=
  HybridLocalSearch.mkState [sheet1; sheet2] 0.
Definition panel : OptimizationPanel := Panel.mk 30 10 None.
End TwoSheets.

(** The constructive phase of the hybrid search on three pieces and a
    500 x 300 panel. *)
Module Constructed.
Definition pieces : list OptimizationPiece :=
  [Samples.tall; Samples.wide; Samples.small].
Definition state : Objects * HybridLocalSearch.OptimizationState :=
  HybridLocalSearch.constructivePlacement Samples.panel500x300 []
    (HybridLocalSearch.mkState
       [HybridLocalSearch.mkSheet [] [wholePanel Samples.panel500x300]] 0)
    pieces.
End Constructed.

(** A used rectangle in the corner of a free one, and a free rectangle apart
    from both. *)
Module Offcuts.
Definition used : Rectangle := Rectangle.mk 0 0 60 40.
Definition free : Rectangle := Rectangle.mk 0 0 100 100.
Definition far : Rectangle := Rectangle.mk 200 0 50 50.
End Offcuts.

(** Two placed pieces, one above the other, on a 100 x 100 panel. *)
Module Shelves.
Definition lower : PlacedPiece :=
  Placed.mk "lower" 0 0 60 40 false (Some 0%nat) None.
Definition upper : PlacedPiece :=
  Placed.mk "upper" 0 40 30 60 false (Some 0%nat) None.
Definition panel : OptimizationPanel := Panel.mk 100 100 None.
End Shelves.

(** A population of three individuals of one piece each, of fitness 0.4, 1
    and 0.6, on a 100 x 100 panel. *)
Module Elite.
Definition quarter : PlacedPiece :=
  Placed.mk "quarter" 0 0 50 50 false (Some 0%nat) None.
Definition full : PlacedPiece :=
  Placed.mk "full" 0 0 100 100 false (Some 0%nat) None.
Definition half : PlacedPiece :=
  Placed.mk "half" 0 0 100 50 false (Some 0%nat) None.
Definition panel : OptimizationPanel := Panel.mk 100 100 None.
Definition world : Genetic.World := Genetic.mkWorld 0 [quarter; full; half].
Definition population : list Genetic.GeneticIndividual :=
  [Genetic.evaluateIndividual [quarter; full; half] [0%nat] panel;
   Genetic.evaluateIndividual [quarter; full; half] [1%nat] panel;
   Genetic.evaluateIndividual [quarter; full; half] [2%nat] panel].
End Elite.

(** One individual of the genetic search with a single 100 x 100 piece on a
    100 x 100 panel, and a random source whose draws are: no rotation (0.5),
    position mutation (0), then 0.9 and 0.5 for the two offsets. *)
Module Jitter.
Definition piece : PlacedPiece :=
  Placed.mk "full" 0 0 100 100 false (Some 0%nat) None.
Definition panel : OptimizationPanel := Panel.mk 100 100 None.
Definition world : Genetic.World := Genetic.mkWorld 0 [piece].
Definition individual : Genetic.GeneticIndividual :=
  Genetic.evaluateIndividual [piece] [0%nat] panel.
Definition random (n : nat) : Q :=
  match n with
  | 0%nat => 0.5
  | 1%nat => 0
  | 2%nat => 0.9
  | _ => 0.5
  end.
End Jitter.

(** * Properties *)

(** ** Numbers *)

Lemma Qltb_lt (a b : Q) : (a <? b) = true <-> a < b.
Proof.
  unfold Qltb. rewrite negb_true_iff.
  split.
  - intros H. apply Qnot_le_lt. intros Hle.
    apply Qle_bool_iff in Hle. congruence.
  - intros H. destruct (Qle_bool b a) eqn:E; [|reflexivity].
    apply Qle_bool_iff in E. lra.
Qed.

Lemma Qltb_ge (a b : Q) : (a <? b) = false <-> b <= a.
Proof.
  unfold Qltb. rewrite negb_false_iff. apply Qle_bool_iff.
Qed.

Lemma Qleb_le (a b : Q) : (a <=? b) = true <-> a <= b.
Proof. apply Qle_bool_iff. Qed.

Lemma Qleb_gt (a b : Q) : (a <=? b) = false <-> b < a.
Proof.
  unfold Qleb. split.
  - intros H. apply Qnot_le_lt. intros Hle.
    apply Qle_bool_iff in Hle. congruence.
  - intros H. destruct (Qle_bool a b) eqn:E; [|reflexivity].
    apply Qle_bool_iff in E. lra.
Qed.

Lemma Qltb_irrefl (a : Q) : (a <? a) = false.
Proof. apply Qltb_ge. lra. Qed.

(** ** [Array.prototype.sort] *)

Section ArraySortFacts.
Context {A : Type} (compareFn : A -> A -> Q).

Lemma sortInsert_length a l :
  length (sortInsert compareFn a l) = S (length l).
Proof.
  induction l as [|b l IH]; simpl; [reflexivity|].
  destruct (compareFn a b <=? 0); simpl; congruence.
Qed.

Lemma arraySort_length l : length (arraySort compareFn l) = length l.
Proof.
  induction l as [|a l IH]; simpl; [reflexivity|].
  rewrite sortInsert_length. congruence.
Qed.

Lemma sortInsert_Permutation a l : Permutation (a :: l) (sortInsert compareFn a l).
Proof.
  induction l as [|b l IH]; simpl; [reflexivity|].
  destruct (compareFn a b <=? 0); [reflexivity|].
  rewrite perm_swap. by constructor.
Qed.

Lemma arraySort_Permutation l : Permutation l (arraySort compareFn l).
Proof.
  induction l as [|a l IH]; simpl; [reflexivity|].
  rewrite <- sortInsert_Permutation. by constructor.
Qed.

Lemma arraySort_singleton a : arraySort compareFn [a] = [a].
Proof. reflexivity. Qed.

Lemma arraySort_nil_inv l : arraySort compareFn l = [] -> l = [].
Proof.
  intros H. apply (f_equal length) in H. rewrite arraySort_length in H.
  by destruct l.
Qed.

End ArraySortFacts.

(** ** The piece preprocessor *)

Lemma withQuantity_same (piece : OptimizationPiece) :
  Piece.withQuantity piece (Piece.quantity piece) = piece.
Proof. by destruct piece. Qed.

Lemma expandPieces_cons piece pieces :
  expandPieces (piece :: pieces)
  = replicate (Z.to_nat (Piece.quantity piece)) (Piece.withQuantity piece 1)
    ++ expandPieces pieces.
Proof. reflexivity. Qed.

Lemma expandPieces_unit piece :
  Piece.quantity piece = 1%Z -> expandPieces [piece] = [piece].
Proof.
  intros H. unfold expandPieces. simpl. rewrite H. simpl.
  by rewrite <- H, withQuantity_same.
Qed.

Lemma expandPieces_In unit pieces :
  In unit (expandPieces pieces) ->
  exists piece, In piece pieces /\ unit = Piece.withQuantity piece 1.
Proof.
  unfold expandPieces. rewrite in_flat_map. intros (piece & Hin & Hunit).
  apply list_elem_of_In, elem_of_replicate in Hunit as [-> _]. eauto.
Qed.

Lemma positive_preprocessed pieces :
  Forall positive pieces ->
  Forall positive (sortPiecesByPriority (expandPieces pieces)).
Proof.
  intros Hpos. unfold sortPiecesByPriority.
  eapply Permutation_Forall; [apply arraySort_Permutation|].
  apply Forall_forall. intros unit Hin.
  apply expandPieces_In in Hin as (piece & Hin & ->).
  rewrite Forall_forall in Hpos. exact (Hpos piece Hin).
Qed.

(** C8, as amended.  With non-negative quantities, [expandPieces] replaces
    each piece, in the order of the input, by as many unit pieces as its
    quantity says, so that the output has exactly the sum of the quantities
    many entries; every unit is its source piece with [quantity] set to 1: it
    keeps the source identifier, and nothing else is added to tell two copies
    apart. *)
Theorem expandPieces_units (pieces : list OptimizationPiece) :
  Forall (fun piece => (0 <= Piece.quantity piece)%Z) pieces ->
  Z.of_nat (length (expandPieces pieces)) = sumQuantities pieces
  /\ (exists blocks : list (list OptimizationPiece),
         expandPieces pieces = concat blocks
         /\ Forall2 (fun piece block =>
                       Z.of_nat (length block) = Piece.quantity piece
                       /\ Forall (fun unit => unit = Piece.withQuantity piece 1)
                                 block)
                    pieces blocks)
  /\ Forall (fun unit =>
               exists piece, In piece pieces
                             /\ unit = Piece.withQuantity piece 1
                             /\ Piece.quantity unit = 1%Z
                             /\ Piece.id unit = Piece.id piece)
            (expandPieces pieces).
Proof.
  induction 1 as [|piece pieces Hq _ (IHlen & (blocks & IHeq & IHblocks) & IHall)].
  - split; [reflexivity|]. split; [|constructor].
    exists []. split; [reflexivity | constructor].
  - rewrite expandPieces_cons. split; [|split].
    + rewrite length_app, length_replicate, Nat2Z.inj_add, IHlen.
      simpl. lia.
    + exists (replicate (Z.to_nat (Piece.quantity piece))
                        (Piece.withQuantity piece 1) :: blocks).
      split; [by rewrite IHeq|]. constructor; [|exact IHblocks].
      split; [rewrite length_replicate; lia|].
      apply Forall_forall. intros unit Hin.
      by apply list_elem_of_In, elem_of_replicate in Hin as [-> _].
    + apply Forall_app. split.
      * apply Forall_forall. intros unit Hin.
        apply list_elem_of_In, elem_of_replicate in Hin as [-> _].
        exists piece. repeat split. by left.
      * eapply Forall_impl; [|exact IHall].
        intros unit (p & Hp & Hu). exists p. split; [by right | exact Hu].
Qed.

Lemma expandPieces_units_witness :
  Forall (fun piece => (0 <= Piece.quantity piece)%Z)
         [Samples.twoSquares; Samples.small]
  /\ Z.of_nat (length (expandPieces [Samples.twoSquares; Samples.small])) = 3%Z
  /\ exists squares smalls,
      expandPieces [Samples.twoSquares; Samples.small] = squares ++ smalls
      /\ length squares = 2%nat
      /\ Forall (fun unit => unit = Piece.withQuantity Samples.twoSquares 1)
                squares
      /\ length smalls = 1%nat
      /\ Forall (fun unit => unit = Piece.withQuantity Samples.small 1) smalls.
Proof.
  assert (H : Forall (fun piece => (0 <= Piece.quantity piece)%Z)
                     [Samples.twoSquares; Samples.small]).
  { repeat constructor; simpl; lia. }
  split; [exact H|].
  destruct (expandPieces_units [Samples.twoSquares; Samples.small] H)
    as (Hlen & (blocks & Heq & Hblocks) & _).
  split; [rewrite Hlen; reflexivity|].
  inversion Hblocks as [|? squares ? rest [Hn2 Hall2] Hrest]; subst.
  inversion Hrest as [|? smalls ? rest' [Hn1 Hall1] Hnil]; subst.
  inversion Hnil; subst.
  exists squares, smalls. simpl in Heq. rewrite app_nil_r in Heq.
  split; [exact Heq|].
  split; [simpl in Hn2; lia|]. split; [exact Hall2|].
  split; [simpl in Hn1; lia | exact Hall1].
Defined.

(** C8, as stated, fails: the two unit pieces made from one piece of quantity
    2 are the same value, with the identifier of their source; no field
    separates one instance from the other. *)
Lemma expandPieces_instances_equal :
  expandPieces [Samples.twoSquares]
  = [Piece.withQuantity Samples.twoSquares 1;
     Piece.withQuantity Samples.twoSquares 1]
  /\ Piece.id (Piece.withQuantity Samples.twoSquares 1)
     = Piece.id Samples.twoSquares
  /\ ~ NoDup (expandPieces [Samples.twoSquares]).
Proof.
  split; [reflexivity|]. split; [reflexivity|].
  intros H. inversion H as [|unit units Hnotin _]; subst.
  apply Hnotin. apply list_elem_of_In. by left.
Qed.

(** C7.  The comparison function of [sortPiecesByPriority] takes
    [a.width * b.height] for the area of [a].  Between two pieces of equal
    priority and positive height it therefore decides by width alone: the
    wider piece is put first, whichever of the two is the first argument and
    whatever the input order, also when its area is the smaller one. *)
Theorem sortPiecesByPriority_by_width (a b : OptimizationPiece) :
  Piece.priorityOr0 a == Piece.priorityOr0 b ->
  0 < Piece.height a -> 0 < Piece.height b ->
  Piece.width b < Piece.width a ->
  comparePriority a b < 0
  /\ 0 < comparePriority b a
  /\ sortPiecesByPriority [b; a] = [a; b]
  /\ sortPiecesByPriority [a; b] = [a; b].
Proof.
  intros Hprio Ha Hb Hwidth.
  assert (Eab : (Piece.priorityOr0 b =? Piece.priorityOr0 a) = true).
  { apply Qeq_bool_iff. by symmetry. }
  assert (Eba : (Piece.priorityOr0 a =? Piece.priorityOr0 b) = true).
  { by apply Qeq_bool_iff. }
  assert (Hab : comparePriority a b < 0).
  { unfold comparePriority. rewrite Eab. simpl. nra. }
  assert (Hba : 0 < comparePriority b a).
  { unfold comparePriority. rewrite Eba. simpl. nra. }
  split; [exact Hab|]. split; [exact Hba|].
  unfold sortPiecesByPriority, arraySort. simpl.
  assert (E1 : (comparePriority b a <=? 0) = false) by (by apply Qleb_gt).
  assert (E2 : (comparePriority a b <=? 0) = true) by (apply Qleb_le; lra).
  by rewrite E1, E2.
Qed.

(** The piece of area 10 is put before the piece of area 500. *)
Lemma sortPiecesByPriority_by_width_witness :
  Piece.priorityOr0 Samples.wide == Piece.priorityOr0 Samples.tall
  /\ 0 < Piece.height Samples.wide /\ 0 < Piece.height Samples.tall
  /\ Piece.width Samples.tall < Piece.width Samples.wide
  /\ Piece.width Samples.wide * Piece.height Samples.wide
     < Piece.width Samples.tall * Piece.height Samples.tall
  /\ sortPiecesByPriority [Samples.tall; Samples.wide]
     = [Samples.wide; Samples.tall]
  /\ sortPiecesByPriority [Samples.wide; Samples.tall]
     = [Samples.wide; Samples.tall].
Proof.
  assert (Hprio : Piece.priorityOr0 Samples.wide == Piece.priorityOr0 Samples.tall)
    by reflexivity.
  assert (Ha : 0 < Piece.height Samples.wide) by reflexivity.
  assert (Hb : 0 < Piece.height Samples.tall) by reflexivity.
  assert (Hw : Piece.width Samples.tall < Piece.width Samples.wide)
    by reflexivity.
  destruct (sortPiecesByPriority_by_width Samples.wide Samples.tall
              Hprio Ha Hb Hw) as (_ & _ & H1 & H2).
  repeat split; assumption.
Defined.

(** ** The geometry kernel *)

Ltac Qbools :=
  repeat match goal with
         | H : (_ && _) = true |- _ => apply andb_true_iff in H as [? ?]
         | H : (_ <? _) = true |- _ => apply Qltb_lt in H
         | H : (_ <? _) = false |- _ => apply Qltb_ge in H
         | H : (_ <=? _) = true |- _ => apply Qleb_le in H
         | H : (_ <=? _) = false |- _ => apply Qleb_gt in H
         end.

Lemma overlapsSpace_rectanglesOverlap (usedSpace space : Rectangle) :
  overlapsSpace usedSpace space = rectanglesOverlap space usedSpace.
Proof.
  unfold overlapsSpace, rectanglesOverlap, Qltb, Qleb.
  destruct (Qle_bool (Rectangle.x space + Rectangle.width space)
                     (Rectangle.x usedSpace)),
           (Qle_bool (Rectangle.x usedSpace + Rectangle.width usedSpace)
                     (Rectangle.x space)),
           (Qle_bool (Rectangle.y space + Rectangle.height space)
                     (Rectangle.y usedSpace)),
           (Qle_bool (Rectangle.y usedSpace + Rectangle.height usedSpace)
                     (Rectangle.y space)); reflexivity.
Qed.

Lemma rectanglesOverlap_false (r1 r2 : Rectangle) :
  rectanglesOverlap r1 r2 = false <->
  Rectangle.x r1 + Rectangle.width r1 <= Rectangle.x r2
  \/ Rectangle.x r2 + Rectangle.width r2 <= Rectangle.x r1
  \/ Rectangle.y r1 + Rectangle.height r1 <= Rectangle.y r2
  \/ Rectangle.y r2 + Rectangle.height r2 <= Rectangle.y r1.
Proof.
  unfold rectanglesOverlap. rewrite negb_false_iff, !orb_true_iff, !Qleb_le.
  tauto.
Qed.

Lemma In_pushIf cond r r' : In r' (pushIf cond r) <-> cond = true /\ r' = r.
Proof.
  destruct cond; simpl; split; try tauto.
  - intros [<- | []]. by split.
  - intros [_ ->]. by left.
  - by intros [? _].
Qed.

Lemma splitOne_pass (usedSpace space : Rectangle) :
  overlapsSpace usedSpace space = false -> splitOne usedSpace space = [space].
Proof. unfold splitOne. by intros ->. Qed.

Lemma splitOne_length (usedSpace space : Rectangle) :
  (length (splitOne usedSpace space) <= 4)%nat.
Proof.
  unfold splitOne, pushIf.
  repeat match goal with |- context [if ?c then _ else _] => destruct c end;
    simpl; lia.
Qed.

(** What an overlapping space contributes: strips of that space, none of
    which meets the used rectangle. *)
Lemma splitOne_strips (usedSpace space r : Rectangle) :
  overlapsSpace usedSpace space = true ->
  In r (splitOne usedSpace space) ->
  (r = stripBelow usedSpace space \/ r = stripAbove usedSpace space
   \/ r = stripLeft usedSpace space \/ r = stripRight usedSpace space)
  /\ insideOf r space
  /\ rectanglesOverlap r usedSpace = false.
Proof.
  intros Hov. unfold splitOne. rewrite Hov.
  unfold overlapsSpace in Hov. Qbools.
  rewrite !in_app_iff, !In_pushIf.
  intros [[Hc ->] | [[Hc ->] | [[Hc ->] | [Hc ->]]]]; Qbools;
    (split; [tauto|]); unfold insideOf; rewrite rectanglesOverlap_false; simpl;
    split; lra.
Qed.

Lemma In_splitSpace (availableSpaces : list Rectangle) (usedSpace : Rectangle)
    (pieceWidth pieceHeight kerf : Q) (r : Rectangle) :
  In r (splitSpace availableSpaces usedSpace pieceWidth pieceHeight kerf) <->
  (exists space, In space availableSpaces /\ In r (splitOne usedSpace space))
  /\ kerf < Rectangle.width r /\ kerf < Rectangle.height r.
Proof.
  unfold splitSpace. rewrite filter_In, in_flat_map.
  unfold widerThanKerf. rewrite andb_true_iff, !Qltb_lt. tauto.
Qed.


(** C6.  The strategy's own [splitSpace] in [first-fit-decreasing.ts] is not
    the kernel's.  When a piece is cut from the corner of a free rectangle
    that is wider and higher than the piece, it returns the strip above the
    piece and nothing else, whatever the kerf; the shared [splitSpace]
    returns the strip above and the strip to the right, each only if it is
    wider and higher than the kerf. *)
Theorem firstFit_splitSpace_differs
    (space : Rectangle) (w h originalWidth originalHeight kerf : Q) :
  0 < w -> w < Rectangle.width space ->
  0 < h -> h < Rectangle.height space ->
  let placedPiece := Rectangle.mk (Rectangle.x space) (Rectangle.y space) w h in
  FirstFitDecreasing.splitSpace [space] placedPiece
                                originalWidth originalHeight kerf
  = [stripAbove placedPiece space]
  /\ splitSpace [space] placedPiece originalWidth originalHeight kerf
     = List.filter (widerThanKerf kerf)
                   [stripAbove placedPiece space; stripRight placedPiece space].
Proof.
  intros Hw0 Hw Hh0 Hh placedPiece.
  assert (Ex : (Rectangle.x space <? Rectangle.x space + Rectangle.width space)
               = true) by (apply Qltb_lt; lra).
  assert (Exw : (Rectangle.x space <? Rectangle.x space + w) = true)
    by (apply Qltb_lt; lra).
  assert (Ey : (Rectangle.y space <? Rectangle.y space + Rectangle.height space)
               = true) by (apply Qltb_lt; lra).
  assert (Eyh : (Rectangle.y space <? Rectangle.y space + h) = true)
    by (apply Qltb_lt; lra).
  assert (Eabove : (Rectangle.y space + h
                    <? Rectangle.y space + Rectangle.height space) = true)
    by (apply Qltb_lt; lra).
  assert (Eright : (Rectangle.x space + w
                    <? Rectangle.x space + Rectangle.width space) = true)
    by (apply Qltb_lt; lra).
  split.
  - unfold FirstFitDecreasing.splitSpace, FirstFitDecreasing.splitOne,
      placedPiece. simpl.
    by rewrite Ex, Exw, Qltb_irrefl, Eabove.
  - unfold splitSpace, splitOne, overlapsSpace, placedPiece. simpl.
    by rewrite Ex, Exw, Ey, Eyh, !Qltb_irrefl, Eabove, Eright.
Qed.

(** A 50 x 50 piece in the corner of a free 100 x 100 rectangle, kerf 0: the
    strip to the right of the piece is lost.  The same piece in a free
    100 x 52 rectangle, kerf 3: the sliver of height 2 above it is kept. *)
Lemma firstFit_splitSpace_differs_witness :
  (0 < 50 /\ 50 < 100 /\ 50 < 52)
  /\ FirstFitDecreasing.splitSpace [Rectangle.mk 0 0 100 100]
                                   (Rectangle.mk 0 0 50 50) 50 50 0
     = [Rectangle.mk 0 50 100 50]
  /\ splitSpace [Rectangle.mk 0 0 100 100] (Rectangle.mk 0 0 50 50) 50 50 0
     = [Rectangle.mk 0 50 100 50; Rectangle.mk 50 0 50 100]
  /\ FirstFitDecreasing.splitSpace [Rectangle.mk 0 0 100 52]
                                   (Rectangle.mk 0 0 50 50) 50 50 3
     = [Rectangle.mk 0 50 100 2]
  /\ splitSpace [Rectangle.mk 0 0 100 52] (Rectangle.mk 0 0 50 50) 50 50 3
     = [Rectangle.mk 50 0 50 52].
Proof.
  assert (H0 : 0 < 50) by reflexivity.
  assert (H1 : 50 < 100) by reflexivity.
  assert (H2 : 50 < 52) by reflexivity.
  split; [by repeat split|].
  destruct (firstFit_splitSpace_differs (Rectangle.mk 0 0 100 100)
              50 50 50 50 0 H0 H1 H0 H1) as [Ha Hb].
  destruct (firstFit_splitSpace_differs (Rectangle.mk 0 0 100 52)
              50 50 50 50 3 H0 H1 H0 H2) as [Hc Hd].
  cbn [Rectangle.x Rectangle.y] in Ha, Hb, Hc, Hd.
  rewrite Ha, Hb, Hc, Hd. repeat split.
Defined.

(** ** Beam search *)

Lemma childrenAt_pieces kerf node piece unplacedPieces space child :
  In child (BeamSearch.childrenAt kerf node piece unplacedPieces space) ->
  BeamSearch.Node.pieces child = unplacedPieces
  /\ exists placement,
      BeamSearch.Node.placedPieces child
      = BeamSearch.Node.placedPieces node ++ [placement]
      /\ Placed.id placement = Piece.id piece.
Proof.
  unfold BeamSearch.childrenAt. rewrite in_app_iff.
  intros [H | H].
  - destruct (BeamSearch.canPlacePiece piece space false); [|destruct H].
    destruct H as [<- | []]. simpl. eauto.
  - destruct (Piece.rotatable piece && BeamSearch.canPlacePiece piece space true);
      [|destruct H].
    destruct H as [<- | []]. simpl. eauto.
Qed.

Lemma childrenAt_none kerf node piece unplacedPieces space :
  BeamSearch.canPlacePiece piece space false = false ->
  BeamSearch.canPlacePiece piece space true = false ->
  BeamSearch.childrenAt kerf node piece unplacedPieces space = [].
Proof.
  unfold BeamSearch.childrenAt. intros -> ->. by rewrite andb_false_r.
Qed.

(** C3.  In one expansion step every candidate that is built for a node has
    placed the node's first piece and is given the array to which that piece
    is then pushed: its remaining pieces are the node's other pieces followed
    by the piece it has just placed.  A node none of whose free rectangles
    takes the piece yields no candidate at all, so nothing carries the piece
    forward. *)
Theorem expandNode_children_retain_piece
    (kerf : Q) (arrays : BeamSearch.Arrays) (newBeam : list BeamSearch.BeamNode)
    (node : BeamSearch.BeamNode) (piece : OptimizationPiece)
    (rest : list OptimizationPiece) :
  arrays !! BeamSearch.Node.pieces node = Some (piece :: rest) ->
  exists arrays' children,
    BeamSearch.expandNode kerf (arrays, newBeam) node
    = (arrays', newBeam ++ children)
    /\ Forall (fun child =>
                 arrays' !! BeamSearch.Node.pieces child = Some (rest ++ [piece])
                 /\ exists placement,
                     BeamSearch.Node.placedPieces child
                     = BeamSearch.Node.placedPieces node ++ [placement]
                     /\ Placed.id placement = Piece.id piece)
              children
    /\ (Forall (fun space =>
                  BeamSearch.canPlacePiece piece space false = false
                  /\ BeamSearch.canPlacePiece piece space true = false)
               (BeamSearch.Node.availableSpaces node) ->
        children = []).
Proof.
  intros Hlook. unfold BeamSearch.expandNode. rewrite Hlook.
  eexists _, _. split; [reflexivity|]. split.
  - apply Forall_forall. intros child Hin.
    apply in_flat_map in Hin as (space & _ & Hin).
    apply childrenAt_pieces in Hin as [-> Hplaced].
    split; [|exact Hplaced].
    rewrite list_lookup_alter_eq, lookup_app_r by lia.
    by rewrite Nat.sub_diag.
  - intros Hnone. induction Hnone as [|space spaces [Hf Ht] _ IH]; [reflexivity|].
    simpl. by rewrite childrenAt_none, IH.
Qed.

Lemma expandNode_children_retain_piece_witness :
  [[Samples.small]] !! 0%nat = Some [Samples.small]
  /\ exists arrays' children,
      BeamSearch.expandNode 0 ([[Samples.small]], [])
        (BeamSearch.Node.mk [] [wholePanel Samples.panel500x300] 0 0)
      = (arrays', children)
      /\ Forall (fun child =>
                   arrays' !! BeamSearch.Node.pieces child = Some [Samples.small])
                children.
Proof.
  split; [reflexivity|].
  destruct (expandNode_children_retain_piece 0 [[Samples.small]] []
              (BeamSearch.Node.mk [] [wholePanel Samples.panel500x300] 0 0)
              Samples.small [] eq_refl)
    as (arrays' & children & Heq & Hall & _).
  exists arrays', children. split; [exact Heq|].
  eapply Forall_impl; [|exact Hall]. by intros child [H _].
Defined.

(** The run on Scenario A: the one piece of the request is returned both as
    placed and as unused. *)
Lemma beam_places_and_reports_unused :
  exists result,
    BeamSearch.execute [Samples.small] [Samples.panel500x300] Samples.settings0
    = Ok result
    /\ map Placed.id (AlgorithmResult.placedPieces result) = ["small"%string]
    /\ AlgorithmResult.unusedPieces result = [Samples.small].
Proof. eexists. repeat split. Qed.

(** Two pieces already exhaust the search: the first placement consumes the
    whole sheet, no candidate survives the second step, and the run raises. *)
Lemma beam_two_pieces_raise :
  BeamSearch.execute [Samples.twoSquares] [Samples.panel500x300] Samples.settings0
  = Throw "No valid solution found".
Proof. reflexivity. Qed.

(** ** A piece that fits in no orientation *)

Lemma tooLarge_beam piece panel rotated :
  tooLarge piece panel ->
  BeamSearch.canPlacePiece piece (wholePanel panel) rotated = false.
Proof.
  intros [H1 H2]. unfold BeamSearch.canPlacePiece, wholePanel. simpl.
  apply andb_false_iff. rewrite !Qleb_gt. by destruct rotated.
Qed.

Lemma sortPiecesByPriority_singleton piece :
  sortPiecesByPriority [piece] = [piece].
Proof. reflexivity. Qed.

(** C9.  Beam search does not return for a request of one piece that fits
    the panel in no orientation: the only candidate is dropped in the first
    step and [runOptimization] throws. *)
Theorem beam_raises_on_oversize_piece
    (piece : OptimizationPiece) (panel : OptimizationPanel)
    (panels : list OptimizationPanel) (settings : OptimizationSettings) :
  Piece.quantity piece = 1%Z ->
  tooLarge piece panel ->
  BeamSearch.execute [piece] (panel :: panels) settings
  = Throw "No valid solution found".
Proof.
  intros Hq Hlarge. unfold BeamSearch.execute.
  rewrite expandPieces_unit, sortPiecesByPriority_singleton by assumption.
  unfold BeamSearch.runOptimization. simpl.
  by rewrite childrenAt_none by (by apply tooLarge_beam).
Qed.

Lemma beam_raises_on_oversize_piece_witness :
  Piece.quantity Samples.huge = 1%Z
  /\ tooLarge Samples.huge Samples.panel500x300
  /\ BeamSearch.execute [Samples.huge] [Samples.panel500x300] Samples.settings0
     = Throw "No valid solution found".
Proof.
  assert (Hlarge : tooLarge Samples.huge Samples.panel500x300).
  { split; left; reflexivity. }
  split; [reflexivity|]. split; [exact Hlarge|].
  exact (beam_raises_on_oversize_piece Samples.huge Samples.panel500x300 []
           Samples.settings0 eq_refl Hlarge).
Defined.

(** First-Fit-Decreasing on the same request returns: the piece is reported
    unused, nothing is placed, and the only sheet is the one the run starts
    with. *)
Lemma firstFit_findBestFit_none piece panel rotated :
  tooLarge piece panel ->
  FirstFitDecreasing.findBestFit piece [wholePanel panel] rotated = None.
Proof.
  intros [H1 H2]. unfold FirstFitDecreasing.findBestFit. simpl.
  unfold FirstFitDecreasing.findBestFitStep. simpl.
  assert (E1 : (Piece.width piece <=? Panel.width panel)
               && (Piece.height piece <=? Panel.height panel) = false).
  { apply andb_false_iff. by rewrite !Qleb_gt. }
  assert (E2 : (Piece.height piece <=? Panel.width panel)
               && (Piece.width piece <=? Panel.height panel) = false).
  { apply andb_false_iff. by rewrite !Qleb_gt. }
  destruct rotated; simpl; rewrite <- ?andb_assoc, ?E1, ?E2; reflexivity.
Qed.

(** X2.  A single piece that fits the panel in no orientation is no error for
    First-Fit-Decreasing: the run returns, places nothing, reports the piece
    unused and counts the one sheet it starts with. *)
Lemma firstFit_reports_oversize_piece
    (piece : OptimizationPiece) (panel : OptimizationPanel)
    (panels : list OptimizationPanel) (settings : OptimizationSettings) :
  Piece.quantity piece = 1%Z ->
  tooLarge piece panel ->
  exists result,
    FirstFitDecreasing.execute [piece] (panel :: panels) settings = Ok result
    /\ AlgorithmResult.placedPieces result = []
    /\ AlgorithmResult.unusedPieces result = [piece]
    /\ AlgorithmResult.sheetCount result = 1%Z.
Proof.
  intros Hq Hlarge. unfold FirstFitDecreasing.execute.
  rewrite expandPieces_unit, sortPiecesByPriority_singleton by assumption.
  eexists. split; [reflexivity|].
  unfold FirstFitDecreasing.runOptimization. simpl.
  unfold FirstFitDecreasing.placePiece. simpl.
  rewrite !firstFit_findBestFit_none by assumption.
  destruct (Piece.rotatable piece); simpl; repeat split.
Qed.

(** ** The managers *)

Lemma manager_resolves_firstFit random :
  mapGet (AlgorithmManager.algorithms random) "first_fit_decreasing"
  = Some firstFit.
Proof. reflexivity. Qed.

Lemma firstFit_execute_returns pieces panel panels settings :
  FirstFitDecreasing.execute pieces (panel :: panels) settings
  = Ok (FirstFitDecreasing.runOptimization
          (sortPiecesByPriority (expandPieces pieces)) panel settings).
Proof. reflexivity. Qed.

(** C2.  [executeWithFallback] of [algorithm-manager.ts] makes no
    compatibility check: with First-Fit-Decreasing as the preferred strategy
    and at least one panel, the strategy is run on the request whatever the
    request asks for, and its result is returned. *)
Theorem executeWithFallback_does_not_validate
    (random : nat -> Q) (request : OptimizationRequest) :
  Request.panels request <> [] ->
  exists panel,
    head (Request.panels request) = Some panel
    /\ AlgorithmManager.executeWithFallback random request
         (Some "first_fit_decreasing"%string)
       = Ok (FirstFitDecreasing.runOptimization
               (sortPiecesByPriority (expandPieces (Request.pieces request)))
               panel (Request.settings request)).
Proof.
  intros Hpanels. destruct (Request.panels request) as [|panel panels] eqn:E;
    [congruence|].
  exists panel. split; [reflexivity|].
  unfold AlgorithmManager.executeWithFallback.
  change (String.eqb "first_fit_decreasing" "") with false. cbv iota.
  rewrite manager_resolves_firstFit. cbn [Algorithm.execute firstFit].
  by rewrite E, firstFit_execute_returns.
Qed.

(** On the request whose only piece must be turned to fit, the manager
    returns the placement First-Fit-Decreasing makes, with the piece rotated;
    [executeAlgorithm] of [index.ts] rejects the same request for the same
    strategy. *)
Lemma executeWithFallback_does_not_validate_witness :
  Request.panels Samples.rotationRequest <> []
  /\ existsb Piece.rotatable (Request.pieces Samples.rotationRequest) = true
  /\ Algorithm.supportsRotation firstFit = false
  /\ (exists result,
         AlgorithmManager.executeWithFallback (fun _ => 0) Samples.rotationRequest
           (Some "first_fit_decreasing"%string) = Ok result
         /\ AlgorithmResult.placedPieces result
            = [Placed.mk "turning" 0 0 400 100 true (Some 0%nat) None])
  /\ AlgorithmIndex.executeAlgorithm (fun _ => 0) "first_fit_decreasing"
       Samples.rotationRequest
     = Throw "Algorithm 'first_fit_decreasing' does not support piece rotation".
Proof.
  assert (Hpanels : Request.panels Samples.rotationRequest <> []) by discriminate.
  split; [exact Hpanels|]. split; [reflexivity|]. split; [reflexivity|]. split.
  - destruct (executeWithFallback_does_not_validate (fun _ => 0)
                Samples.rotationRequest Hpanels) as (panel & Hpanel & Hrun).
    eexists. split; [exact Hrun|].
    injection Hpanel as <-. reflexivity.
  - reflexivity.
Defined.

(** ** Genetic search on Scenario C *)

(** For two squares of 100 on a 150 x 100 panel the genetic search returns,
    whatever the random source, both squares at the origin of sheet 0: they
    overlap.  No random number is drawn on this run, and the result is taken
    from the initial population. *)
Lemma genetic_scenarioC_overlap (random : nat -> Q) :
  exists result p1 p2,
    Genetic.execute random [Samples.twoSquares] [Samples.panel150x100]
                    Samples.settings0 = Ok result
    /\ AlgorithmResult.placedPieces result = [p1; p2]
    /\ Placed.sheetNumber p1 = Placed.sheetNumber p2
    /\ Placed.footprint p1 = Rectangle.mk 0 0 100 100
    /\ Placed.footprint p2 = Rectangle.mk 0 0 100 100
    /\ rectanglesOverlap (Placed.footprint p1) (Placed.footprint p2) = true.
Proof. eexists _, _, _. vm_compute. repeat split. Qed.

(** On the same request the genetic search reports a used area of 20000 on
    a total area of 15000, and an efficiency of 4/3. *)
Lemma genetic_scenarioC_areas (random : nat -> Q) :
  exists result,
    Genetic.execute random [Samples.twoSquares] [Samples.panel150x100]
                    Samples.settings0 = Ok result
    /\ AlgorithmResult.usedArea result = 20000
    /\ AlgorithmResult.totalArea result = 15000
    /\ AlgorithmResult.sheetCount result = 2%Z
    /\ AlgorithmResult.efficiency result == 4 # 3.
Proof. eexists. vm_compute. repeat split. Qed.

(** ** Genetic search: the run returns, and reports no unused piece *)

Section GeneticReturns.
Import Genetic.
Variable random : nat -> Q.
Hypothesis random_unit : forall n, 0 <= random n /\ random n < 1.

Lemma returns_ret {A} (a : A) (P : A -> Prop) : P a -> returns (ret a) P.
Proof. intros H w. by exists a, w. Qed.

Lemma returns_bind {A B} (m : M A) (k : A -> M B) (P : A -> Prop) (R : B -> Prop) :
  returns m P -> (forall a, P a -> returns (k a) R) -> returns (bind m k) R.
Proof.
  intros Hm Hk w. destruct (Hm w) as (a & w1 & E & Ha).
  destruct (Hk a Ha w1) as (b & w2 & E2 & Hb).
  exists b, w2. unfold bind. by rewrite E.
Qed.

Lemma returns_weaken {A} (m : M A) (P R : A -> Prop) :
  returns m P -> (forall a, P a -> R a) -> returns m R.
Proof.
  intros Hm HPR w. destruct (Hm w) as (a & w1 & E & Ha). eauto.
Qed.

Lemma returns_mathRandom : returns (mathRandom random) (fun r => 0 <= r /\ r < 1).
Proof. intros w. eexists _, _. split; [reflexivity | apply random_unit]. Qed.

Lemma returns_getObjects : returns getObjects (fun _ => True).
Proof. intros w. by eexists _, _. Qed.

Lemma returns_newObject p : returns (newObject p) (fun _ => True).
Proof. intros w. by eexists _, _. Qed.

Lemma returns_update r f : returns (update r f) (fun _ => True).
Proof. intros w. by eexists _, _. Qed.

Lemma returns_forEach {A} (l : list A) (body : A -> M unit) :
  (forall a, returns (body a) (fun _ => True)) ->
  returns (forEach l body) (fun _ => True).
Proof.
  intros Hbody. induction l as [|a l IH]; simpl.
  - by apply returns_ret.
  - eapply returns_bind; [apply Hbody|]. intros _ _. exact IH.
Qed.

Lemma returns_foldM {A B} (f : A -> B -> M A) (l : list B) (a : A) :
  (forall a b, returns (f a b) (fun _ => True)) ->
  returns (foldM f l a) (fun _ => True).
Proof.
  intros Hf. revert a. induction l as [|b l IH]; intros a; simpl.
  - by apply returns_ret.
  - eapply returns_bind; [apply Hf|]. intros a' _. apply IH.
Qed.

Lemma returns_tryPlacePiece piece space rotated settings placements spaces i :
  returns (tryPlacePiece piece space rotated settings placements spaces i)
          (fun _ => True).
Proof.
  unfold tryPlacePiece.
  destruct (_ && _).
  - eapply returns_bind; [apply returns_newObject|].
    intros loc _. by apply returns_ret.
  - by apply returns_ret.
Qed.

Lemma returns_scanSpaces piece settings placements spaces i rest :
  returns (scanSpaces random piece settings placements spaces i rest)
          (fun _ => True).
Proof.
  revert i. induction rest as [|space rest IH]; intros i; simpl.
  - by apply returns_ret.
  - eapply returns_bind with (P := fun _ => True).
    + destruct (Piece.rotatable piece).
      * eapply returns_bind; [apply returns_mathRandom|].
        intros r _. by apply returns_ret.
      * by apply returns_ret.
    + intros rotated _.
      eapply returns_bind; [apply returns_tryPlacePiece|].
      intros [[placed placements'] spaces'] _.
      destruct placed; [by apply returns_ret | apply IH].
Qed.

Lemma returns_createRandomPlacement pieces panel settings :
  returns (createRandomPlacement random pieces panel settings) (fun _ => True).
Proof.
  unfold createRandomPlacement.
  eapply returns_bind; [|intros st _; by apply returns_ret].
  apply returns_foldM. intros [placements spaces] piece. unfold placeRandomly.
  eapply returns_bind; [apply returns_scanSpaces|].
  intros [[placed placements'] spaces'] _.
  destruct placed; [by apply returns_ret|].
  eapply returns_bind; [apply returns_tryPlacePiece|].
  intros [[placed' placements''] spaces''] _. by apply returns_ret.
Qed.

Lemma returns_initializePopulationFrom n pieces panel settings population :
  returns (initializePopulationFrom random n pieces panel settings population)
          (fun p => length p = (length population + n)%nat).
Proof.
  revert population. induction n as [|n IH]; intros population; simpl.
  - apply returns_ret. lia.
  - eapply returns_bind; [apply returns_createRandomPlacement|].
    intros placements _.
    eapply returns_bind; [apply returns_getObjects|].
    intros objects _.
    eapply returns_weaken; [apply IH|].
    intros p Hp. rewrite Hp, length_app. simpl. lia.
Qed.

(** [Math.floor(Math.random() * length)] is an index of a non-empty array. *)
Lemma random_index {A} (l : list A) (r : Q) :
  l <> [] -> 0 <= r -> r < 1 ->
  is_Some (at_ l (Qfloor (r * inject_Z (Z.of_nat (length l))))).
Proof.
  intros Hl H0 H1. unfold at_.
  set (len := inject_Z (Z.of_nat (length l))).
  assert (Hlen : 0 < len).
  { unfold len. change 0 with (inject_Z 0). rewrite <- Zlt_Qlt.
    destruct l; [congruence | simpl; lia]. }
  assert (Hlo : (0 <= Qfloor (r * len))%Z).
  { change 0%Z with (Qfloor 0). apply Qfloor_resp_le. nra. }
  assert (Hhi : (Qfloor (r * len) < Z.of_nat (length l))%Z).
  { rewrite Zlt_Qlt. fold len.
    eapply Qle_lt_trans; [apply Qfloor_le|]. nra. }
  destruct (Z.ltb_spec (Qfloor (r * len)) 0); [lia|].
  apply lookup_lt_is_Some. lia.
Qed.

Lemma at_In {A} (l : list A) (z : Z) (a : A) : at_ l z = Some a -> In a l.
Proof.
  unfold at_. destruct (z <? 0)%Z; [discriminate|].
  intros H. apply list_elem_of_In. eapply list_elem_of_lookup_2, H.
Qed.

Lemma returns_tournament population n best :
  population <> [] ->
  returns (tournament random population n best)
          (fun b => (is_Some best \/ (0 < n)%nat -> is_Some b)
                    /\ (forall x, b = Some x -> best = Some x \/ In x population)).
Proof.
  intros Hpop. revert best. induction n as [|n IH]; intros best; cbn [tournament].
  - apply returns_ret. split; [|by left]. intros [H | H]; [exact H | lia].
  - eapply returns_bind; [apply returns_mathRandom|].
    intros r [H0 H1].
    destruct (random_index population r Hpop H0 H1) as [c Hc]. rewrite Hc.
    apply at_In in Hc.
    eapply returns_weaken; [apply IH|].
    intros b [Hsome Hin]. split.
    + intros _. apply Hsome. left.
      destruct best as [b0|]; [|by eexists].
      destruct (fitness b0 <? fitness c); by eexists.
    + intros x Hx. destruct (Hin x Hx) as [Hbest | Hpopx]; [|by right].
      destruct best as [b0|]; [|right; congruence].
      destruct (fitness b0 <? fitness c); [right; congruence | by left].
Qed.

Lemma returns_selectParent population :
  population <> [] ->
  returns (selectParent random population) (fun b => In b population).
Proof.
  intros Hpop. unfold selectParent.
  eapply returns_bind; [by apply returns_tournament|].
  intros best [Hbest Hin]. destruct Hbest as [b ->]; [right; lia|].
  apply returns_ret. destruct (Hin b eq_refl) as [H | H]; [discriminate | exact H].
Qed.

Lemma returns_crossover parent1 parent2 panel :
  returns (crossover random parent1 parent2 panel) (fun _ => True).
Proof.
  unfold crossover.
  eapply returns_bind; [apply returns_mathRandom|]. intros r _.
  eapply returns_bind; [apply returns_getObjects|]. intros objects _.
  by apply returns_ret.
Qed.

Lemma returns_mutate individual panel :
  returns (mutate random individual panel) (fun _ => True).
Proof.
  unfold mutate.
  eapply returns_bind with (P := fun _ => True).
  { destruct (_ <? _)%nat; [|by apply returns_ret].
    eapply returns_bind; [apply returns_mathRandom|]. intros r _.
    destruct (r <? 0.3); [|by apply returns_ret].
    eapply returns_bind; [apply returns_mathRandom|]. intros ri _.
    eapply returns_bind; [apply returns_mathRandom|]. intros rj _.
    by apply returns_ret. }
  intros placements1 _.
  eapply returns_bind with (P := fun _ => True).
  { apply returns_forEach. intros piece.
    eapply returns_bind; [apply returns_mathRandom|]. intros r _.
    destruct (r <? 0.1); [apply returns_update | by apply returns_ret]. }
  intros _ _.
  eapply returns_bind with (P := fun _ => True).
  { apply returns_forEach. intros piece.
    eapply returns_bind; [apply returns_mathRandom|]. intros r _.
    destruct (r <? 0.05); [|by apply returns_ret].
    eapply returns_bind; [apply returns_mathRandom|]. intros rx _.
    eapply returns_bind; [apply returns_update|]. intros _ _.
    eapply returns_bind; [apply returns_mathRandom|]. intros ry _.
    apply returns_update. }
  intros _ _.
  eapply returns_bind; [apply returns_getObjects|]. intros objects _.
  by apply returns_ret.
Qed.

Lemma returns_breed population panel n newPopulation :
  population <> [] ->
  returns (breed random population panel n newPopulation)
          (fun p => length p = (length newPopulation + n)%nat).
Proof.
  intros Hpop. revert newPopulation.
  induction n as [|n IH]; intros newPopulation; simpl.
  - apply returns_ret. lia.
  - eapply returns_bind; [by apply returns_selectParent|]. intros parent1 _.
    eapply returns_bind; [by apply returns_selectParent|]. intros parent2 _.
    eapply returns_bind; [apply returns_crossover|]. intros child _.
    eapply returns_bind; [apply returns_mutate|]. intros child' _.
    eapply returns_weaken; [apply IH|].
    intros p Hp. rewrite Hp, length_app. simpl. lia.
Qed.

Lemma returns_evolvePopulation population panel :
  population <> [] ->
  returns (evolvePopulation random population panel)
          (fun p => length p = length population).
Proof.
  intros Hpop. unfold evolvePopulation.
  destruct population as [|first others]; [congruence|].
  eapply returns_weaken; [by apply returns_breed|].
  intros p Hp. rewrite Hp. simpl. lia.
Qed.

Lemma returns_evolve panel remaining population :
  population <> [] ->
  returns (evolve random panel remaining population) (fun p => p <> []).
Proof.
  revert population. induction remaining as [|remaining IH];
    intros population Hpop; simpl.
  - by apply returns_ret.
  - eapply returns_bind; [apply returns_getObjects|]. intros objects _.
    match goal with
    | |- context [arraySort compareFitness ?l] =>
        set (sorted := arraySort compareFitness l);
        assert (Hsorted : sorted <> [])
    end.
    { intros E. apply arraySort_nil_inv, map_eq_nil in E. congruence. }
    destruct sorted as [|bestIndividual others] eqn:Es; [congruence|].
    destruct (0.95 <? efficiency bestIndividual).
    + by apply returns_ret.
    + eapply returns_bind; [by apply returns_evolvePopulation|].
      intros population' Hlen. apply IH.
      intros ->. simpl in Hlen. lia.
Qed.

Lemma returns_runOptimization pieces panel panels settings :
  returns (runOptimization random pieces (panel :: panels) settings)
          (fun result => AlgorithmResult.unusedPieces result = []).
Proof.
  unfold runOptimization.
  eapply returns_bind; [apply returns_initializePopulationFrom|].
  intros population0 Hlen.
  eapply returns_bind.
  { apply returns_evolve. intros ->. simpl in Hlen. unfold populationSize in Hlen.
    lia. }
  intros [|bestSolution others] Hne; [congruence|].
  eapply returns_bind; [apply returns_getObjects|]. intros objects _.
  by apply returns_ret.
Qed.

(** *** Requests none of whose pieces fits the panel *)

Lemma returns_conj {A} (m : M A) (P R : A -> Prop) :
  returns m P -> returns m R -> returns m (fun a => P a /\ R a).
Proof.
  intros HP HR w. destruct (HP w) as (a & w1 & E & Ha).
  destruct (HR w) as (a' & w1' & E' & Ha').
  rewrite E in E'. injection E' as <- <-. by exists a, w1.
Qed.

Section Oversize.
Variable panel : OptimizationPanel.
Variable settings : OptimizationSettings.

Lemma tryPlacePiece_tooLarge piece rotated placements spaces i :
  tooLarge piece panel ->
  tryPlacePiece piece (wholePanel panel) rotated settings placements spaces i
  = ret (false, placements, spaces).
Proof.
  intros [H1 H2]. unfold tryPlacePiece, wholePanel. cbn [Rectangle.height Rectangle.width].
  match goal with |- (if ?c then _ else _) = _ => assert (E : c = false) end.
  { apply andb_false_iff. rewrite !Qleb_gt. destruct rotated; tauto. }
  by rewrite E.
Qed.

Lemma scanSpaces_tooLarge piece placements :
  tooLarge piece panel ->
  returns (scanSpaces random piece settings placements [wholePanel panel] 0
                      [wholePanel panel])
          (fun r => r = (false, placements, [wholePanel panel])).
Proof.
  intros Hlarge. cbn [scanSpaces].
  eapply returns_bind with (P := fun _ => True).
  - destruct (Piece.rotatable piece).
    + eapply returns_bind; [apply returns_mathRandom|].
      intros r _. by apply returns_ret.
    + by apply returns_ret.
  - intros rotated _. rewrite tryPlacePiece_tooLarge by assumption.
    intros w. by eexists _, _.
Qed.

Lemma placeRandomly_tooLarge piece placements :
  tooLarge piece panel ->
  returns (placeRandomly random panel settings
                         (placements, [wholePanel panel]) piece)
          (fun st => st = (placements, [wholePanel panel])).
Proof.
  intros Hlarge. unfold placeRandomly.
  eapply returns_bind; [by apply scanSpaces_tooLarge|].
  intros r ->.
  change (Rectangle.mk 0 0 (Panel.width panel) (Panel.height panel))
    with (wholePanel panel).
  rewrite tryPlacePiece_tooLarge by assumption.
  intros w. by eexists _, _.
Qed.

Lemma createRandomPlacement_tooLarge pieces :
  Forall (fun piece => tooLarge piece panel) pieces ->
  returns (createRandomPlacement random pieces panel settings) (fun p => p = []).
Proof.
  intros Hall. unfold createRandomPlacement.
  change (Rectangle.mk 0 0 (Panel.width panel) (Panel.height panel))
    with (wholePanel panel).
  eapply returns_bind
    with (P := fun st => st = ([] : list nat, [wholePanel panel])).
  - induction Hall as [|piece pieces Hlarge _ IH]; cbn [foldM].
    + by apply returns_ret.
    + eapply returns_bind; [by apply placeRandomly_tooLarge|].
      intros st ->. exact IH.
  - intros st ->. by apply returns_ret.
Qed.

Lemma initializePopulationFrom_tooLarge n pieces population :
  Forall (fun piece => tooLarge piece panel) pieces ->
  Forall (fun individual => individual = emptyIndividual) population ->
  returns (initializePopulationFrom random n pieces panel settings population)
          (Forall (fun individual => individual = emptyIndividual)).
Proof.
  intros Hall. revert population.
  induction n as [|n IH]; intros population Hpop; cbn [initializePopulationFrom].
  - by apply returns_ret.
  - eapply returns_bind; [by apply createRandomPlacement_tooLarge|].
    intros placements ->.
    eapply returns_bind; [apply returns_getObjects|].
    intros objects _. apply IH.
    apply Forall_app. split; [exact Hpop|]. by constructor.
Qed.

Lemma crossover_empty parent1 parent2 :
  parent1 = emptyIndividual -> parent2 = emptyIndividual ->
  returns (crossover random parent1 parent2 panel)
          (fun child => child = emptyIndividual).
Proof.
  intros -> ->. unfold crossover.
  eapply returns_bind; [apply returns_mathRandom|]. intros r _.
  eapply returns_bind; [apply returns_getObjects|]. intros objects _.
  apply returns_ret. unfold sliceTo, sliceFrom. simpl.
  by rewrite take_nil, drop_nil.
Qed.

Lemma mutate_empty :
  returns (mutate random emptyIndividual panel)
          (fun child => child = emptyIndividual).
Proof.
  unfold mutate. simpl.
  intros w. by eexists _, _.
Qed.

Lemma breed_empty population n newPopulation :
  population <> [] ->
  Forall (fun individual => individual = emptyIndividual) population ->
  Forall (fun individual => individual = emptyIndividual) newPopulation ->
  returns (breed random population panel n newPopulation)
          (Forall (fun individual => individual = emptyIndividual)).
Proof.
  intros Hne Hpop. revert newPopulation.
  induction n as [|n IH]; intros newPopulation Hnew; cbn [breed].
  - by apply returns_ret.
  - rewrite Forall_forall in Hpop.
    eapply returns_bind; [by apply returns_selectParent|]. intros parent1 H1.
    eapply returns_bind; [by apply returns_selectParent|]. intros parent2 H2.
    eapply returns_bind; [apply crossover_empty; by apply Hpop|].
    intros child ->.
    eapply returns_bind; [apply mutate_empty|]. intros child' ->.
    apply IH. apply Forall_app. split; [exact Hnew|]. by constructor.
Qed.

Lemma fittest_empty (first : GeneticIndividual) others :
  first = emptyIndividual ->
  Forall (fun individual => individual = emptyIndividual) others ->
  fold_left (fun best current =>
               if fitness best <? fitness current then current else best)
            others first
  = emptyIndividual.
Proof.
  intros -> Hothers. induction Hothers as [|current others -> _ IH];
    [reflexivity | exact IH].
Qed.

Lemma evolvePopulation_empty population :
  population <> [] ->
  Forall (fun individual => individual = emptyIndividual) population ->
  returns (evolvePopulation random population panel)
          (Forall (fun individual => individual = emptyIndividual)).
Proof.
  intros Hne Hpop. unfold evolvePopulation.
  destruct population as [|first others]; [congruence|].
  apply breed_empty; try assumption.
  constructor; [|constructor].
  inversion Hpop; subst. by apply fittest_empty.
Qed.

Lemma evolve_empty remaining population :
  population <> [] ->
  Forall (fun individual => individual = emptyIndividual) population ->
  returns (evolve random panel remaining population)
          (Forall (fun individual => individual = emptyIndividual)).
Proof.
  revert population. induction remaining as [|remaining IH];
    intros population Hne Hpop; cbn [evolve].
  - by apply returns_ret.
  - eapply returns_bind; [apply returns_getObjects|]. intros objects _.
    match goal with
    | |- context [arraySort compareFitness ?l] =>
        set (evaluated := l);
        assert (Hev : Forall (fun individual => individual = emptyIndividual)
                             evaluated)
    end.
    { unfold evaluated. apply Forall_map.
      eapply Forall_impl; [|exact Hpop]. by intros individual ->. }
    assert (Hsorted : Forall (fun individual => individual = emptyIndividual)
                             (arraySort compareFitness evaluated)).
    { eapply Permutation_Forall; [apply arraySort_Permutation | exact Hev]. }
    assert (Hsne : arraySort compareFitness evaluated <> []).
    { intros E. apply arraySort_nil_inv, map_eq_nil in E. congruence. }
    destruct (arraySort compareFitness evaluated)
      as [|bestIndividual others] eqn:Es; [congruence|].
    inversion Hsorted as [|? ? Hbest Hothers]; subst.
    change (0.95 <? efficiency emptyIndividual) with false. cbv iota.
    eapply returns_bind.
    { apply returns_conj;
        [by apply returns_evolvePopulation | by apply evolvePopulation_empty]. }
    intros population' [Hlen Hpop']. apply IH; [|exact Hpop'].
    intros ->. simpl in Hlen. lia.
Qed.

End Oversize.

Lemma tooLarge_preprocessed pieces panel :
  Forall (fun piece => tooLarge piece panel) pieces ->
  Forall (fun piece => tooLarge piece panel)
         (sortPiecesByPriority (expandPieces pieces)).
Proof.
  intros Hall. unfold sortPiecesByPriority.
  eapply Permutation_Forall; [apply arraySort_Permutation|].
  apply Forall_forall. intros unit Hin.
  apply expandPieces_In in Hin as (piece & Hin & ->).
  rewrite Forall_forall in Hall. exact (Hall piece Hin).
Qed.

Lemma runOptimization_tooLarge pieces panel panels settings :
  Forall (fun piece => tooLarge piece panel) pieces ->
  returns (runOptimization random pieces (panel :: panels) settings)
          (fun result => AlgorithmResult.placedPieces result = []).
Proof.
  intros Hall. unfold runOptimization.
  eapply returns_bind.
  { apply returns_conj.
    - apply returns_initializePopulationFrom.
    - apply initializePopulationFrom_tooLarge;
        [by apply tooLarge_preprocessed | constructor]. }
  intros population0 [Hlen Hempty].
  assert (Hne : population0 <> []).
  { intros ->. simpl in Hlen. unfold populationSize in Hlen. lia. }
  eapply returns_bind.
  { apply returns_conj; [by apply returns_evolve | by apply evolve_empty]. }
  intros [|bestSolution others] [Hne' Hempty']; [congruence|].
  inversion Hempty'; subst.
  eapply returns_bind; [apply returns_getObjects|]. intros objects _.
  by apply returns_ret.
Qed.

(** *** Every placement is stamped with sheet number 0 *)

Lemma keeps_ret {A} I (a : A) : keeps I (ret a).
Proof. intros w a' w' Hw [= _ <-]. exact Hw. Qed.

Lemma keeps_throw {A} I message : keeps I (throw message : M A).
Proof. intros w a w' _ H. discriminate H. Qed.

Lemma keeps_bind {A B} I (m : M A) (k : A -> M B) :
  keeps I m -> (forall a, keeps I (k a)) -> keeps I (bind m k).
Proof.
  intros Hm Hk w b w' Hw. unfold bind.
  destruct (m w) as [[a w1]|] eqn:E; [|discriminate].
  intros Hrun. eapply Hk; [|exact Hrun]. eapply Hm; eassumption.
Qed.

Lemma keeps_mathRandom : keeps allOnSheet0 (mathRandom random).
Proof. intros w a w' Hw [= _ <-]. exact Hw. Qed.

Lemma keeps_getObjects : keeps allOnSheet0 getObjects.
Proof. intros w a w' Hw [= _ <-]. exact Hw. Qed.

Lemma keeps_newObject p :
  Placed.sheetNumber p = Some 0%nat -> keeps allOnSheet0 (newObject p).
Proof.
  intros Hp w a w' Hw [= _ <-]. unfold allOnSheet0. simpl.
  apply Forall_app. split; [exact Hw | by constructor].
Qed.

Lemma keeps_update r f :
  (forall p, Placed.sheetNumber (f p) = Placed.sheetNumber p) ->
  keeps allOnSheet0 (update r f).
Proof.
  intros Hf w a w' Hw [= _ <-]. unfold allOnSheet0. simpl.
  apply Forall_alter; [exact Hw|]. intros p _ Hp. by rewrite Hf.
Qed.

Lemma keeps_forEach {A} I (l : list A) (body : A -> M unit) :
  (forall a, keeps I (body a)) -> keeps I (forEach l body).
Proof.
  intros Hbody. induction l as [|a l IH]; cbn [forEach].
  - apply keeps_ret.
  - apply keeps_bind; [apply Hbody | intros _; exact IH].
Qed.

Lemma keeps_foldM {A B} I (f : A -> B -> M A) (l : list B) (a : A) :
  (forall a b, keeps I (f a b)) -> keeps I (foldM f l a).
Proof.
  intros Hf. revert a. induction l as [|b l IH]; intros a; cbn [foldM].
  - apply keeps_ret.
  - apply keeps_bind; [apply Hf | intros a'; apply IH].
Qed.

Lemma keeps_tryPlacePiece piece space rotated settings placements spaces i :
  keeps allOnSheet0
        (tryPlacePiece piece space rotated settings placements spaces i).
Proof.
  unfold tryPlacePiece. destruct (_ && _); [|apply keeps_ret].
  apply keeps_bind; [by apply keeps_newObject | intros loc; apply keeps_ret].
Qed.

Lemma keeps_scanSpaces piece settings placements spaces i rest :
  keeps allOnSheet0 (scanSpaces random piece settings placements spaces i rest).
Proof.
  revert i. induction rest as [|space rest IH]; intros i; cbn [scanSpaces].
  - apply keeps_ret.
  - apply keeps_bind.
    + destruct (Piece.rotatable piece); [|apply keeps_ret].
      apply keeps_bind; [apply keeps_mathRandom | intros r; apply keeps_ret].
    + intros rotated. apply keeps_bind; [apply keeps_tryPlacePiece|].
      intros [[placed placements'] spaces'].
      destruct placed; [apply keeps_ret | apply IH].
Qed.

Lemma keeps_createRandomPlacement pieces panel settings :
  keeps allOnSheet0 (createRandomPlacement random pieces panel settings).
Proof.
  unfold createRandomPlacement.
  apply keeps_bind; [|intros st; apply keeps_ret].
  apply keeps_foldM. intros [placements spaces] piece. unfold placeRandomly.
  apply keeps_bind; [apply keeps_scanSpaces|].
  intros [[placed placements'] spaces'].
  destruct placed; [apply keeps_ret|].
  apply keeps_bind; [apply keeps_tryPlacePiece|].
  intros [[placed' placements''] spaces'']. apply keeps_ret.
Qed.

Lemma keeps_initializePopulationFrom n pieces panel settings population :
  keeps allOnSheet0
        (initializePopulationFrom random n pieces panel settings population).
Proof.
  revert population.
  induction n as [|n IH]; intros population; cbn [initializePopulationFrom].
  - apply keeps_ret.
  - apply keeps_bind; [apply keeps_createRandomPlacement|]. intros placements.
    apply keeps_bind; [apply keeps_getObjects|]. intros objects. apply IH.
Qed.

Lemma keeps_selectParent population :
  keeps allOnSheet0 (selectParent random population).
Proof.
  unfold selectParent. apply keeps_bind.
  - generalize (None : option GeneticIndividual). generalize 3%nat.
    intros n. induction n as [|n IH]; intros best; cbn [tournament].
    + apply keeps_ret.
    + apply keeps_bind; [apply keeps_mathRandom | intros r; apply IH].
  - intros [b|]; [apply keeps_ret | apply keeps_throw].
Qed.

Lemma keeps_crossover parent1 parent2 panel :
  keeps allOnSheet0 (crossover random parent1 parent2 panel).
Proof.
  unfold crossover.
  apply keeps_bind; [apply keeps_mathRandom|]. intros r.
  apply keeps_bind; [apply keeps_getObjects|]. intros objects.
  apply keeps_ret.
Qed.

Lemma keeps_mutate individual panel :
  keeps allOnSheet0 (mutate random individual panel).
Proof.
  unfold mutate. apply keeps_bind.
  { destruct (_ <? _)%nat; [|apply keeps_ret].
    apply keeps_bind; [apply keeps_mathRandom|]. intros r.
    destruct (r <? 0.3); [|apply keeps_ret].
    apply keeps_bind; [apply keeps_mathRandom|]. intros ri.
    apply keeps_bind; [apply keeps_mathRandom|]. intros rj.
    apply keeps_ret. }
  intros placements1. apply keeps_bind.
  { apply keeps_forEach. intros piece.
    apply keeps_bind; [apply keeps_mathRandom|]. intros r.
    destruct (r <? 0.1); [by apply keeps_update | apply keeps_ret]. }
  intros _. apply keeps_bind.
  { apply keeps_forEach. intros piece.
    apply keeps_bind; [apply keeps_mathRandom|]. intros r.
    destruct (r <? 0.05); [|apply keeps_ret].
    apply keeps_bind; [apply keeps_mathRandom|]. intros rx.
    apply keeps_bind; [by apply keeps_update|]. intros _.
    apply keeps_bind; [apply keeps_mathRandom|]. intros ry.
    by apply keeps_update. }
  intros _. apply keeps_bind; [apply keeps_getObjects|]. intros objects.
  apply keeps_ret.
Qed.

Lemma keeps_breed population panel n newPopulation :
  keeps allOnSheet0 (breed random population panel n newPopulation).
Proof.
  revert newPopulation. induction n as [|n IH]; intros newPopulation;
    cbn [breed].
  - apply keeps_ret.
  - apply keeps_bind; [apply keeps_selectParent|]. intros parent1.
    apply keeps_bind; [apply keeps_selectParent|]. intros parent2.
    apply keeps_bind; [apply keeps_crossover|]. intros child.
    apply keeps_bind; [apply keeps_mutate|]. intros child'. apply IH.
Qed.

Lemma keeps_evolve panel remaining population :
  keeps allOnSheet0 (evolve random panel remaining population).
Proof.
  revert population. induction remaining as [|remaining IH]; intros population;
    cbn [evolve].
  - apply keeps_ret.
  - apply keeps_bind; [apply keeps_getObjects|]. intros objects.
    match goal with |- keeps _ (if ?c then _ else _) => destruct c end;
      [apply keeps_ret|].
    apply keeps_bind; [|intros population'; apply IH].
    unfold evolvePopulation.
    destruct (arraySort _ _); [apply keeps_throw | apply keeps_breed].
Qed.

Lemma deref_Forall (P : PlacedPiece -> Prop) objects refs :
  Forall P objects -> Forall P (deref objects refs).
Proof.
  intros Hall. unfold deref. induction refs as [|r refs IH]; [constructor|].
  cbn [omap list_omap]. destruct (objects !! r) as [p|] eqn:E; [|exact IH].
  constructor; [|exact IH].
  rewrite Forall_forall in Hall. apply Hall, list_elem_of_In.
  eapply list_elem_of_lookup_2, E.
Qed.

Lemma runOptimization_sheet0 pieces panels settings w result w' :
  allOnSheet0 w ->
  runOptimization random pieces panels settings w = Ok (result, w') ->
  Forall (fun p => Placed.sheetNumber p = Some 0%nat)
         (AlgorithmResult.placedPieces result).
Proof.
  intros Hw. unfold runOptimization.
  destruct panels as [|panel panels]; [discriminate|].
  unfold bind at 1.
  destruct (initializePopulation _ _ _ _ w) as [[population0 w0]|] eqn:E0;
    [|discriminate].
  assert (Hw0 : allOnSheet0 w0)
    by (eapply keeps_initializePopulationFrom; eassumption).
  unfold bind at 1.
  destruct (evolve _ _ _ _ w0) as [[population w1]|] eqn:E1; [|discriminate].
  assert (Hw1 : allOnSheet0 w1) by (eapply keeps_evolve; eassumption).
  destruct population as [|bestSolution others]; [discriminate|].
  cbn [bind getObjects ret]. intros [= <- _].
  cbn [AlgorithmResult.placedPieces]. by apply deref_Forall.
Qed.

(** *** The sheet count is derived from the efficiency *)

Lemma evaluateIndividual_sheets objects placements panel :
  sheetsFromEfficiency (evaluateIndividual objects placements panel).
Proof. by destruct placements. Qed.

Lemma initializePopulationFrom_sheets n pieces panel settings population :
  Forall sheetsFromEfficiency population ->
  returns (initializePopulationFrom random n pieces panel settings population)
          (Forall sheetsFromEfficiency).
Proof.
  revert population.
  induction n as [|n IH]; intros population Hpop; cbn [initializePopulationFrom].
  - by apply returns_ret.
  - eapply returns_bind; [apply returns_createRandomPlacement|].
    intros placements _.
    eapply returns_bind; [apply returns_getObjects|].
    intros objects _. apply IH.
    apply Forall_app. split; [exact Hpop|].
    constructor; [apply evaluateIndividual_sheets | constructor].
Qed.

Lemma crossover_sheets parent1 parent2 panel :
  returns (crossover random parent1 parent2 panel) sheetsFromEfficiency.
Proof.
  unfold crossover.
  eapply returns_bind; [apply returns_mathRandom|]. intros r _.
  eapply returns_bind; [apply returns_getObjects|]. intros objects _.
  apply returns_ret, evaluateIndividual_sheets.
Qed.

Lemma mutate_sheets individual panel :
  returns (mutate random individual panel) sheetsFromEfficiency.
Proof.
  pose proof (returns_mutate individual panel) as Hreturns.
  intros w. destruct (Hreturns w) as (child & w' & Hrun & _).
  exists child, w'. split; [exact Hrun|].
  revert Hrun. unfold mutate, bind.
  destruct (_ w) as [[placements1 w1]|]; [|discriminate].
  destruct (forEach placements1 _ w1) as [[[] w2]|]; [|discriminate].
  destruct (forEach placements1 _ w2) as [[[] w3]|]; [|discriminate].
  cbn [getObjects ret]. intros [= <- _].
  unfold sheetsFromEfficiency. cbn [sheetCount efficiency].
  apply evaluateIndividual_sheets.
Qed.

Lemma breed_sheets population panel n newPopulation :
  population <> [] ->
  Forall sheetsFromEfficiency newPopulation ->
  returns (breed random population panel n newPopulation)
          (Forall sheetsFromEfficiency).
Proof.
  intros Hne. revert newPopulation.
  induction n as [|n IH]; intros newPopulation Hnew; cbn [breed].
  - by apply returns_ret.
  - eapply returns_bind; [by apply returns_selectParent|]. intros parent1 _.
    eapply returns_bind; [by apply returns_selectParent|]. intros parent2 _.
    eapply returns_bind; [apply crossover_sheets|]. intros child _.
    eapply returns_bind; [apply mutate_sheets|]. intros child' Hchild.
    apply IH. apply Forall_app. split; [exact Hnew|]. by constructor.
Qed.

Lemma fittest_In (first : GeneticIndividual) others :
  In (fold_left (fun best current =>
                   if fitness best <? fitness current then current else best)
                others first)
     (first :: others).
Proof.
  revert first. induction others as [|current others IH]; intros first;
    [by left|].
  cbn [fold_left].
  destruct (fitness first <? fitness current).
  - right. apply IH.
  - destruct (IH first) as [H | H]; [by left | by right; right].
Qed.

Lemma evolvePopulation_sheets population panel :
  population <> [] ->
  Forall sheetsFromEfficiency population ->
  returns (evolvePopulation random population panel)
          (Forall sheetsFromEfficiency).
Proof.
  intros Hne Hpop. unfold evolvePopulation.
  destruct population as [|first others]; [congruence|].
  apply breed_sheets; [exact Hne|].
  constructor; [|constructor].
  rewrite Forall_forall in Hpop. apply Hpop, fittest_In.
Qed.

Lemma evolve_sheets panel remaining population :
  population <> [] ->
  Forall sheetsFromEfficiency population ->
  returns (evolve random panel remaining population)
          (Forall sheetsFromEfficiency).
Proof.
  revert population. induction remaining as [|remaining IH];
    intros population Hne Hpop; cbn [evolve].
  - by apply returns_ret.
  - eapply returns_bind; [apply returns_getObjects|]. intros objects _.
    match goal with
    | |- context [arraySort compareFitness ?l] =>
        set (evaluated := l);
        assert (Hev : Forall sheetsFromEfficiency evaluated)
    end.
    { unfold evaluated. apply Forall_map.
      eapply Forall_impl; [|exact Hpop]. by intros individual H. }
    assert (Hsorted : Forall sheetsFromEfficiency
                             (arraySort compareFitness evaluated)).
    { eapply Permutation_Forall; [apply arraySort_Permutation | exact Hev]. }
    assert (Hsne : arraySort compareFitness evaluated <> []).
    { intros E. apply arraySort_nil_inv, map_eq_nil in E. congruence. }
    destruct (arraySort compareFitness evaluated)
      as [|bestIndividual others] eqn:Es; [congruence|].
    destruct (0.95 <? efficiency bestIndividual); [by apply returns_ret|].
    eapply returns_bind.
    { apply returns_conj;
        [by apply returns_evolvePopulation | by apply evolvePopulation_sheets]. }
    intros population' [Hlen Hpop']. apply IH; [|exact Hpop'].
    intros ->. simpl in Hlen. lia.
Qed.

Lemma runOptimization_sheets pieces panel panels settings :
  returns (runOptimization random pieces (panel :: panels) settings)
          (fun result =>
             AlgorithmResult.sheetCount result
             = Qceiling (AlgorithmResult.efficiency result)).
Proof.
  unfold runOptimization.
  eapply returns_bind.
  { apply returns_conj.
    - apply returns_initializePopulationFrom.
    - apply initializePopulationFrom_sheets. constructor. }
  intros population0 [Hlen Hsheets].
  assert (Hne : population0 <> []).
  { intros ->. simpl in Hlen. unfold populationSize in Hlen. lia. }
  eapply returns_bind.
  { apply returns_conj; [by apply returns_evolve | by apply evolve_sheets]. }
  intros [|bestSolution others] [Hne' Hsheets']; [congruence|].
  inversion Hsheets' as [|? ? Hbest _]; subst.
  eapply returns_bind; [apply returns_getObjects|]. intros objects _.
  by apply returns_ret.
Qed.

End GeneticReturns.

(** C10.  With a random source that stays in [0, 1) and a panel, the genetic
    search returns a result, and the result lists no unused piece; when no
    piece of the request fits the panel in any orientation the result lists
    no placed piece either: such pieces are absent from the result. *)
Theorem genetic_reports_no_unused_pieces
    (random : nat -> Q) (pieces : list OptimizationPiece)
    (panel : OptimizationPanel) (panels : list OptimizationPanel)
    (settings : OptimizationSettings) :
  (forall n, 0 <= random n /\ random n < 1) ->
  exists result,
    Genetic.execute random pieces (panel :: panels) settings = Ok result
    /\ AlgorithmResult.unusedPieces result = []
    /\ (Forall (fun piece => tooLarge piece panel) pieces ->
        AlgorithmResult.placedPieces result = []).
Proof.
  intros Hrandom. unfold Genetic.execute.
  destruct (returns_runOptimization random Hrandom pieces panel panels settings
              (Genetic.mkWorld 0 []))
    as (result & w & Hrun & Hunused).
  exists result. rewrite Hrun. split; [reflexivity|]. split; [exact Hunused|].
  intros Hall.
  destruct (runOptimization_tooLarge random Hrandom pieces panel panels settings
              Hall (Genetic.mkWorld 0 []))
    as (result' & w' & Hrun' & Hplaced).
  rewrite Hrun in Hrun'. by injection Hrun' as <- <-.
Qed.

Lemma genetic_reports_no_unused_pieces_witness :
  (forall n : nat, 0 <= (fun _ : nat => 0) n /\ (fun _ : nat => 0) n < 1)
  /\ Forall (fun piece => tooLarge piece Samples.panel500x300) [Samples.huge]
  /\ exists result,
      Genetic.execute (fun _ => 0) [Samples.huge] [Samples.panel500x300]
                      Samples.settings0 = Ok result
      /\ AlgorithmResult.unusedPieces result = []
      /\ AlgorithmResult.placedPieces result = [].
Proof.
  assert (Hrandom : forall n : nat,
             0 <= (fun _ : nat => 0) n /\ (fun _ : nat => 0) n < 1).
  { intros _. split; [apply Qle_refl | reflexivity]. }
  assert (Hlarge : Forall (fun piece => tooLarge piece Samples.panel500x300)
                          [Samples.huge]).
  { constructor; [|constructor]. split; left; reflexivity. }
  split; [exact Hrandom|]. split; [exact Hlarge|].
  destruct (genetic_reports_no_unused_pieces (fun _ => 0) [Samples.huge]
              Samples.panel500x300 [] Samples.settings0 Hrandom)
    as (result & Hrun & Hunused & Hplaced).
  exists result. split; [exact Hrun|]. split; [exact Hunused|].
  exact (Hplaced Hlarge).
Defined.

(** Whatever the random source does, a result of the genetic search has an
    empty [unusedPieces]. *)
Lemma genetic_unused_always_empty random pieces panels settings result :
  Genetic.execute random pieces panels settings = Ok result ->
  AlgorithmResult.unusedPieces result = [].
Proof.
  unfold Genetic.execute, Genetic.runOptimization.
  destruct panels as [|panel panels]; [discriminate|].
  unfold Genetic.bind.
  destruct (Genetic.initializePopulation _ _ _ _ _) as [[population0 w0]|];
    [|discriminate].
  destruct (Genetic.evolve _ _ _ _ _) as [[[|best others] w1]|];
    try discriminate.
  simpl. by intros [= <-].
Qed.

(** A piece that fits the panel in no orientation is neither placed nor
    reported: it is absent from the result. *)
Lemma genetic_omits_unplaceable_piece :
  exists result,
    Genetic.execute (fun _ => 0) [Samples.huge; Samples.small]
                    [Samples.panel500x300] Samples.settings0 = Ok result
    /\ map Placed.id (AlgorithmResult.placedPieces result) = ["small"%string]
    /\ AlgorithmResult.unusedPieces result = [].
Proof. eexists. vm_compute. repeat split. Qed.

(** C1.  The genetic search stamps every placement with sheet number 0,
    also the placements it makes on a new sheet: in every result all placed
    pieces are on sheet 0, whatever number of sheets the result counts. *)
Theorem genetic_places_all_on_sheet0
    (random : nat -> Q) (pieces : list OptimizationPiece)
    (panel : OptimizationPanel) (panels : list OptimizationPanel)
    (settings : OptimizationSettings) :
  (forall n, 0 <= random n /\ random n < 1) ->
  exists result,
    Genetic.execute random pieces (panel :: panels) settings = Ok result
    /\ Forall (fun p => Placed.sheetNumber p = Some 0%nat)
              (AlgorithmResult.placedPieces result).
Proof.
  intros Hrandom. unfold Genetic.execute.
  destruct (returns_runOptimization random Hrandom pieces panel panels settings
              (Genetic.mkWorld 0 []))
    as (result & w & Hrun & _).
  exists result. rewrite Hrun. split; [reflexivity|].
  eapply runOptimization_sheet0; [|exact Hrun]. constructor.
Qed.

(** Scenario C: the two squares are both on sheet 0, at the origin, and
    overlap, while the result counts two sheets. *)
Lemma genetic_places_all_on_sheet0_witness :
  (forall n : nat, 0 <= (fun _ : nat => 0) n /\ (fun _ : nat => 0) n < 1)
  /\ exists result p1 p2,
      Genetic.execute (fun _ => 0) [Samples.twoSquares] [Samples.panel150x100]
                      Samples.settings0 = Ok result
      /\ AlgorithmResult.placedPieces result = [p1; p2]
      /\ Placed.sheetNumber p1 = Some 0%nat
      /\ Placed.sheetNumber p2 = Some 0%nat
      /\ rectanglesOverlap (Placed.footprint p1) (Placed.footprint p2) = true
      /\ AlgorithmResult.sheetCount result = 2%Z.
Proof.
  assert (Hrandom : forall n : nat,
             0 <= (fun _ : nat => 0) n /\ (fun _ : nat => 0) n < 1).
  { intros _. split; [apply Qle_refl | reflexivity]. }
  split; [exact Hrandom|].
  destruct (genetic_places_all_on_sheet0 (fun _ => 0) [Samples.twoSquares]
              Samples.panel150x100 [] Samples.settings0 Hrandom)
    as (result & Hrun & Hsheet).
  pose proof Hrun as Hvalue. vm_compute in Hvalue. injection Hvalue as Hvalue.
  subst result.
  eexists _, _, _. split; [exact Hrun|]. split; [reflexivity|].
  inversion Hsheet as [|? ? H1 Hrest]; subst.
  inversion Hrest as [|? ? H2 _]; subst.
  split; [exact H1|]. split; [exact H2|]. split; reflexivity.
Defined.

Lemma ceiling_two_above_one (q : Q) : (2 <= Qceiling q)%Z -> 1 < q.
Proof.
  intros H. pose proof (Qceiling_lt q) as Hlt.
  assert (H1 : 1 <= inject_Z (Qceiling q - 1)).
  { change 1 with (inject_Z 1). rewrite <- Zle_Qle. lia. }
  lra.
Qed.

(** C4.  The genetic search takes the area of one panel for [totalArea] and
    derives its sheet count from the efficiency, rounded up: a result that
    counts two sheets or more has an efficiency above 1. *)
Theorem genetic_efficiency_above_one
    (random : nat -> Q) (pieces : list OptimizationPiece)
    (panel : OptimizationPanel) (panels : list OptimizationPanel)
    (settings : OptimizationSettings) :
  (forall n, 0 <= random n /\ random n < 1) ->
  exists result,
    Genetic.execute random pieces (panel :: panels) settings = Ok result
    /\ AlgorithmResult.totalArea result = Panel.height panel * Panel.width panel
    /\ AlgorithmResult.sheetCount result
       = Qceiling (AlgorithmResult.efficiency result)
    /\ ((2 <= AlgorithmResult.sheetCount result)%Z ->
        1 < AlgorithmResult.efficiency result).
Proof.
  intros Hrandom. unfold Genetic.execute.
  destruct (runOptimization_sheets random Hrandom pieces panel panels settings
              (Genetic.mkWorld 0 []))
    as (result & w & Hrun & Hsheets).
  exists result. rewrite Hrun. split; [reflexivity|].
  split; [|split; [exact Hsheets|]].
  - revert Hrun. unfold Genetic.runOptimization, Genetic.bind.
    destruct (Genetic.initializePopulation _ _ _ _ _) as [[population0 w0]|];
      [|discriminate].
    destruct (Genetic.evolve _ _ _ _ _) as [[[|best others] w1]|];
      try discriminate.
    cbn [Genetic.getObjects Genetic.ret]. by intros [= <- _].
  - rewrite Hsheets. apply ceiling_two_above_one.
Qed.

(** Scenario C: two sheets are counted, the used area is 20000 on a total
    area of 15000, and the efficiency is 4/3. *)
Lemma genetic_efficiency_above_one_witness :
  (forall n : nat, 0 <= (fun _ : nat => 0) n /\ (fun _ : nat => 0) n < 1)
  /\ exists result,
      Genetic.execute (fun _ => 0) [Samples.twoSquares] [Samples.panel150x100]
                      Samples.settings0 = Ok result
      /\ AlgorithmResult.sheetCount result = 2%Z
      /\ 1 < AlgorithmResult.efficiency result
      /\ AlgorithmResult.totalArea result < AlgorithmResult.usedArea result.
Proof.
  assert (Hrandom : forall n : nat,
             0 <= (fun _ : nat => 0) n /\ (fun _ : nat => 0) n < 1).
  { intros _. split; [apply Qle_refl | reflexivity]. }
  split; [exact Hrandom|].
  destruct (genetic_efficiency_above_one (fun _ => 0) [Samples.twoSquares]
              Samples.panel150x100 [] Samples.settings0 Hrandom)
    as (result & Hrun & _ & Hsheets & Habove).
  exists result. split; [exact Hrun|].
  assert (Hcount : AlgorithmResult.sheetCount result = 2%Z).
  { vm_compute in Hrun. by injection Hrun as <-. }
  split; [exact Hcount|]. split; [apply Habove; lia|].
  vm_compute in Hrun. injection Hrun as <-. reflexivity.
Defined.

(** ** Hybrid local search *)

Section LocalSearchFacts.
Import HybridLocalSearch.

Lemma shape_withPosition p x y : shape (Placed.withPosition p x y) = shape p.
Proof. reflexivity. Qed.

Lemma map_alter_invariant {A B} (f : A -> B) (g : A -> A) (i : nat) (l : list A) :
  (forall a, f (g a) = f a) -> map f (alter g i l) = map f l.
Proof.
  intros Hfg. revert i. induction l as [|a l IH]; intros [|i]; simpl;
    try reflexivity.
  - by rewrite Hfg.
  - f_equal. apply IH.
Qed.

Lemma copyPosition_shapes objects target source :
  map shape (copyPosition objects target source) = map shape objects.
Proof.
  unfold copyPosition. destruct (objects !! source); [|reflexivity].
  by apply map_alter_invariant.
Qed.

Lemma tentativeSwap_shapes objects newPlacements i j :
  map shape (tentativeSwap objects newPlacements i j) = map shape objects.
Proof.
  unfold tentativeSwap.
  destruct (newPlacements !! i), (newPlacements !! j); try reflexivity.
  by rewrite !copyPosition_shapes.
Qed.

Lemma applySwap_shapes objects piece1 piece2 :
  map shape (applySwap objects piece1 piece2) = map shape objects.
Proof. unfold applySwap. by rewrite !copyPosition_shapes. Qed.

Lemma deref_shapes objects1 objects2 refs :
  map shape objects1 = map shape objects2 ->
  map shape (deref objects1 refs) = map shape (deref objects2 refs).
Proof.
  intros Hshapes. unfold deref. induction refs as [|r refs IH]; [reflexivity|].
  assert (Hr : shape <$> objects1 !! r = shape <$> objects2 !! r).
  { rewrite <- !list_lookup_fmap. unfold fmap, list_fmap.
    change (map shape objects1 !! r = map shape objects2 !! r).
    by rewrite Hshapes. }
  cbn [omap list_omap].
  destruct (objects1 !! r), (objects2 !! r); simpl in Hr; try discriminate;
    cbn [map]; [|exact IH].
  f_equal; [congruence | exact IH].
Qed.

(** The area sum of one sheet is a function of the shapes. *)
Lemma sheetArea_shapes (l1 l2 : list PlacedPiece) (sum : Q) :
  map shape l1 = map shape l2 ->
  fold_left (fun sheetSum piece =>
               sheetSum + Placed.width piece * Placed.height piece) l1 sum
  = fold_left (fun sheetSum piece =>
                 sheetSum + Placed.width piece * Placed.height piece) l2 sum.
Proof.
  revert l2 sum. induction l1 as [|p l1 IH]; intros [|q l2] sum Hs;
    try discriminate; [reflexivity|].
  simpl in *. injection Hs as Hid Hw Hh _ _ _ Hrest.
  rewrite Hw, Hh. by apply IH.
Qed.

Lemma usedArea_shapes objects1 objects2 (sheets : list Sheet) (sum : Q) :
  map shape objects1 = map shape objects2 ->
  fold_left
    (fun sum sheet =>
       sum + fold_left
               (fun sheetSum piece =>
                  sheetSum + Placed.width piece * Placed.height piece)
               (deref objects1 (placedPieces sheet)) 0)
    sheets sum
  = fold_left
      (fun sum sheet =>
         sum + fold_left
                 (fun sheetSum piece =>
                    sheetSum + Placed.width piece * Placed.height piece)
                 (deref objects2 (placedPieces sheet)) 0)
      sheets sum.
Proof.
  intros Hshapes. revert sum.
  induction sheets as [|sheet sheets IH]; intros sum; [reflexivity|].
  simpl. rewrite IH. do 2 f_equal.
  apply sheetArea_shapes. by apply deref_shapes.
Qed.

Lemma calculateEfficiency_shapes objects1 objects2 sheets panel :
  map shape objects1 = map shape objects2 ->
  calculateEfficiency objects1 sheets panel
  = calculateEfficiency objects2 sheets panel.
Proof.
  intros Hshapes. unfold calculateEfficiency.
  destruct sheets as [|sheet sheets]; [reflexivity|].
  f_equal. by apply usedArea_shapes.
Qed.

Lemma sheet_eta sheet :
  mkSheet (placedPieces sheet) (availableSpace sheet) = sheet.
Proof. by destruct sheet. Qed.

(** The efficiency test of [trySwap] never succeeds: the efficiency after
    the tentative exchange is the efficiency before it. *)
Lemma trySwap_efficiency_unchanged objects panel sheet1 sheet2 i j :
  let newPlacements := placedPieces sheet1 ++ placedPieces sheet2 in
  calculateEfficiency
    (tentativeSwap objects newPlacements i j)
    [mkSheet (take (length (placedPieces sheet1)) newPlacements)
             (availableSpace sheet1);
     mkSheet (drop (length (placedPieces sheet1)) newPlacements)
             (availableSpace sheet2)]
    panel
  = calculateEfficiency objects [sheet1; sheet2] panel.
Proof.
  intros newPlacements. unfold newPlacements.
  rewrite take_app_length, drop_app_length, !sheet_eta.
  apply calculateEfficiency_shapes, tentativeSwap_shapes.
Qed.

Lemma trySwap_no_commit panel sheet1 sheet2 k l objects improved :
  snd (trySwap panel sheet1 sheet2 k l (objects, improved)) = improved
  /\ map shape (fst (trySwap panel sheet1 sheet2 k l (objects, improved)))
     = map shape objects.
Proof.
  unfold trySwap.
  destruct (placedPieces sheet1 !! k) as [piece1|]; [|by split].
  destruct (placedPieces sheet2 !! l) as [piece2|]; [|by split].
  rewrite trySwap_efficiency_unchanged, Qltb_irrefl. simpl.
  split; [reflexivity | apply tentativeSwap_shapes].
Qed.

(** Invariants of a loop written as [fold_left]. *)
Lemma fold_left_invariant {A B} (P : A -> Prop) (f : A -> B -> A) (l : list B) a :
  P a -> (forall a b, P a -> P (f a b)) -> P (fold_left f l a).
Proof.
  intros Ha Hf. revert a Ha. induction l as [|b l IH]; intros a Ha; simpl;
    [exact Ha | apply IH, Hf, Ha].
Qed.

Lemma swapBetween_no_commit panel sheet1 sheet2 objects0 st :
  snd st = false /\ map shape (fst st) = map shape objects0 ->
  snd (swapBetween panel sheet1 sheet2 st) = false
  /\ map shape (fst (swapBetween panel sheet1 sheet2 st)) = map shape objects0.
Proof.
  intros Hst. unfold swapBetween.
  apply (fold_left_invariant
           (fun st => snd st = false /\ map shape (fst st) = map shape objects0));
    [exact Hst|].
  intros st1 k Hst1.
  apply (fold_left_invariant
           (fun st => snd st = false /\ map shape (fst st) = map shape objects0));
    [exact Hst1|].
  intros [objects improved] l [Himp Hshapes]. simpl in Himp, Hshapes.
  destruct (trySwap_no_commit panel sheet1 sheet2 k l objects improved)
    as [E1 E2].
  split; congruence.
Qed.

Lemma swapPass_no_commit panel sheets objects :
  snd (swapPass panel sheets objects) = false
  /\ map shape (fst (swapPass panel sheets objects)) = map shape objects.
Proof.
  unfold swapPass.
  apply (fold_left_invariant
           (fun st => snd st = false /\ map shape (fst st) = map shape objects));
    [by split|].
  intros st1 i Hst1.
  apply (fold_left_invariant
           (fun st => snd st = false /\ map shape (fst st) = map shape objects));
    [exact Hst1|].
  intros st2 j Hst2.
  destruct (sheets !! i), (sheets !! j); try exact Hst2.
  by apply swapBetween_no_commit.
Qed.

Lemma swapPass_few_sheets panel sheets objects :
  (length sheets <= 1)%nat -> swapPass panel sheets objects = (objects, false).
Proof.
  destruct sheets as [|sheet [|sheet' sheets]]; simpl; intros H;
    [reflexivity | reflexivity | lia].
Qed.

Lemma improveLoop_one_pass panel sheets remaining objects :
  improveLoop panel sheets (S remaining) objects
  = fst (swapPass panel sheets objects).
Proof.
  simpl. destruct (swapPass_no_commit panel sheets objects) as [Himp _].
  destruct (swapPass panel sheets objects) as [objects' improved].
  simpl in Himp. by rewrite Himp.
Qed.

End LocalSearchFacts.

(** *** The constructive phase never opens a second sheet *)

Section ConstructiveFacts.
Import HybridLocalSearch.

(** Splitting the free space around the whole of its only rectangle, with
    kerf 0, leaves nothing. *)
Lemma splitSpace_self space pieceWidth pieceHeight :
  splitSpace [space] space pieceWidth pieceHeight 0 = [].
Proof.
  unfold splitSpace. simpl. rewrite app_nil_r. unfold splitOne.
  destruct (overlapsSpace space space) eqn:E.
  - by rewrite !Qltb_irrefl.
  - simpl. unfold widerThanKerf.
    destruct (0 <? Rectangle.width space) eqn:Ew; [|reflexivity].
    destruct (0 <? Rectangle.height space) eqn:Eh; [|reflexivity].
    exfalso. Qbools.
    assert (overlapsSpace space space = true); [|congruence].
    unfold overlapsSpace. rewrite !andb_true_iff, !Qltb_lt. lra.
Qed.

Lemma tryFirstSpace_consumes panel objects sheet piece i objects' sheet' :
  availableSpace sheet = [wholePanel panel] ->
  tryFirstSpace objects sheet piece (wholePanel panel) i = Some (objects', sheet') ->
  availableSpace sheet' = [].
Proof.
  intros Hav. unfold tryFirstSpace, placeIn. rewrite Hav.
  destruct (canPlacePiece piece (wholePanel panel) false).
  - intros [= _ <-]. apply splitSpace_self.
  - destruct (Piece.rotatable piece && canPlacePiece piece (wholePanel panel) true);
      [|discriminate].
    intros [= _ <-]. apply splitSpace_self.
Qed.

Lemma tryFirstSpace_index objects sheet piece space i j :
  tryFirstSpace objects sheet piece space i = None ->
  tryFirstSpace objects sheet piece space j = None.
Proof.
  unfold tryFirstSpace.
  destruct (canPlacePiece piece space false); [discriminate|].
  by destruct (Piece.rotatable piece && canPlacePiece piece space true).
Qed.

Lemma tryFirstSpace_None_unrotated objects sheet piece space i :
  tryFirstSpace objects sheet piece space i = None ->
  canPlacePiece piece space false = false.
Proof.
  unfold tryFirstSpace. by destruct (canPlacePiece piece space false).
Qed.

Lemma constructiveStep_singleSheet panel st piece :
  singleSheet panel st -> singleSheet panel (constructiveStep panel st piece).
Proof.
  destruct st as [objects state].
  intros (Hcur & sheet & Hsheets & Hav). simpl in Hcur, Hsheets.
  unfold constructiveStep. rewrite Hsheets, Hcur. simpl.
  destruct Hav as [Hav | Hav]; rewrite Hav.
  - split; [exact Hcur|]. exists sheet. simpl. by split; [|left].
  - destruct (tryFirstSpace objects sheet piece (wholePanel panel) 0)
      as [[objects' sheet']|] eqn:Etry.
    + split; [reflexivity|]. exists sheet'. simpl. split; [reflexivity|].
      left. eapply tryFirstSpace_consumes; eassumption.
    + unfold placeElsewhere. rewrite Hsheets. simpl. rewrite Hav, Etry.
      rewrite (tryFirstSpace_None_unrotated _ _ _ _ _ Etry).
      split; [exact Hcur|]. exists sheet. simpl. by split; [|right].
Qed.

Lemma constructivePlacement_singleSheet panel pieces :
  singleSheet panel
    (constructivePlacement panel [] (mkState [mkSheet [] [wholePanel panel]] 0)
                           pieces).
Proof.
  unfold constructivePlacement. apply fold_left_invariant.
  - split; [reflexivity|]. eexists. split; [reflexivity|]. by right.
  - intros st piece. apply constructiveStep_singleSheet.
Qed.

End ConstructiveFacts.



(** Beside the runs of the strategy.  [localSearchImprovement] is private and
    is only given the state of the constructive phase, which has one sheet.
    On a state with two sheets, as no run produces one, the exchange tried
    for [a] is not committed (the [improved] flag stays false) and yet the
    search would return [a] moved onto [b]: the tentative copy of a sheet
    shares the piece objects with the sheet, and nothing restores them. *)
Lemma localSearch_rejected_exchange_moves_piece :
  rectanglesOverlap (Placed.footprint TwoSheets.a) (Placed.footprint TwoSheets.b)
  = false
  /\ HybridLocalSearch.trySwap TwoSheets.panel TwoSheets.sheet1 TwoSheets.sheet2
       0 0 (TwoSheets.objects, false)
     = ([Placed.withPosition TwoSheets.a 10 0; TwoSheets.b; TwoSheets.c], false)
  /\ HybridLocalSearch.localSearchImprovement TwoSheets.objects TwoSheets.state
       TwoSheets.panel
     = [Placed.withPosition TwoSheets.a 10 0; TwoSheets.b; TwoSheets.c]
  /\ rectanglesOverlap (Placed.footprint (Placed.withPosition TwoSheets.a 10 0))
                       (Placed.footprint TwoSheets.b)
     = true.
Proof. repeat split. Qed.

(** ** Beam search: what a run can return *)

Section BeamRuns.
Import BeamSearch.

Lemma expandNode_step kerf arrays newBeam node piece rest :
  arrays !! Node.pieces node = Some (piece :: rest) ->
  expandNode kerf (arrays, newBeam) node
  = (alter (fun arr => arr ++ [piece]) (length arrays) (arrays ++ [rest]),
     newBeam ++ flat_map (childrenAt kerf node piece (length arrays))
                         (Node.availableSpaces node)).
Proof. intros H. unfold expandNode. by rewrite H. Qed.

(** A placement that covers a free rectangle of positive size leaves nothing
    of that rectangle, whatever the kerf. *)
Lemma splitSpace_consumed space pieceWidth pieceHeight kerf :
  0 < Rectangle.width space -> 0 < Rectangle.height space ->
  BeamSearch.splitSpace [space] space pieceWidth pieceHeight kerf = [].
Proof.
  intros Hw Hh. unfold BeamSearch.splitSpace. simpl. rewrite app_nil_r.
  unfold splitOne.
  assert (E : overlapsSpace space space = true).
  { unfold overlapsSpace. rewrite !andb_true_iff, !Qltb_lt. lra. }
  by rewrite E, !Qltb_irrefl.
Qed.

Lemma canPlacePiece_positive piece space rotated :
  positive piece -> canPlacePiece piece space rotated = true ->
  0 < Rectangle.width space /\ 0 < Rectangle.height space.
Proof.
  intros [Hw Hh]. unfold canPlacePiece. intros H. Qbools.
  destruct rotated; lra.
Qed.

Lemma firstChildren_spaces kerf placed space piece loc score child :
  positive piece ->
  In child (childrenAt kerf (Node.mk placed [space] loc score) piece
                       (S loc) space) ->
  Node.availableSpaces child = [].
Proof.
  intros Hpos. unfold childrenAt. rewrite in_app_iff. cbn [Node.availableSpaces].
  intros [H | H].
  - destruct (canPlacePiece piece space false) eqn:E; [|destruct H].
    destruct H as [<- | []]. cbn [Node.availableSpaces].
    apply canPlacePiece_positive in E as []; [|assumption].
    by apply splitSpace_consumed.
  - destruct (Piece.rotatable piece); [|destruct H]. simpl in H.
    destruct (canPlacePiece piece space true) eqn:E; [|destruct H].
    destruct H as [<- | []]. cbn [Node.availableSpaces].
    apply canPlacePiece_positive in E as []; [|assumption].
    by apply splitSpace_consumed.
Qed.

(** Nodes without free rectangles have no successors. *)
Lemma expand_exhausted kerf beam arrays :
  Forall (fun node => Node.availableSpaces node = []) beam ->
  snd (fold_left (expandNode kerf) beam (arrays, [])) = [].
Proof.
  intros Hall. revert arrays.
  induction Hall as [|node beam Hnode _ IH]; intros arrays; [reflexivity|].
  cbn [fold_left].
  assert (E : exists arrays', expandNode kerf (arrays, []) node = (arrays', [])).
  { unfold expandNode. destruct (arrays !! Node.pieces node) as [[|piece rest]|];
      try by eexists.
    rewrite Hnode. by eexists. }
  destruct E as [arrays' ->]. apply IH.
Qed.

Lemma search_exhausted kerf remaining arrays beam :
  Forall (fun node => Node.availableSpaces node = []) beam ->
  snd (search kerf (S remaining) arrays beam) = [].
Proof.
  intros Hall. destruct beam as [|node beam]; [reflexivity|].
  cbn [search].
  pose proof (expand_exhausted kerf (node :: beam) arrays Hall) as E.
  destruct (fold_left (expandNode kerf) (node :: beam) (arrays, []))
    as [arrays' newBeam].
  simpl in E. subst newBeam. by destruct remaining.
Qed.

Lemma search_from_one kerf remaining arrays node :
  search kerf (S remaining) arrays [node]
  = search kerf remaining (fst (expandNode kerf (arrays, []) node))
           (take beamWidth
                 (arraySort compareScore (snd (expandNode kerf (arrays, []) node)))).
Proof.
  cbn [search fold_left]. by destruct (expandNode kerf (arrays, []) node).
Qed.

(** With two or more unit pieces no candidate survives the second step. *)
Lemma runOptimization_two_or_more piece1 piece2 rest panel settings :
  positive piece1 ->
  runOptimization (piece1 :: piece2 :: rest) panel settings
  = Throw "No valid solution found".
Proof.
  intros Hpos. unfold runOptimization.
  change (length (piece1 :: piece2 :: rest)) with (S (S (length rest))).
  rewrite search_from_one.
  rewrite (expandNode_step _ _ _ _ piece1 (piece2 :: rest)) by reflexivity.
  cbn [fst snd app Node.availableSpaces flat_map length].
  match goal with
  | |- context [search ?k (S ?n) ?arr ?beam] =>
      pose proof (search_exhausted k n arr beam) as E;
      destruct (search k (S n) arr beam) as [arrays' beam']
  end.
  simpl in E. rewrite E; [reflexivity|].
  apply Forall_take.
  eapply Permutation_Forall; [apply arraySort_Permutation|].
  apply Forall_forall. intros child Hin. rewrite app_nil_r in Hin.
  by eapply firstChildren_spaces.
Qed.

End BeamRuns.

(** X3.  Every request that expands to two or more unit pieces of positive
    size makes beam search throw: the first placement consumes the whole
    sheet. *)
Lemma beam_raises_on_two_units pieces panel panels settings :
  Forall positive pieces ->
  (2 <= length (expandPieces pieces))%nat ->
  BeamSearch.execute pieces (panel :: panels) settings
  = Throw "No valid solution found".
Proof.
  intros Hpos Hlen. unfold BeamSearch.execute.
  pose proof (positive_preprocessed pieces Hpos) as Hsorted.
  assert (Hlen' : (2 <= length (sortPiecesByPriority (expandPieces pieces)))%nat).
  { unfold sortPiecesByPriority. by rewrite arraySort_length. }
  destruct (sortPiecesByPriority (expandPieces pieces))
    as [|piece1 [|piece2 rest]]; simpl in Hlen'; try lia.
  apply runOptimization_two_or_more. by inversion Hsorted.
Qed.

(** ** Results that respect the sheet *)

Lemma efficiency_bounds (usedArea totalArea : Q) :
  0 < totalArea -> 0 <= usedArea -> usedArea <= totalArea ->
  0 <= usedArea / totalArea /\ usedArea / totalArea <= 1.
Proof.
  intros Ht H0 H1. split.
  - apply Qle_shift_div_l; [exact Ht | lra].
  - apply Qle_shift_div_r; [exact Ht | lra].
Qed.

Lemma sumPlacedArea_from (l : list PlacedPiece) (a : Q) :
  fold_left (fun sum piece => sum + Placed.width piece * Placed.height piece) l a
  == a + sumPlacedArea l.
Proof.
  unfold sumPlacedArea. revert a.
  induction l as [|p l IH]; intros a; simpl; [lra|].
  rewrite IH, (IH (0 + _)). lra.
Qed.

Lemma sumPlacedArea_app l1 l2 :
  sumPlacedArea (l1 ++ l2) == sumPlacedArea l1 + sumPlacedArea l2.
Proof.
  unfold sumPlacedArea at 1. rewrite fold_left_app.
  apply sumPlacedArea_from.
Qed.

Lemma sumPlacedArea_single p :
  sumPlacedArea [p] == Placed.width p * Placed.height p.
Proof. unfold sumPlacedArea. simpl. lra. Qed.

(** A result with nothing placed, or with one piece at the origin that is
    not larger than the panel, is valid. *)
Lemma validResult_at_most_one panel placed unused sheetCount name totalArea :
  positivePanel panel ->
  Panel.width panel * Panel.height panel <= totalArea ->
  (placed = []
   \/ exists p, placed = [p]
                /\ Placed.x p = 0 /\ Placed.y p = 0
                /\ 0 < Placed.width p /\ Placed.width p <= Panel.width panel
                /\ 0 < Placed.height p /\ Placed.height p <= Panel.height panel) ->
  validResult panel
    (AlgorithmResult.mk placed unused (sumPlacedArea placed / totalArea)
       totalArea (sumPlacedArea placed) (totalArea - sumPlacedArea placed)
       sheetCount name).
Proof.
  intros [HW HH] Hone Hplaced. unfold validResult. simpl.
  assert (HWH : 0 < Panel.width panel * Panel.height panel)
    by (by apply Qmult_lt_0_compat).
  assert (Ht : 0 < totalArea) by lra.
  assert (Harea : 0 <= sumPlacedArea placed /\ sumPlacedArea placed <= totalArea).
  { destruct Hplaced as [-> | (p & -> & _ & _ & Hw0 & Hw & Hh0 & Hh)].
    - unfold sumPlacedArea. simpl. split; lra.
    - rewrite sumPlacedArea_single. split; [nra|].
      apply Qle_trans with (Panel.width panel * Panel.height panel);
        [nra | exact Hone]. }
  destruct Harea as [Ha0 Ha1].
  split; [|split; [|split; [exact Ha0|split; [exact Ha1|]]]].
  - destruct Hplaced as [-> | (p & -> & Hx & Hy & Hw0 & Hw & Hh0 & Hh)];
      constructor; [|constructor].
    unfold withinPanel, insideOf. simpl. rewrite Hx, Hy. lra.
  - destruct Hplaced as [-> | (p & -> & _)]; repeat constructor.
  - by apply efficiency_bounds.
Qed.

Lemma childrenAt_placement kerf node piece loc space child :
  In child (BeamSearch.childrenAt kerf node piece loc space) ->
  exists rotated,
    BeamSearch.canPlacePiece piece space rotated = true
    /\ BeamSearch.Node.placedPieces child
       = BeamSearch.Node.placedPieces node
         ++ [BeamSearch.placePiece piece space rotated 0].
Proof.
  unfold BeamSearch.childrenAt. rewrite in_app_iff. intros [H | H].
  - destruct (BeamSearch.canPlacePiece piece space false) eqn:E; [|destruct H].
    destruct H as [<- | []]. by exists false.
  - destruct (Piece.rotatable piece); [|destruct H]. simpl in H.
    destruct (BeamSearch.canPlacePiece piece space true) eqn:E; [|destruct H].
    destruct H as [<- | []]. by exists true.
Qed.

(** Whatever beam search returns for pieces of positive size on a panel of
    positive size is within bounds, free of overlaps and accounts for its
    area: at most one piece is ever placed. *)
Lemma beam_result_valid pieces panel panels settings result :
  Forall positive pieces -> positivePanel panel ->
  BeamSearch.execute pieces (panel :: panels) settings = Ok result ->
  validResult panel result
  /\ (length (AlgorithmResult.placedPieces result) <= 1)%nat.
Proof.
  intros Hpos Hpanel. unfold BeamSearch.execute.
  pose proof (positive_preprocessed pieces Hpos) as Hunits.
  destruct (sortPiecesByPriority (expandPieces pieces))
    as [|unit [|unit2 rest]].
  - intros [= <-]. split; [|simpl; lia].
    apply validResult_at_most_one; [assumption | apply Qle_refl | by left].
  - unfold BeamSearch.runOptimization.
    change (length [unit]) with 1%nat.
    rewrite search_from_one.
    rewrite (expandNode_step _ _ _ _ unit []) by reflexivity.
    cbn [fst snd app BeamSearch.Node.availableSpaces flat_map length
         BeamSearch.search].
    destruct (take BeamSearch.beamWidth _) as [|bestNode others] eqn:Ebeam;
      [discriminate|].
    assert (Hin : In bestNode
                     (BeamSearch.childrenAt (Settings.kerf settings)
                        (BeamSearch.Node.mk [] [wholePanel panel] 0 0)
                        unit 1 (wholePanel panel))).
    { assert (Hbest : bestNode ∈ take BeamSearch.beamWidth
                        (arraySort BeamSearch.compareScore
                           (BeamSearch.childrenAt (Settings.kerf settings)
                              (BeamSearch.Node.mk [] [wholePanel panel] 0 0)
                              unit 1 (wholePanel panel) ++ [])))
        by (rewrite Ebeam; constructor).
      apply elem_of_take in Hbest as (i & Hi & _).
      apply list_elem_of_lookup_2, list_elem_of_In in Hi. rename Hi into Hbest.
      rewrite app_nil_r in Hbest.
      eapply Permutation_in; [|exact Hbest].
      symmetry. apply arraySort_Permutation. }
    apply childrenAt_placement in Hin as (rotated & Hfit & Hplaced).
    cbn [BeamSearch.Node.placedPieces app] in Hplaced.
    intros [= <-]. rewrite Hplaced.
    cbn [length AlgorithmResult.placedPieces]. split; [|lia].
    apply validResult_at_most_one; [assumption | apply Qle_refl |]. right.
    eexists. split; [reflexivity|].
    inversion Hunits as [|? ? [Hw Hh] _]; subst.
    unfold BeamSearch.canPlacePiece in Hfit. Qbools. simpl.
    destruct rotated; repeat split; assumption.
  - rewrite runOptimization_two_or_more; [discriminate|].
    by inversion Hunits.
Qed.

Section HybridRuns.
Import HybridLocalSearch.

Lemma tryFirstSpace_Some objects sheet piece space i objects' sheet' :
  tryFirstSpace objects sheet piece space i = Some (objects', sheet') ->
  exists rotated,
    canPlacePiece piece space rotated = true
    /\ (objects', sheet') = placeIn objects sheet piece space rotated i.
Proof.
  unfold tryFirstSpace.
  destruct (canPlacePiece piece space false) eqn:E1.
  - intros [= <- <-]. by exists false.
  - destruct (Piece.rotatable piece); [|discriminate]. simpl.
    destruct (canPlacePiece piece space true) eqn:E2; [|discriminate].
    intros [= <- <-]. by exists true.
Qed.

Lemma constructiveStep_atMostOne panel st piece :
  positive piece ->
  atMostOnePlaced panel st ->
  atMostOnePlaced panel (constructiveStep panel st piece).
Proof.
  destruct st as [objects state]. intros Hpos [Hcur Hst].
  simpl in Hcur, Hst. unfold constructiveStep.
  destruct Hst as [[-> Hsheets] | (piece0 & rot0 & Hpos0 & Hfit0 & -> & Hsheets)];
    rewrite Hsheets, Hcur; simpl.
  - destruct (tryFirstSpace [] (mkSheet [] [wholePanel panel]) piece
                            (wholePanel panel) 0)
      as [[objects' sheet']|] eqn:Etry.
    + apply tryFirstSpace_Some in Etry as (rotated & Hfit & Heq).
      unfold placeIn in Heq. simpl in Heq. rewrite splitSpace_self in Heq.
      injection Heq as -> ->.
      split; [reflexivity|]. right. exists piece, rotated.
      split; [exact Hpos|]. split; [exact Hfit|]. by split.
    + unfold placeElsewhere. rewrite Hsheets. simpl. rewrite Etry.
      rewrite (tryFirstSpace_None_unrotated _ _ _ _ _ Etry).
      split; [exact Hcur|]. by left.
  - split; [exact Hcur|]. right. exists piece0, rot0.
    split; [exact Hpos0|]. split; [exact Hfit0|]. by split.
Qed.

Lemma constructivePlacement_atMostOne panel pieces :
  Forall positive pieces ->
  atMostOnePlaced panel
    (constructivePlacement panel [] (mkState [mkSheet [] [wholePanel panel]] 0)
                           pieces).
Proof.
  intros Hpos. unfold constructivePlacement.
  assert (H0 : atMostOnePlaced panel
                 ([], mkState [mkSheet [] [wholePanel panel]] 0)).
  { split; [reflexivity|]. by left. }
  revert H0. generalize ([] : Objects, mkState [mkSheet [] [wholePanel panel]] 0).
  induction Hpos as [|piece pieces Hp _ IH]; intros st Hst; [exact Hst|].
  simpl. apply IH. by apply constructiveStep_atMostOne.
Qed.

(** The hybrid strategy places at most one piece, at the origin of the only
    sheet, and its result is valid. *)
Lemma hybrid_result_valid pieces panel settings :
  Forall positive pieces -> positivePanel panel ->
  validResult panel (runOptimization pieces panel settings)
  /\ (length (AlgorithmResult.placedPieces
                (runOptimization pieces panel settings)) <= 1)%nat.
Proof.
  intros Hpos Hpanel. unfold runOptimization.
  pose proof (constructivePlacement_atMostOne panel pieces Hpos) as [Hcur Hst].
  destruct (constructivePlacement panel []
              (mkState [mkSheet [] [wholePanel panel]] 0) pieces)
    as [objects1 state].
  simpl in Hcur, Hst.
  assert (Hls : localSearchImprovement objects1 state panel = objects1).
  { unfold localSearchImprovement, maxIterations.
    rewrite improveLoop_one_pass, swapPass_few_sheets; [reflexivity|].
    destruct Hst as [[_ ->] | (? & ? & _ & _ & _ & ->)]; simpl; lia. }
  rewrite Hls.
  destruct Hst as [[-> Hsheets] | (piece & rotated & Hp & Hfit & -> & Hsheets)];
    rewrite Hsheets; simpl.
  - split; [|lia].
    apply validResult_at_most_one;
      [assumption | change (inject_Z (Z.of_nat 1)) with 1; lra | by left].
  - split; [|lia].
    apply validResult_at_most_one;
      [assumption | change (inject_Z (Z.of_nat 1)) with 1; lra |]. right.
    eexists. split; [reflexivity|].
    destruct Hp as [Hw Hh]. unfold canPlacePiece in Hfit. Qbools. simpl.
    destruct rotated; repeat split; assumption.
Qed.

End HybridRuns.

(** ** First-Fit-Decreasing stacks pieces from the bottom of each sheet *)

Lemma ForallOrdPairs_app {A} (R : A -> A -> Prop) (l1 l2 : list A) :
  ForallOrdPairs R l1 -> ForallOrdPairs R l2 ->
  (forall a b, In a l1 -> In b l2 -> R a b) ->
  ForallOrdPairs R (l1 ++ l2).
Proof.
  intros H1 H2 H12. induction H1 as [|a l1 Ha _ IH]; [exact H2|].
  simpl. constructor.
  - apply Forall_app. split; [exact Ha|].
    apply Forall_forall. intros b Hb. apply H12; [by left | exact Hb].
  - apply IH. intros a' b Ha' Hb. apply H12; [by right | exact Hb].
Qed.

Lemma sumPlacedArea_nonneg l :
  Forall (fun p => 0 < Placed.width p /\ 0 < Placed.height p) l ->
  0 <= sumPlacedArea l.
Proof.
  induction 1 as [|p l [Hw Hh] _ IH]; [unfold sumPlacedArea; simpl; lra|].
  change (p :: l) with ([p] ++ l).
  rewrite sumPlacedArea_app, sumPlacedArea_single. nra.
Qed.

Section FirstFitRuns.
Import FirstFitDecreasing.
Variable panel : OptimizationPanel.
Hypothesis panel_positive : positivePanel panel.

Lemma sheetOk_new i : sheetOk panel i (mkSheet [] [wholePanel panel]).
Proof.
  destruct panel_positive as [HW HH].
  exists 0. simpl.
  split; [lra|]. split; [lra|]. split; [constructor|]. split; [constructor|].
  split.
  - unfold sumPlacedArea. simpl. lra.
  - right. exists (wholePanel panel). simpl. repeat split; lra.
Qed.

Lemma findBestFit_nil piece rotated : findBestFit piece [] rotated = None.
Proof. reflexivity. Qed.

Lemma findBestFit_single piece r rotated :
  findBestFit piece [r] rotated
  = if (fst (fitted piece rotated) <=? Rectangle.width r)
       && (snd (fitted piece rotated) <=? Rectangle.height r)
    then Some (Rectangle.mk (Rectangle.x r) (Rectangle.y r)
                            (fst (fitted piece rotated))
                            (snd (fitted piece rotated)))
    else None.
Proof.
  unfold findBestFit, findBestFitStep, fitted. simpl.
  destruct rotated; simpl;
    destruct (_ <=? Rectangle.width r), (_ <=? Rectangle.height r); reflexivity.
Qed.

(** Placing a fitting piece of positive size on top of a stack gives a
    stack. *)
Lemma occupy_sheetOk i sheet piece r rotated w h kerf :
  positive piece ->
  sheetOk panel i sheet ->
  availableSpace sheet = [r] ->
  fst (fitted piece rotated) <= Rectangle.width r ->
  snd (fitted piece rotated) <= Rectangle.height r ->
  let fit := Rectangle.mk (Rectangle.x r) (Rectangle.y r)
                          (fst (fitted piece rotated))
                          (snd (fitted piece rotated)) in
  sheetOk panel i (occupy sheet (placedAt piece fit rotated i) fit w h kerf).
Proof.
  intros Hpos (y0 & Hy0 & HyH & Hall & Hpairs & Hsum & Havail) Hr Hfw Hfh fit.
  destruct panel_positive as [HW HH].
  destruct Havail as [Hnil | (r' & Hr' & Hx & Hy & Hw & Hyh)]; [congruence|].
  assert (r' = r) by congruence. subst r'. clear Hr'.
  assert (Hfpos : 0 < fst (fitted piece rotated)
                  /\ 0 < snd (fitted piece rotated)).
  { destruct Hpos. unfold fitted. destruct rotated; simpl; by split. }
  destruct Hfpos as [Hfw0 Hfh0].
  set (fw := fst (fitted piece rotated)) in *.
  set (fh := snd (fitted piece rotated)) in *.
  exists (y0 + fh). unfold occupy. cbn [placedPieces availableSpace].
  split; [lra|]. split; [lra|]. split; [|split; [|split]].
  - apply Forall_app. split.
    + eapply Forall_impl; [|exact Hall].
      intros p (Hs & ? & ? & ? & ? & ? & ?). repeat split; try assumption. lra.
    + constructor; [|constructor]. unfold stacked, placedAt, fit. simpl.
      repeat split; try lra.
  - apply ForallOrdPairs_app; [exact Hpairs | repeat constructor |].
    intros p q Hp [<- | []]. rewrite Forall_forall in Hall.
    destruct (Hall p Hp) as (_ & _ & _ & _ & Htop & _).
    apply rectanglesOverlap_false. unfold placedAt, fit. simpl. lra.
  - rewrite sumPlacedArea_app, sumPlacedArea_single.
    unfold placedAt, fit. simpl. fold fw fh. nra.
  - unfold FirstFitDecreasing.splitSpace. rewrite Hr. simpl. rewrite app_nil_r.
    unfold FirstFitDecreasing.splitOne, fit. simpl. fold fw fh.
    assert (E1 : (Rectangle.x r <? Rectangle.x r + Rectangle.width r)
                 && (Rectangle.x r <? Rectangle.x r + fw) = true).
    { rewrite andb_true_iff, !Qltb_lt. lra. }
    rewrite E1, Qltb_irrefl. simpl.
    destruct (Rectangle.y r + fh <? Rectangle.y r + Rectangle.height r);
      simpl; [right | by left].
    eexists. split; [reflexivity|]. unfold stripAbove. simpl. repeat split; lra.
Qed.

Lemma placeOnSheets_sheetsOk piece kerf i sheets sheets' :
  positive piece ->
  sheetsOk panel i sheets ->
  placeOnSheets piece kerf i sheets = Some sheets' ->
  sheetsOk panel i sheets' /\ length sheets' = length sheets.
Proof.
  intros Hpos. revert i sheets'.
  induction sheets as [|sheet rest IH]; intros i sheets' Hok; [discriminate|].
  destruct Hok as [Hsheet Hrest]. cbn [placeOnSheets].
  assert (Hnext : option_map (cons sheet) (placeOnSheets piece kerf (S i) rest)
                  = Some sheets' ->
                  sheetsOk panel i sheets' /\ length sheets' = length (sheet :: rest)).
  { destruct (placeOnSheets piece kerf (S i) rest) as [rest'|] eqn:E;
      [|discriminate].
    intros [= <-]. destruct (IH (S i) rest' Hrest E) as [Hok' Hlen].
    split; [by split | simpl; congruence]. }
  destruct Hsheet as (y0 & Hsheet).
  assert (Hsheet' : sheetOk panel i sheet) by (by exists y0).
  destruct Hsheet as (_ & _ & _ & _ & _ & Havail).
  destruct Havail as [Hnil | (r & Hr & _)].
  - rewrite Hnil, !findBestFit_nil.
    destruct (Piece.rotatable piece); exact Hnext.
  - rewrite Hr, !findBestFit_single.
    destruct ((fst (fitted piece false) <=? Rectangle.width r)
              && (snd (fitted piece false) <=? Rectangle.height r)) eqn:E1.
    + intros [= <-]. Qbools. split; [|reflexivity]. split; [|exact Hrest].
      by apply (occupy_sheetOk i sheet piece r false).
    + destruct (Piece.rotatable piece); [|exact Hnext].
      destruct ((fst (fitted piece true) <=? Rectangle.width r)
                && (snd (fitted piece true) <=? Rectangle.height r)) eqn:E2;
        [|exact Hnext].
      intros [= <-]. Qbools. split; [|reflexivity]. split; [|exact Hrest].
      by apply (occupy_sheetOk i sheet piece r true).
Qed.

Lemma sheetsOk_app i sheets sheet :
  sheetsOk panel i sheets -> sheetOk panel (i + length sheets) sheet ->
  sheetsOk panel i (sheets ++ [sheet]).
Proof.
  revert i. induction sheets as [|s rest IH]; intros i Hok Hsheet; simpl.
  - rewrite Nat.add_0_r in Hsheet. by split.
  - destruct Hok as [Hs Hrest]. split; [exact Hs|].
    apply IH; [exact Hrest|]. simpl in Hsheet.
    by rewrite Nat.add_succ_r in Hsheet.
Qed.

Lemma placePiece_sheetsOk kerf sheets piece :
  positive piece ->
  sheetsOk panel 0 sheets /\ sheets <> [] ->
  sheetsOk panel 0 (placePiece panel kerf sheets piece)
  /\ placePiece panel kerf sheets piece <> [].
Proof.
  intros Hpos [Hok Hne]. unfold placePiece.
  destruct (placeOnSheets piece kerf 0 sheets) as [sheets'|] eqn:E.
  - destruct (placeOnSheets_sheetsOk _ _ _ _ _ Hpos Hok E) as [Hok' Hlen].
    split; [exact Hok'|]. intros ->. destruct sheets; [congruence | discriminate].
  - cbn [availableSpace]. rewrite findBestFit_single.
    destruct ((fst (fitted piece false) <=? Rectangle.width (wholePanel panel))
              && (snd (fitted piece false) <=? Rectangle.height (wholePanel panel)))
      eqn:E1; [|by split].
    Qbools. split; [|by destruct sheets].
    apply sheetsOk_app; [exact Hok|]. simpl.
    by apply (occupy_sheetOk (length sheets) (mkSheet [] [wholePanel panel])
                piece (wholePanel panel) false);
      [| apply sheetOk_new | ..].
Qed.

Lemma runSheets_sheetsOk kerf pieces :
  Forall positive pieces ->
  sheetsOk panel 0 (fold_left (placePiece panel kerf) pieces
                        [mkSheet [] [wholePanel panel]])
  /\ fold_left (placePiece panel kerf) pieces [mkSheet [] [wholePanel panel]]
     <> [].
Proof.
  intros Hpos.
  assert (H0 : sheetsOk panel 0 [mkSheet [] [wholePanel panel]]
               /\ [mkSheet [] [wholePanel panel]] <> []).
  { split; [|discriminate]. split; [apply sheetOk_new | exact I]. }
  revert H0. generalize [mkSheet [] [wholePanel panel]].
  induction Hpos as [|piece pieces Hp _ IH]; intros sheets Hsheets;
    [exact Hsheets|].
  simpl. apply IH. by apply placePiece_sheetsOk.
Qed.

Lemma stacked_withinPanel i y0 p :
  y0 <= Panel.height panel -> stacked panel i y0 p -> withinPanel panel p.
Proof.
  intros Hy (_ & ? & ? & ? & ? & _). unfold withinPanel, insideOf. simpl.
  repeat split; lra.
Qed.

Lemma sheetsOk_withinPanel i sheets :
  sheetsOk panel i sheets ->
  Forall (withinPanel panel) (flat_map placedPieces sheets).
Proof.
  revert i. induction sheets as [|sheet rest IH]; intros i Hok; [constructor|].
  destruct Hok as [(y0 & _ & Hy & Hall & _) Hrest]. simpl.
  apply Forall_app. split; [|by eapply IH].
  eapply Forall_impl; [|exact Hall].
  intros p. by apply stacked_withinPanel.
Qed.

Lemma sheetsOk_disjoint i sheets :
  sheetsOk panel i sheets ->
  disjointOnSheets (flat_map placedPieces sheets)
  /\ Forall (fun p => exists k, (i <= k)%nat /\ Placed.sheetNumber p = Some k)
            (flat_map placedPieces sheets).
Proof.
  revert i. induction sheets as [|sheet rest IH]; intros i Hok.
  - split; constructor.
  - destruct Hok as [(y0 & _ & _ & Hall & Hpairs & _) Hrest]. simpl.
    destruct (IH (S i) Hrest) as [IHd IHn].
    assert (Hhere : Forall (fun p => Placed.sheetNumber p = Some i)
                           (placedPieces sheet)).
    { eapply Forall_impl; [|exact Hall]. by intros p [? _]. }
    split.
    + apply ForallOrdPairs_app; [| exact IHd |].
      * clear -Hpairs. induction Hpairs as [|p l Hp _ IHl]; constructor;
          [|exact IHl].
        eapply Forall_impl; [|exact Hp]. by intros q Hq _.
      * intros p q Hp Hq Hsame.
        rewrite Forall_forall in Hhere, IHn.
        destruct (IHn q Hq) as (k & Hk & Hqk).
        rewrite (Hhere p Hp), Hqk in Hsame. injection Hsame as ->. lia.
    + apply Forall_app. split.
      * eapply Forall_impl; [|exact Hhere]. intros p Hp. exists i. by split.
      * eapply Forall_impl; [|exact IHn].
        intros p (k & Hk & Hp). exists k. split; [lia | exact Hp].
Qed.

Lemma sheetsOk_area i sheets :
  sheetsOk panel i sheets ->
  0 <= sumPlacedArea (flat_map placedPieces sheets)
  /\ sumPlacedArea (flat_map placedPieces sheets)
     <= Panel.width panel * Panel.height panel
        * inject_Z (Z.of_nat (length sheets)).
Proof.
  destruct panel_positive as [HW HH].
  revert i. induction sheets as [|sheet rest IH]; intros i Hok.
  - unfold sumPlacedArea. simpl. split; [lra|].
    change (inject_Z (Z.of_nat 0)) with 0. lra.
  - destruct Hok as [(y0 & Hy0 & Hy & Hall & _ & Hsum & _) Hrest].
    destruct (IH (S i) Hrest) as [IH0 IH1].
    cbn [flat_map length]. rewrite sumPlacedArea_app.
    rewrite Nat2Z.inj_succ, <- Z.add_1_r, inject_Z_plus.
    change (inject_Z 1) with 1.
    assert (Hnonneg : 0 <= sumPlacedArea (placedPieces sheet)).
    { apply sumPlacedArea_nonneg. eapply Forall_impl; [|exact Hall].
      by intros p (_ & _ & _ & _ & _ & ? & ?). }
    split; [lra|].
    set (n := inject_Z (Z.of_nat (length rest))) in *.
    set (a := sumPlacedArea (placedPieces sheet)) in *.
    set (b := sumPlacedArea (flat_map placedPieces rest)) in *.
    assert (a <= Panel.width panel * Panel.height panel) by nra.
    lra.
Qed.

End FirstFitRuns.

(** Every run of First-Fit-Decreasing on pieces of positive size and a panel
    of positive size returns a valid result. *)
Lemma firstFit_result_valid pieces panel panels settings result :
  Forall positive pieces -> positivePanel panel ->
  FirstFitDecreasing.execute pieces (panel :: panels) settings = Ok result ->
  validResult panel result.
Proof.
  intros Hpos Hpanel. rewrite firstFit_execute_returns. intros [= <-].
  unfold FirstFitDecreasing.runOptimization.
  assert (Hsorted : Forall positive
                      (arraySort FirstFitDecreasing.compareArea
                         (sortPiecesByPriority (expandPieces pieces)))).
  { eapply Permutation_Forall; [apply arraySort_Permutation|].
    by apply positive_preprocessed. }
  destruct (runSheets_sheetsOk panel Hpanel (Settings.kerf settings) _ Hsorted)
    as [Hok Hne].
  set (sheets := fold_left _ _ _) in *.
  destruct (sheetsOk_area panel Hpanel 0 sheets Hok) as [Ha0 Ha1].
  unfold validResult. cbn [AlgorithmResult.placedPieces AlgorithmResult.usedArea
                           AlgorithmResult.totalArea AlgorithmResult.efficiency].
  split; [by eapply sheetsOk_withinPanel|].
  split; [by eapply sheetsOk_disjoint|].
  split; [exact Ha0|]. split; [exact Ha1|].
  apply efficiency_bounds; [|exact Ha0 | exact Ha1].
  destruct Hpanel as [HW HH].
  assert (Hn : 1 <= inject_Z (Z.of_nat (length sheets))).
  { change 1 with (inject_Z 1). rewrite <- Zle_Qle.
    destruct sheets; [congruence | simpl; lia]. }
  assert (HWH : 0 < Panel.width panel * Panel.height panel)
    by (by apply Qmult_lt_0_compat).
  set (a := Panel.width panel * Panel.height panel) in *. nra.
Qed.


(** ** Mutation is not followed by validation *)

(** [mutate] moves the piece by 4 to the right, out of the panel, and the
    individual keeps it; [validatePlacements], which [crossover] applies to
    its children, rejects that placement. *)
Lemma mutate_is_not_validated :
  exists child w moved,
    Genetic.mutate Jitter.random Jitter.individual Jitter.panel Jitter.world
    = Ok (child, w)
    /\ deref (Genetic.objects w) (Genetic.placements child) = [moved]
    /\ Placed.x moved == 4
    /\ Panel.width Jitter.panel < Placed.x moved + Placed.width moved
    /\ Genetic.validatePlacements (Genetic.objects w) (Genetic.placements child)
                                  Jitter.panel
       = [].
Proof.
  eexists _, _, _. split; [vm_compute; reflexivity|].
  vm_compute. repeat split.
Qed.

(** * Further properties of the code *)

(** ** Ordering by [Array.prototype.sort] *)

Section ArraySortOrder.
Context {A : Type} (compareFn : A -> A -> Q).
Context (P : A -> Prop) (R : A -> A -> Prop).
Hypothesis before : forall a b, P a -> P b -> compareFn a b <= 0 -> R a b.
Hypothesis after : forall a b, P a -> P b -> 0 < compareFn a b -> R b a.
Hypothesis R_trans : forall a b c, R a b -> R b c -> R a c.

Lemma sortInsert_ordered a l :
  P a -> Forall P l -> ForallOrdPairs R l ->
  ForallOrdPairs R (sortInsert compareFn a l).
Proof.
  intros Ha Hl Hord.
  induction Hord as [|b l Hb Hord IH]; simpl.
  - constructor; constructor.
  - inversion Hl as [|? ? Pb Pl]; subst.
    destruct (compareFn a b <=? 0) eqn:E.
    + apply Qleb_le in E. constructor; [|by constructor].
      constructor; [by apply before|].
      eapply Forall_impl; [|exact Hb].
      intros c Hc. simpl in Hc. eapply R_trans; [|exact Hc]. by apply before.
    + apply Qleb_gt in E. constructor; [|by apply IH].
      eapply Permutation_Forall; [apply sortInsert_Permutation|].
      constructor; [by apply after | exact Hb].
Qed.

Lemma arraySort_ordered l :
  Forall P l -> ForallOrdPairs R (arraySort compareFn l).
Proof.
  induction 1 as [|a l Ha Hl IH]; simpl; [constructor|].
  apply sortInsert_ordered; [exact Ha| |exact IH].
  eapply Permutation_Forall; [apply arraySort_Permutation | exact Hl].
Qed.

End ArraySortOrder.

(** Sorting what is already in order changes nothing. *)
Lemma arraySort_fixed {A : Type} (compareFn : A -> A -> Q) (l : list A) :
  ForallOrdPairs (fun a b => compareFn a b <= 0) l ->
  arraySort compareFn l = l.
Proof.
  induction 1 as [|a l Ha Hord IH]; simpl; [reflexivity|].
  rewrite IH. destruct l as [|b l]; simpl; [reflexivity|].
  inversion Ha as [|? ? Hab _]; subst.
  apply Qleb_le in Hab. by rewrite Hab.
Qed.

(** ** The piece preprocessor, continued *)

Lemma comparePriority_before a b :
  comparePriority a b <= 0 -> Piece.priorityOr0 b <= Piece.priorityOr0 a.
Proof.
  unfold comparePriority.
  destruct (Piece.priorityOr0 b =? Piece.priorityOr0 a) eqn:E; simpl.
  - apply Qeq_bool_iff in E. lra.
  - lra.
Qed.

Lemma comparePriority_after a b :
  0 < comparePriority a b -> Piece.priorityOr0 a <= Piece.priorityOr0 b.
Proof.
  unfold comparePriority.
  destruct (Piece.priorityOr0 b =? Piece.priorityOr0 a) eqn:E; simpl.
  - apply Qeq_bool_iff in E. lra.
  - lra.
Qed.

(** X5.  [sortPiecesByPriority] loses and invents no piece, and in its result
    the priorities never increase, a missing priority counting as 0. *)
Theorem sortPiecesByPriority_priority_descending
    (pieces : list OptimizationPiece) :
  Permutation pieces (sortPiecesByPriority pieces)
  /\ ForallOrdPairs
       (fun a b => Piece.priorityOr0 b <= Piece.priorityOr0 a)
       (sortPiecesByPriority pieces).
Proof.
  split; [apply arraySort_Permutation|].
  unfold sortPiecesByPriority.
  apply (arraySort_ordered comparePriority (fun _ => True)).
  - intros a b _ _. apply comparePriority_before.
  - intros a b _ _. apply comparePriority_after.
  - intros a b c Hab Hbc. simpl in *. lra.
  - apply Forall_forall. done.
Qed.

Lemma comparePriority_spec a b :
  0 < Piece.height a -> 0 < Piece.height b ->
  (comparePriority a b <= 0 <-> priorityThenWidth a b).
Proof.
  intros Ha Hb. unfold comparePriority, priorityThenWidth.
  destruct (Piece.priorityOr0 b =? Piece.priorityOr0 a) eqn:E; simpl.
  - apply Qeq_bool_iff in E. split.
    + intros H. split; [exact Ha|]. split; [exact Hb|]. right.
      split; [exact E|]. nra.
    + intros (_ & _ & [H|[_ H]]); [lra|nra].
  - apply Qeq_bool_neq in E. split.
    + intros H. split; [exact Ha|]. split; [exact Hb|]. left.
      destruct (Qlt_le_dec (Piece.priorityOr0 b) (Piece.priorityOr0 a))
        as [Hlt|Hle]; [exact Hlt|].
      exfalso. apply E. lra.
    + intros (_ & _ & [H|[H _]]); [lra|contradiction].
Qed.

Lemma priorityThenWidth_trans a b c :
  priorityThenWidth a b -> priorityThenWidth b c -> priorityThenWidth a c.
Proof.
  intros (Ha & Hb & Hab) (_ & Hc & Hbc).
  split; [exact Ha|]. split; [exact Hc|].
  destruct Hab as [Hab|[Eab Wab]], Hbc as [Hbc|[Ebc Wbc]].
  - left. lra.
  - left. lra.
  - left. lra.
  - right. split; lra.
Qed.

Lemma priorityThenWidth_total a b :
  0 < Piece.height a -> 0 < Piece.height b ->
  0 < comparePriority a b -> priorityThenWidth b a.
Proof.
  intros Ha Hb H. split; [exact Hb|]. split; [exact Ha|].
  revert H. unfold comparePriority.
  destruct (Piece.priorityOr0 b =? Piece.priorityOr0 a) eqn:E; simpl.
  - apply Qeq_bool_iff in E. intros H. right. split; [lra|nra].
  - intros H. left. lra.
Qed.

(** X6.  For pieces of positive height [sortPiecesByPriority] is idempotent:
    sorting its result again returns the same list. *)
Theorem sortPiecesByPriority_idempotent (pieces : list OptimizationPiece) :
  Forall (fun piece => 0 < Piece.height piece) pieces ->
  sortPiecesByPriority (sortPiecesByPriority pieces)
  = sortPiecesByPriority pieces.
Proof.
  intros Hpos. unfold sortPiecesByPriority.
  apply arraySort_fixed.
  assert (Hord : ForallOrdPairs priorityThenWidth
                   (arraySort comparePriority pieces)).
  { apply (arraySort_ordered comparePriority
             (fun piece => 0 < Piece.height piece)).
    - intros a b Ha Hb. by apply comparePriority_spec.
    - intros a b. apply priorityThenWidth_total.
    - apply priorityThenWidth_trans.
    - exact Hpos. }
  induction Hord as [|a l Ha Hord IH]; constructor; [|exact IH].
  eapply Forall_impl; [|exact Ha].
  intros b (Hha & Hhb & H). by apply comparePriority_spec.
Qed.

Lemma sortPiecesByPriority_idempotent_witness :
  Forall (fun piece => 0 < Piece.height piece) [Samples.tall; Samples.wide]
  /\ sortPiecesByPriority (sortPiecesByPriority [Samples.tall; Samples.wide])
     = sortPiecesByPriority [Samples.tall; Samples.wide].
Proof.
  assert (H : Forall (fun piece => 0 < Piece.height piece)
                     [Samples.tall; Samples.wide]).
  { repeat constructor. }
  split; [exact H|].
  exact (sortPiecesByPriority_idempotent [Samples.tall; Samples.wide] H).
Defined.

Lemma expandPieces_app l1 l2 :
  expandPieces (l1 ++ l2) = expandPieces l1 ++ expandPieces l2.
Proof. unfold expandPieces. apply flat_map_app. Qed.

Lemma expandPieces_replicate n piece :
  expandPieces (replicate n (Piece.withQuantity piece 1))
  = replicate n (Piece.withQuantity piece 1).
Proof.
  induction n as [|n IH]; [reflexivity|].
  simpl replicate. rewrite expandPieces_cons, IH. reflexivity.
Qed.

(** X7.  Expanding is idempotent: the unit pieces [expandPieces] returns
    expand to themselves. It also drops every piece whose quantity is not
    positive. *)
Theorem expandPieces_idempotent (pieces : list OptimizationPiece) :
  expandPieces (expandPieces pieces) = expandPieces pieces
  /\ expandPieces
       (List.filter (fun piece => (0 <? Piece.quantity piece)%Z) pieces)
     = expandPieces pieces.
Proof.
  split.
  - induction pieces as [|piece pieces IH]; [reflexivity|].
    rewrite expandPieces_cons, expandPieces_app, IH, expandPieces_replicate.
    reflexivity.
  - induction pieces as [|piece pieces IH]; [reflexivity|].
    simpl List.filter. destruct (0 <? Piece.quantity piece)%Z eqn:E.
    + by rewrite !expandPieces_cons, IH.
    + rewrite expandPieces_cons, IH.
      apply Z.ltb_ge in E.
      replace (Z.to_nat (Piece.quantity piece)) with 0%nat by lia.
      reflexivity.
Qed.

(** ** The geometry kernel, continued *)

(** X8.  The overlap test is symmetric, and a rectangle overlaps itself
    exactly when its width and height are positive. The genetic search's own
    [piecesOverlap] is the same test on the pieces' footprints. *)
Theorem rectanglesOverlap_symmetric (rect1 rect2 : Rectangle) :
  rectanglesOverlap rect1 rect2 = rectanglesOverlap rect2 rect1
  /\ (rectanglesOverlap rect1 rect1
      = (0 <? Rectangle.width rect1) && (0 <? Rectangle.height rect1))
  /\ forall p q : PlacedPiece,
      Genetic.piecesOverlap p q
      = rectanglesOverlap (Placed.footprint p) (Placed.footprint q).
Proof.
  split; [|split].
  - unfold rectanglesOverlap.
    destruct (_ <=? _), (_ <=? _), (_ <=? _), (_ <=? _); reflexivity.
  - unfold rectanglesOverlap.
    destruct (0 <? Rectangle.width rect1) eqn:Ew;
      destruct (0 <? Rectangle.height rect1) eqn:Eh;
      [apply Qltb_lt in Ew | apply Qltb_lt in Ew
       | apply Qltb_ge in Ew | apply Qltb_ge in Ew];
      [apply Qltb_lt in Eh | apply Qltb_ge in Eh
       | apply Qltb_lt in Eh | apply Qltb_ge in Eh].
    + assert (E1 : (Rectangle.x rect1 + Rectangle.width rect1
                    <=? Rectangle.x rect1) = false) by (apply Qleb_gt; lra).
      assert (E2 : (Rectangle.y rect1 + Rectangle.height rect1
                    <=? Rectangle.y rect1) = false) by (apply Qleb_gt; lra).
      by rewrite E1, E2.
    + assert (E2 : (Rectangle.y rect1 + Rectangle.height rect1
                    <=? Rectangle.y rect1) = true) by (apply Qleb_le; lra).
      rewrite E2. by rewrite !orb_true_r.
    + assert (E1 : (Rectangle.x rect1 + Rectangle.width rect1
                    <=? Rectangle.x rect1) = true) by (apply Qleb_le; lra).
      by rewrite E1.
    + assert (E1 : (Rectangle.x rect1 + Rectangle.width rect1
                    <=? Rectangle.x rect1) = true) by (apply Qleb_le; lra).
      by rewrite E1.
  - reflexivity.
Qed.

(** ** Cut instructions *)

Lemma ForallOrdPairs_Permutation {A} (R : A -> A -> Prop) (l l' : list A) :
  (forall a b, R a b -> R b a) ->
  Permutation l l' -> ForallOrdPairs R l -> ForallOrdPairs R l'.
Proof.
  intros Hsym Hperm. induction Hperm as [|x l l' Hperm IH|x y l|l l' l'' _ IH1 _ IH2].
  - done.
  - intros H. inversion H as [|? ? Hx Hl]; subst. constructor; [|by apply IH].
    eapply Permutation_Forall; [exact Hperm | exact Hx].
  - intros H. inversion H as [|? ? Hy Hxl]; subst.
    inversion Hxl as [|? ? Hx Hl]; subst.
    inversion Hy as [|? ? Hyx Hyl]; subst.
    constructor; [constructor; [by apply Hsym | exact Hx]|].
    by constructor.
  - intros H. by apply IH2, IH1.
Qed.

Lemma ForallOrdPairs_lookup {A} (R : A -> A -> Prop) (l : list A) i j a b :
  ForallOrdPairs R l -> l !! i = Some a -> l !! j = Some b -> (i < j)%nat ->
  R a b.
Proof.
  intros H. revert i j. induction H as [|x l Hx _ IH]; intros i j Hi Hj Hlt.
  - done.
  - destruct j as [|j]; [lia|]. destruct i as [|i]; simpl in *.
    + injection Hi as ->. rewrite Forall_forall in Hx. apply Hx.
      eapply list_elem_of_In, list_elem_of_lookup_2, Hj.
    + apply (IH i j); [done|done|lia].
Qed.

Lemma ForallOrdPairs_conj {A} (R S : A -> A -> Prop) (l : list A) :
  ForallOrdPairs R l -> ForallOrdPairs S l ->
  ForallOrdPairs (fun a b => R a b /\ S a b) l.
Proof.
  induction 1 as [|x l Hx _ IH]; intros HS; [constructor|].
  inversion HS as [|? ? Sx Sl]; subst. constructor; [|by apply IH].
  rewrite Forall_forall in *. intros b Hb. split; [by apply Hx | by apply Sx].
Qed.

Lemma existsb_Qeq (s : list Q) (v : Q) :
  existsb (fun u => u =? v) s = true <-> exists u, In u s /\ u == v.
Proof.
  rewrite existsb_exists. split; intros (u & Hin & H); exists u;
    (split; [exact Hin|]); by apply Qeq_bool_iff.
Qed.

Lemma setAdd_In s u v : In v (setAdd s u) -> In v s \/ v = u.
Proof.
  unfold setAdd. destruct (existsb _ s); [by left|].
  rewrite in_app_iff. simpl. intuition.
Qed.

Lemma setAdd_incl s u v : In v s -> In v (setAdd s u).
Proof.
  unfold setAdd. destruct (existsb _ s); [done|].
  intros H. apply in_app_iff. by left.
Qed.

Lemma setAdd_has s u : exists u', In u' (setAdd s u) /\ u' == u.
Proof.
  unfold setAdd. destruct (existsb _ s) eqn:E.
  - by apply existsb_Qeq.
  - exists u. split; [apply in_app_iff; right; by left | reflexivity].
Qed.

Lemma setAdd_length s u : (length (setAdd s u) <= S (length s))%nat.
Proof.
  unfold setAdd. destruct (existsb _ s); [lia|].
  rewrite length_app. simpl. lia.
Qed.

Lemma setAdd_distinct s u :
  ForallOrdPairs (fun a b => ~ a == b) s ->
  ForallOrdPairs (fun a b => ~ a == b) (setAdd s u).
Proof.
  intros H. unfold setAdd. destruct (existsb _ s) eqn:E; [exact H|].
  apply ForallOrdPairs_app; [exact H | repeat constructor |].
  intros a b Ha [<-|[]] Hab.
  assert (existsb (fun u' => u' =? u) s = true) as E'
      by (apply existsb_Qeq; eauto).
  congruence.
Qed.

(** The set of coordinates collected along one axis: [f] and [g] give the
    two edges of a piece. *)
Section Positions.
Context (f g : PlacedPiece -> Q).

Lemma positions_In placed init v :
  In v (fold_left (addEdges f g) placed init) ->
  In v init \/ exists piece, In piece placed /\ (v = f piece \/ v = g piece).
Proof.
  revert init. induction placed as [|p placed IH]; intros init; simpl.
  - by left.
  - intros H. apply IH in H as [H|(piece & Hin & H)].
    + apply setAdd_In in H as [H| ->].
      * apply setAdd_In in H as [H| ->]; [by left|].
        right. exists p. split; [by left | by left].
      * right. exists p. split; [by left | by right].
    + right. exists piece. split; [by right | exact H].
Qed.

Lemma positions_incl placed init v :
  In v init -> In v (fold_left (addEdges f g) placed init).
Proof.
  revert init. induction placed as [|p placed IH]; intros init; simpl; [done|].
  intros H. apply IH. by apply setAdd_incl, setAdd_incl.
Qed.

Lemma positions_has placed init piece :
  In piece placed ->
  (exists u, In u (fold_left (addEdges f g) placed init) /\ u == f piece)
  /\ (exists u, In u (fold_left (addEdges f g) placed init) /\ u == g piece).
Proof.
  revert init. induction placed as [|p placed IH]; intros init; simpl; [done|].
  intros [->|Hin]; [|by apply IH].
  split.
  - destruct (setAdd_has init (f piece)) as (u & Hu & E).
    exists u. split; [|exact E]. by apply positions_incl, setAdd_incl.
  - destruct (setAdd_has (setAdd init (f piece)) (g piece)) as (u & Hu & E).
    exists u. split; [|exact E]. by apply positions_incl.
Qed.

Lemma positions_distinct placed init :
  ForallOrdPairs (fun a b => ~ a == b) init ->
  ForallOrdPairs (fun a b => ~ a == b) (fold_left (addEdges f g) placed init).
Proof.
  revert init. induction placed as [|p placed IH]; intros init; simpl; [done|].
  intros H. by apply IH, setAdd_distinct, setAdd_distinct.
Qed.

Lemma positions_length placed init :
  (length (fold_left (addEdges f g) placed init)
   <= length init + 2 * length placed)%nat.
Proof.
  revert init. induction placed as [|p placed IH]; intros init; simpl; [lia|].
  etransitivity; [apply IH|]. unfold addEdges.
  pose proof (setAdd_length (setAdd init (f p)) (g p)).
  pose proof (setAdd_length init (f p)). lia.
Qed.

End Positions.

Lemma edgePositions_folds placed xs ys :
  fold_left
    (fun '(xPositions, yPositions) piece =>
       (addEdges Placed.x farX xPositions piece,
        addEdges Placed.y farY yPositions piece))
    placed (xs, ys)
  = (fold_left (addEdges Placed.x farX) placed xs,
     fold_left (addEdges Placed.y farY) placed ys).
Proof.
  revert xs ys. induction placed as [|p placed IH]; intros xs ys; simpl;
    [reflexivity | apply IH].
Qed.

(** Sorted coordinates: a rearrangement of the set, strictly increasing. *)
Lemma sorted_positions (positions : list Q) :
  ForallOrdPairs (fun a b => ~ a == b) positions ->
  ForallOrdPairs Qlt (arraySort compareNumbers positions).
Proof.
  intros Hdistinct.
  assert (Hle : ForallOrdPairs Qle (arraySort compareNumbers positions)).
  { apply (arraySort_ordered compareNumbers (fun _ => True)).
    - intros a b _ _. unfold compareNumbers. lra.
    - intros a b _ _. unfold compareNumbers. lra.
    - intros a b c. apply Qle_trans.
    - by apply Forall_forall. }
  assert (Hne : ForallOrdPairs (fun a b => ~ a == b)
                  (arraySort compareNumbers positions)).
  { eapply ForallOrdPairs_Permutation; [|apply arraySort_Permutation|exact Hdistinct].
    intros a b H E. apply H. by symmetry. }
  pose proof (ForallOrdPairs_conj _ _ _ Hle Hne) as H.
  clear -H. induction H as [|a l Ha _ IH]; constructor; [|exact IH].
  eapply Forall_impl; [|exact Ha]. intros b [Hab Hn]. simpl in *.
  apply Qle_lteq in Hab as [Hab|Hab]; [exact Hab | contradiction].
Qed.

Lemma sorted_positions_le (positions : list Q) :
  ForallOrdPairs Qle (arraySort compareNumbers positions).
Proof.
  apply (arraySort_ordered compareNumbers (fun _ => True)).
  - intros a b _ _. unfold compareNumbers. lra.
  - intros a b _ _. unfold compareNumbers. lra.
  - intros a b c. apply Qle_trans.
  - by apply Forall_forall.
Qed.

Lemma cutAt_In type kerf sorted i cut :
  In cut (cutAt type kerf sorted i) ->
  exists current previous,
    sorted !! i = Some current /\ sorted !! (i - 1)%nat = Some previous
    /\ kerf < current - previous
    /\ cut = Cut.mk type (Some current) None.
Proof.
  unfold cutAt.
  destruct (sorted !! i) as [current|]; [|done].
  destruct (sorted !! (i - 1)%nat) as [previous|]; [|done].
  destruct (kerf <? current - previous) eqn:E; [|done].
  intros [<-|[]]. apply Qltb_lt in E. eauto 10.
Qed.

(** The cuts along one axis: each follows an edge of a placed piece that is
    neither the first nor the last coordinate of the axis. *)
Lemma axis_cuts (f g : PlacedPiece -> Q) type kerf placed cut :
  let positions := fold_left (addEdges f g) placed [] in
  let sorted := arraySort compareNumbers positions in
  In cut (flat_map (cutAt type kerf sorted) (seq 1 (length sorted - 2))) ->
  exists v lo hi,
    cut = Cut.mk type (Some v) None
    /\ In v positions /\ In lo positions /\ In hi positions
    /\ kerf < v - lo /\ v < hi.
Proof.
  intros positions sorted Hin.
  apply in_flat_map in Hin as (i & Hi & Hcut).
  apply in_seq in Hi.
  apply cutAt_In in Hcut as (current & previous & Hcur & Hprev & Hkerf & ->).
  destruct (lookup_lt_is_Some_2 sorted (S i)) as [next Hnext]; [lia|].
  assert (Hsorted : ForallOrdPairs Qlt sorted).
  { apply sorted_positions, positions_distinct. constructor. }
  assert (Hback : forall v j, sorted !! j = Some v -> In v positions).
  { intros v j Hj. eapply Permutation_in.
    - symmetry. apply arraySort_Permutation.
    - eapply list_elem_of_In, list_elem_of_lookup_2, Hj. }
  exists current, previous, next.
  split; [reflexivity|]. split; [by eapply Hback|].
  split; [by eapply Hback|]. split; [by eapply Hback|].
  split; [exact Hkerf|].
  eapply (ForallOrdPairs_lookup Qlt sorted i (S i)); eauto.
Qed.

(** X9.  Every cut that the [generateCuts] of First-Fit-Decreasing, beam
    search and the hybrid search returns follows an edge of a placed piece,
    carries no sheet number, lies more than the kerf beyond another edge and
    strictly before a further one: the outermost edges are never cut. *)
Theorem generateCuts_follow_inner_edges
    (placedPieces : list PlacedPiece) (panels : list OptimizationPanel)
    (settings : OptimizationSettings) (cut : CutInstruction) :
  In cut (generateCuts placedPieces panels settings) ->
  exists v lo hi,
    cut = Cut.mk (Cut.type cut) (Some v) None
    /\ edgeOf (Cut.type cut) placedPieces v
    /\ edgeOf (Cut.type cut) placedPieces lo
    /\ edgeOf (Cut.type cut) placedPieces hi
    /\ Settings.kerf settings < v - lo /\ v < hi.
Proof.
  unfold generateCuts. destruct placedPieces as [|p0 rest]; [done|].
  set (placed := p0 :: rest). unfold edgePositions.
  rewrite edgePositions_folds. intros Hin.
  apply in_app_or in Hin as [Hin|Hin];
    apply axis_cuts in Hin
      as (v & lo & hi & -> & Hv & Hlo & Hhi & Hkerf & Hlt);
    exists v, lo, hi; (split; [reflexivity|]); simpl;
    apply positions_In in Hv as [[]|(pv & Hpv & Hv)];
    apply positions_In in Hlo as [[]|(plo & Hplo & Hlo)];
    apply positions_In in Hhi as [[]|(phi & Hphi & Hhi)];
    (split; [by exists pv|]); (split; [by exists plo|]);
    (split; [by exists phi|]); by split.
Qed.

Lemma generateCuts_follow_inner_edges_witness :
  In (Cut.mk Cut.vertical (Some 10) None)
     (generateCuts [TwoSheets.a; TwoSheets.b] [TwoSheets.panel] Samples.settings0)
  /\ exists v lo hi,
      edgeOf Cut.vertical [TwoSheets.a; TwoSheets.b] v
      /\ edgeOf Cut.vertical [TwoSheets.a; TwoSheets.b] lo
      /\ edgeOf Cut.vertical [TwoSheets.a; TwoSheets.b] hi
      /\ Settings.kerf Samples.settings0 < v - lo /\ v < hi.
Proof.
  assert (Hin : In (Cut.mk Cut.vertical (Some 10) None)
                   (generateCuts [TwoSheets.a; TwoSheets.b] [TwoSheets.panel]
                                 Samples.settings0)).
  { vm_compute. left. reflexivity. }
  split; [exact Hin|].
  destruct (generateCuts_follow_inner_edges _ _ _ _ Hin)
    as (v & lo & hi & _ & H).
  exists v, lo, hi. exact H.
Defined.

Lemma generateCuts_at_most_one placedPieces panels settings :
  (length placedPieces <= 1)%nat ->
  generateCuts placedPieces panels settings = [].
Proof.
  intros Hlen. unfold generateCuts.
  destruct placedPieces as [|p0 rest]; [reflexivity|].
  set (placed := p0 :: rest). unfold edgePositions.
  rewrite edgePositions_folds.
  set (xs := fold_left _ placed []). set (ys := fold_left _ placed []).
  assert (Hx : (length (arraySort compareNumbers xs) - 2 = 0)%nat).
  { rewrite arraySort_length. subst xs.
    pose proof (positions_length Placed.x farX placed []).
    simpl in *. lia. }
  assert (Hy : (length (arraySort compareNumbers ys) - 2 = 0)%nat).
  { rewrite arraySort_length. subst ys.
    pose proof (positions_length Placed.y farY placed []).
    simpl in *. lia. }
  rewrite Hx, Hy. reflexivity.
Qed.

(** X10.  Beam search and the hybrid search place at most one piece, and
    [generateCuts] cuts no outermost edge: whatever the two strategies return
    for pieces and a panel of positive size, the cut instructions made of its
    placed pieces are none. *)
Theorem beam_and_hybrid_generate_no_cuts
    (pieces : list OptimizationPiece) (panel : OptimizationPanel)
    (panels : list OptimizationPanel) (settings : OptimizationSettings) :
  Forall positive pieces -> positivePanel panel ->
  (forall result,
      BeamSearch.execute pieces (panel :: panels) settings = Ok result ->
      generateCuts (AlgorithmResult.placedPieces result) [panel] settings = [])
  /\ (forall result,
         HybridLocalSearch.execute pieces (panel :: panels) settings = Ok result ->
         generateCuts (AlgorithmResult.placedPieces result) [panel] settings = []).
Proof.
  intros Hpos Hpanel. split; intros result Hrun.
  - apply generateCuts_at_most_one.
    by destruct (beam_result_valid _ _ _ _ _ Hpos Hpanel Hrun).
  - apply generateCuts_at_most_one.
    injection Hrun as <-.
    by destruct (hybrid_result_valid pieces panel settings Hpos Hpanel).
Qed.

Lemma beam_and_hybrid_generate_no_cuts_witness :
  Forall positive [Samples.small] /\ positivePanel Samples.panel500x300
  /\ exists beamResult hybridResult,
      BeamSearch.execute [Samples.small] [Samples.panel500x300]
                         Samples.settings0 = Ok beamResult
      /\ HybridLocalSearch.execute [Samples.small] [Samples.panel500x300]
                                   Samples.settings0 = Ok hybridResult
      /\ length (AlgorithmResult.placedPieces beamResult) = 1%nat
      /\ length (AlgorithmResult.placedPieces hybridResult) = 1%nat
      /\ generateCuts (AlgorithmResult.placedPieces beamResult)
                      [Samples.panel500x300] Samples.settings0 = []
      /\ generateCuts (AlgorithmResult.placedPieces hybridResult)
                      [Samples.panel500x300] Samples.settings0 = [].
Proof.
  assert (Hpos : Forall positive [Samples.small]).
  { repeat constructor. }
  assert (Hpanel : positivePanel Samples.panel500x300).
  { split; reflexivity. }
  split; [exact Hpos|]. split; [exact Hpanel|].
  destruct (beam_and_hybrid_generate_no_cuts [Samples.small]
              Samples.panel500x300 [] Samples.settings0 Hpos Hpanel)
    as [Hbeam Hhybrid].
  destruct (BeamSearch.execute [Samples.small] [Samples.panel500x300]
                               Samples.settings0) as [beamResult|] eqn:Eb;
    [|vm_compute in Eb; discriminate].
  destruct (HybridLocalSearch.execute [Samples.small] [Samples.panel500x300]
                                      Samples.settings0)
    as [hybridResult|] eqn:Eh; [|vm_compute in Eh; discriminate].
  exists beamResult, hybridResult.
  split; [reflexivity|]. split; [reflexivity|].
  split; [vm_compute in Eb; by injection Eb as <-|].
  split; [vm_compute in Eh; by injection Eh as <-|].
  split; [by apply Hbeam | by apply Hhybrid].
Defined.

Lemma geneticCutAt_In type kerf sorted i cut :
  In cut (GeneticCuts.cutAt type kerf sorted i) ->
  exists current previous,
    sorted !! i = Some current /\ sorted !! (i - 1)%nat = Some previous
    /\ kerf < current - previous
    /\ cut = Cut.mk type (Some (previous + (current - previous) / 2))
                    (Some 0%nat).
Proof.
  unfold GeneticCuts.cutAt.
  destruct (sorted !! i) as [current|]; [|done].
  destruct (sorted !! (i - 1)%nat) as [previous|]; [|done].
  destruct (kerf <? current - previous) eqn:E; [|done].
  intros [<-|[]]. apply Qltb_lt in E. eauto 10.
Qed.

(** A cut of the genetic search along one axis runs through the middle of
    a gap between neighbouring coordinates, so it meets no coordinate. *)
Lemma genetic_axis_cuts type kerf (positions : list Q) cut :
  0 <= kerf ->
  let sorted := arraySort compareNumbers positions in
  In cut (flat_map (GeneticCuts.cutAt type kerf sorted)
                   (seq 1 (length sorted - 1))) ->
  exists v,
    cut = Cut.mk type (Some v) (Some 0%nat)
    /\ forall u c, In u positions -> u == c -> ~ v == c.
Proof.
  intros Hkerf sorted Hin.
  apply in_flat_map in Hin as (i & Hi & Hcut).
  apply in_seq in Hi.
  apply geneticCutAt_In in Hcut
    as (current & previous & Hcur & Hprev & Hgap & ->).
  eexists. split; [reflexivity|].
  intros u c Hu Huc Hvc.
  assert (Hsorted : ForallOrdPairs Qle sorted) by apply sorted_positions_le.
  assert (Hu' : u ∈ sorted).
  { apply list_elem_of_In. eapply Permutation_in; [|exact Hu].
    apply arraySort_Permutation. }
  apply list_elem_of_lookup_1 in Hu' as [j Hj].
  assert (Hmid : previous < previous + (current - previous) / 2
                 /\ previous + (current - previous) / 2 < current).
  { split.
    - assert (0 < (current - previous) / 2); [|lra].
      apply Qlt_shift_div_l; lra.
    - assert ((current - previous) / 2 < current - previous); [|lra].
      apply Qlt_shift_div_r; lra. }
  destruct (Nat.lt_ge_cases j i) as [Hlt|Hge].
  - assert (u <= previous).
    { destruct (Nat.eq_dec j (i - 1)%nat) as [->|Hne].
      - rewrite Hprev in Hj. injection Hj as ->. lra.
      - eapply (ForallOrdPairs_lookup Qle sorted j (i - 1)%nat); eauto. lia. }
    lra.
  - assert (current <= u).
    { destruct (Nat.eq_dec j i) as [->|Hne].
      - rewrite Hcur in Hj. injection Hj as ->. lra.
      - eapply (ForallOrdPairs_lookup Qle sorted i j); eauto. lia. }
    lra.
Qed.



(** ** First-Fit-Decreasing, continued *)

Section FirstFitFacts.
Import FirstFitDecreasing.

Lemma fitsIn_test piece rotated space :
  (fst (fitted piece rotated) <=? Rectangle.width space)
  && (snd (fitted piece rotated) <=? Rectangle.height space) = true
  <-> fitsIn piece rotated space.
Proof.
  unfold fitsIn. by rewrite andb_true_iff, !Qleb_le.
Qed.

Lemma findBestFitStep_fitted piece rotated best space :
  findBestFitStep piece rotated best space
  = if (fst (fitted piece rotated) <=? Rectangle.width space)
       && (snd (fitted piece rotated) <=? Rectangle.height space)
    then
      if improves (wasteIn piece rotated space) (snd best)
      then (Some (Rectangle.mk (Rectangle.x space) (Rectangle.y space)
                               (fst (fitted piece rotated))
                               (snd (fitted piece rotated))),
            Some (wasteIn piece rotated space))
      else best
    else best.
Proof.
  unfold findBestFitStep, wasteIn, fitted. destruct rotated; simpl.
  - reflexivity.
  - destruct (_ && _); [destruct (improves _ _)|]; reflexivity.
Qed.

Lemma findBestFitStep_bestSoFar piece rotated seen state space :
  bestSoFar piece rotated seen state ->
  bestSoFar piece rotated (seen ++ [space])
            (findBestFitStep piece rotated state space).
Proof.
  intros Hinv. rewrite findBestFitStep_fitted.
  destruct (_ && _) eqn:Efits.
  - apply fitsIn_test in Efits.
    destruct state as [[fit|] [bestWaste|]]; try done; simpl.
    + destruct Hinv as (best & Hin & Hfit & -> & -> & Hmin).
      destruct (wasteIn piece rotated space <? wasteIn piece rotated best)
        eqn:E.
      * apply Qltb_lt in E. exists space.
        split; [apply in_app_iff; right; by left|].
        split; [exact Efits|]. split; [reflexivity|]. split; [reflexivity|].
        intros other [Hother|[<-|[]]]%in_app_iff Hofit; [|lra].
        specialize (Hmin other Hother Hofit). lra.
      * apply Qltb_ge in E. exists best.
        split; [apply in_app_iff; by left|].
        split; [exact Hfit|]. split; [reflexivity|]. split; [reflexivity|].
        intros other [Hother|[<-|[]]]%in_app_iff Hofit; [|exact E].
        by apply Hmin.
    + exists space.
      split; [apply in_app_iff; right; by left|].
      split; [exact Efits|]. split; [reflexivity|]. split; [reflexivity|].
      intros other [Hother|[<-|[]]]%in_app_iff Hofit; [|lra].
      by destruct (Hinv other Hother).
  - assert (Hno : ~ fitsIn piece rotated space).
    { intros H. apply fitsIn_test in H. congruence. }
    destruct state as [[fit|] [bestWaste|]]; try done; simpl.
    + destruct Hinv as (best & Hin & Hfit & -> & -> & Hmin).
      exists best. split; [apply in_app_iff; by left|].
      split; [exact Hfit|]. split; [reflexivity|]. split; [reflexivity|].
      intros other [Hother|[<-|[]]]%in_app_iff Hofit; [by apply Hmin | done].
    + intros other [Hother|[<-|[]]]%in_app_iff; [by apply Hinv | exact Hno].
Qed.

Lemma findBestFit_bestSoFar piece rotated spaces :
  bestSoFar piece rotated spaces
            (fold_left (findBestFitStep piece rotated) spaces (None, None)).
Proof.
  assert (H : forall seen state,
             bestSoFar piece rotated seen state ->
             bestSoFar piece rotated (seen ++ spaces)
                       (fold_left (findBestFitStep piece rotated) spaces state)).
  { induction spaces as [|space spaces IH]; intros seen state Hinv; simpl.
    - by rewrite app_nil_r.
    - replace (seen ++ space :: spaces) with ((seen ++ [space]) ++ spaces)
        by (by rewrite <- app_assoc).
      by apply IH, findBestFitStep_bestSoFar. }
  apply (H [] (None, None)). intros space [].
Qed.

End FirstFitFacts.

(** X12.  [findBestFit] is a best-fit search: it returns nothing exactly when
    the piece fits no free rectangle in the orientation asked for; otherwise
    it returns the piece's footprint in the corner of a free rectangle that it
    fits and that leaves the least waste of all that it fits. *)
Theorem findBestFit_least_waste
    (piece : OptimizationPiece) (availableSpaces : list Rectangle)
    (rotated : bool) :
  match FirstFitDecreasing.findBestFit piece availableSpaces rotated with
  | None =>
      forall space, In space availableSpaces -> ~ fitsIn piece rotated space
  | Some fit =>
      exists space,
        In space availableSpaces /\ fitsIn piece rotated space
        /\ fit = Rectangle.mk (Rectangle.x space) (Rectangle.y space)
                              (fst (fitted piece rotated))
                              (snd (fitted piece rotated))
        /\ forall other,
             In other availableSpaces -> fitsIn piece rotated other ->
             wasteIn piece rotated space <= wasteIn piece rotated other
  end.
Proof.
  pose proof (findBestFit_bestSoFar piece rotated availableSpaces) as H.
  unfold FirstFitDecreasing.findBestFit.
  destruct (fold_left _ availableSpaces (None, None)) as [[fit|] [bestWaste|]];
    simpl in *; try done.
  destruct H as (space & Hin & Hfit & -> & _ & Hmin). eauto 10.
Qed.

Section FirstFitSheets.
Import FirstFitDecreasing.

Lemma findBestFit_corner piece spaces rotated fit :
  findBestFit piece spaces rotated = Some fit ->
  exists space,
    In space spaces /\ fitsIn piece rotated space
    /\ fit = Rectangle.mk (Rectangle.x space) (Rectangle.y space)
                          (fst (fitted piece rotated))
                          (snd (fitted piece rotated)).
Proof.
  pose proof (findBestFit_bestSoFar piece rotated spaces) as H.
  unfold findBestFit.
  destruct (fold_left _ spaces (None, None)) as [[fit'|] [bestWaste|]];
    simpl in *; try done.
  intros [= <-]. destruct H as (space & Hin & Hfit & -> & _). eauto.
Qed.

(** What [placeOnSheets] does when it places the piece: one sheet gets one
    more piece and its free space is split; the other sheets are kept. *)
Lemma placeOnSheets_Some piece kerf i sheets sheets' :
  placeOnSheets piece kerf i sheets = Some sheets' ->
  exists before sheet after fit rotated w h,
    sheets = before ++ sheet :: after
    /\ findBestFit piece (availableSpace sheet) rotated = Some fit
    /\ sheets'
       = before
         ++ occupy sheet (placedAt piece fit rotated (i + length before)) fit
                   w h kerf
         :: after.
Proof.
  revert i sheets'. induction sheets as [|sheet rest IH]; intros i sheets';
    [discriminate|].
  cbn [placeOnSheets].
  assert (Hnext : option_map (cons sheet) (placeOnSheets piece kerf (S i) rest)
                  = Some sheets' ->
                  exists before sheet0 after fit rotated w h,
                    sheet :: rest = before ++ sheet0 :: after
                    /\ findBestFit piece (availableSpace sheet0) rotated = Some fit
                    /\ sheets'
                       = before
                         ++ occupy sheet0
                              (placedAt piece fit rotated (i + length before))
                              fit w h kerf
                         :: after).
  { destruct (placeOnSheets piece kerf (S i) rest) as [rest'|] eqn:E;
      [|discriminate].
    intros [= <-].
    destruct (IH (S i) rest' E)
      as (before & sheet0 & after & fit & rotated & w & h & -> & Hfit & ->).
    exists (sheet :: before), sheet0, after, fit, rotated, w, h.
    split; [reflexivity|]. split; [exact Hfit|].
    simpl. by replace (i + S (length before))%nat
             with (S (i + length before))%nat by lia. }
  destruct (findBestFit piece (availableSpace sheet) false) as [fit|] eqn:E0.
  - intros [= <-].
    exists [], sheet, rest, fit, false, (Piece.width piece), (Piece.height piece).
    split; [reflexivity|]. split; [exact E0|].
    simpl. by rewrite Nat.add_0_r.
  - destruct (Piece.rotatable piece); [|exact Hnext].
    destruct (findBestFit piece (availableSpace sheet) true) as [fit|] eqn:E1;
      [|exact Hnext].
    intros [= <-].
    exists [], sheet, rest, fit, true, (Piece.height piece), (Piece.width piece).
    split; [reflexivity|]. split; [exact E1|].
    simpl. by rewrite Nat.add_0_r.
Qed.

(** What one iteration of the main loop does: the piece goes to an open
    sheet, or to a new sheet if it fits the panel unrotated, or nowhere. *)
Lemma placePiece_cases panel kerf sheets piece :
  (exists before sheet after fit rotated w h,
      sheets = before ++ sheet :: after
      /\ findBestFit piece (availableSpace sheet) rotated = Some fit
      /\ placePiece panel kerf sheets piece
         = before
           ++ occupy sheet (placedAt piece fit rotated (length before)) fit
                     w h kerf
           :: after)
  \/ (fitsIn piece false (wholePanel panel)
      /\ exists fit w h,
          findBestFit piece [wholePanel panel] false = Some fit
          /\ placePiece panel kerf sheets piece
             = sheets
               ++ [occupy (mkSheet [] [wholePanel panel])
                          (placedAt piece fit false (length sheets)) fit
                          w h kerf])
  \/ (~ fitsIn piece false (wholePanel panel)
      /\ placePiece panel kerf sheets piece = sheets).
Proof.
  unfold placePiece.
  destruct (placeOnSheets piece kerf 0 sheets) as [sheets'|] eqn:E.
  - left. apply placeOnSheets_Some in E. exact E.
  - right. cbn [availableSpace]. rewrite findBestFit_single.
    destruct (_ && _) eqn:Efits.
    + left. apply fitsIn_test in Efits. split; [exact Efits|]. eauto 10.
    + right. split; [|reflexivity].
      intros H. apply fitsIn_test in H. congruence.
Qed.

Lemma placedIds_occupy before sheet after placed fit w h kerf :
  Permutation
    (map Placed.id
         (flat_map placedPieces
                   (before ++ occupy sheet placed fit w h kerf :: after)))
    (Placed.id placed
     :: map Placed.id (flat_map placedPieces (before ++ sheet :: after))).
Proof.
  rewrite !flat_map_app. cbn [flat_map]. unfold occupy. cbn [placedPieces].
  rewrite !map_app. cbn [map].
  rewrite <- !app_assoc. cbn [app].
  rewrite <- !Permutation_middle. reflexivity.
Qed.

Lemma placePiece_ids panel kerf sheets piece :
  fitsIn piece false (wholePanel panel) ->
  Permutation
    (map Placed.id (flat_map placedPieces (placePiece panel kerf sheets piece)))
    (Piece.id piece :: map Placed.id (flat_map placedPieces sheets)).
Proof.
  intros Hfits.
  destruct (placePiece_cases panel kerf sheets piece)
    as [(before & sheet & after & fit & rotated & w & h & -> & _ & ->)
       |[(_ & fit & w & h & _ & ->) | [Hno _]]].
  - apply placedIds_occupy.
  - rewrite flat_map_app, map_app. simpl.
    by rewrite <- Permutation_middle, app_nil_r.
  - contradiction.
Qed.

Lemma runSheets_ids panel kerf pieces sheets :
  Forall (fun piece => fitsIn piece false (wholePanel panel)) pieces ->
  Permutation
    (map Placed.id
         (flat_map placedPieces (fold_left (placePiece panel kerf) pieces sheets)))
    (map Piece.id pieces ++ map Placed.id (flat_map placedPieces sheets)).
Proof.
  intros Hfits. revert sheets.
  induction Hfits as [|piece pieces Hpiece _ IH]; intros sheets; simpl;
    [reflexivity|].
  rewrite IH, (placePiece_ids _ _ _ _ Hpiece).
  by rewrite <- Permutation_middle.
Qed.

Lemma notPlacedById_nil placed pieces :
  (forall piece, In piece pieces -> In (Piece.id piece) (map Placed.id placed)) ->
  notPlacedById placed pieces = [].
Proof.
  intros Hall. unfold notPlacedById.
  induction pieces as [|piece pieces IH]; [reflexivity|].
  simpl.
  assert (E : existsb (fun p => String.eqb (Placed.id p) (Piece.id piece)) placed
              = true).
  { apply existsb_exists.
    pose proof (Hall piece (or_introl eq_refl)) as Hin.
    apply in_map_iff in Hin as (p & Hid & Hp).
    exists p. split; [exact Hp|]. by apply String.eqb_eq. }
  rewrite E. simpl. apply IH. intros p Hp. apply Hall. by right.
Qed.

End FirstFitSheets.

(** X13.  First-Fit-Decreasing places every unit of every piece that fits the
    panel unrotated: the placed pieces carry exactly the identifiers of the
    expanded pieces, and nothing is reported unused. *)
Theorem firstFit_places_every_fitting_piece
    (pieces : list OptimizationPiece) (panel : OptimizationPanel)
    (panels : list OptimizationPanel) (settings : OptimizationSettings) :
  Forall (fun piece => Piece.width piece <= Panel.width panel
                       /\ Piece.height piece <= Panel.height panel) pieces ->
  exists result,
    FirstFitDecreasing.execute pieces (panel :: panels) settings = Ok result
    /\ Permutation (map Placed.id (AlgorithmResult.placedPieces result))
                   (map Piece.id (expandPieces pieces))
    /\ length (AlgorithmResult.placedPieces result)
       = length (expandPieces pieces)
    /\ AlgorithmResult.unusedPieces result = [].
Proof.
  intros Hfit. eexists. split; [reflexivity|].
  cbn [FirstFitDecreasing.runOptimization AlgorithmResult.placedPieces
       AlgorithmResult.unusedPieces].
  set (sorted := sortPiecesByPriority (expandPieces pieces)).
  set (sheets := fold_left _ _ _).
  assert (Hsorted : Permutation (expandPieces pieces) sorted)
    by apply arraySort_Permutation.
  assert (Hfits : Forall (fun piece => fitsIn piece false (wholePanel panel))
                         (arraySort FirstFitDecreasing.compareArea sorted)).
  { eapply Permutation_Forall; [apply arraySort_Permutation|].
    eapply Permutation_Forall; [exact Hsorted|].
    apply Forall_forall. intros unit Hin.
    apply expandPieces_In in Hin as (piece & Hin & ->).
    rewrite Forall_forall in Hfit. exact (Hfit piece Hin). }
  assert (Hids : Permutation
                   (map Placed.id
                        (flat_map FirstFitDecreasing.placedPieces sheets))
                   (map Piece.id sorted)).
  { subst sheets. rewrite (runSheets_ids _ _ _ _ Hfits). simpl.
    rewrite app_nil_r. apply Permutation_map. symmetry.
    apply arraySort_Permutation. }
  split; [|split].
  - rewrite Hids. apply Permutation_map. by symmetry.
  - apply Permutation_length in Hids. rewrite !length_map in Hids.
    rewrite Hids. symmetry. by apply Permutation_length.
  - apply notPlacedById_nil. intros piece Hin.
    eapply Permutation_in; [symmetry; exact Hids|]. by apply in_map.
Qed.

Lemma firstFit_places_every_fitting_piece_witness :
  Forall (fun piece => Piece.width piece <= Panel.width Samples.panel150x100
                       /\ Piece.height piece <= Panel.height Samples.panel150x100)
         [Samples.twoSquares]
  /\ exists result,
      FirstFitDecreasing.execute [Samples.twoSquares] [Samples.panel150x100]
                                 Samples.settings0 = Ok result
      /\ length (AlgorithmResult.placedPieces result) = 2%nat
      /\ AlgorithmResult.unusedPieces result = []
      /\ AlgorithmResult.sheetCount result = 2%Z.
Proof.
  assert (H : Forall (fun piece =>
                        Piece.width piece <= Panel.width Samples.panel150x100
                        /\ Piece.height piece
                           <= Panel.height Samples.panel150x100)
                     [Samples.twoSquares]).
  { constructor; [|constructor]. split; simpl; lra. }
  split; [exact H|].
  destruct (firstFit_places_every_fitting_piece [Samples.twoSquares]
              Samples.panel150x100 [] Samples.settings0 H)
    as (result & Hrun & _ & Hlen & Hunused).
  exists result. split; [exact Hrun|]. split; [exact Hlen|].
  split; [exact Hunused|].
  vm_compute in Hrun. by injection Hrun as <-.
Defined.

Section FirstFitInvariants.
Import FirstFitDecreasing.

Lemma numberedFrom_app i l1 l2 :
  numberedFrom i (l1 ++ l2)
  <-> numberedFrom i l1 /\ numberedFrom (i + length l1) l2.
Proof.
  revert i. induction l1 as [|sheet l1 IH]; intros i; simpl.
  - rewrite Nat.add_0_r. tauto.
  - rewrite IH. replace (i + S (length l1))%nat with (S i + length l1)%nat by lia.
    tauto.
Qed.

Lemma placePiece_numbered panel kerf sheets piece :
  numberedFrom 0 sheets -> numberedFrom 0 (placePiece panel kerf sheets piece).
Proof.
  intros Hnum.
  destruct (placePiece_cases panel kerf sheets piece)
    as [(before & sheet & after & fit & rotated & w & h & -> & _ & ->)
       |[(_ & fit & w & h & _ & ->) | [_ ->]]].
  - apply numberedFrom_app in Hnum as [Hbefore [Hsheet Hafter]].
    apply numberedFrom_app. split; [exact Hbefore|].
    split; [|exact Hafter].
    unfold occupy. cbn [placedPieces]. apply Forall_app. split; [exact Hsheet|].
    by repeat constructor.
  - apply numberedFrom_app. split; [exact Hnum|]. simpl.
    split; [|done]. by repeat constructor.
  - exact Hnum.
Qed.

Lemma placePiece_length panel kerf sheets piece :
  (length sheets <= length (placePiece panel kerf sheets piece))%nat.
Proof.
  destruct (placePiece_cases panel kerf sheets piece)
    as [(before & sheet & after & fit & rotated & w & h & -> & _ & ->)
       |[(_ & fit & w & h & _ & ->) | [_ ->]]];
    rewrite ?length_app; simpl; lia.
Qed.

Lemma runSheets_numbered panel kerf pieces sheets :
  numberedFrom 0 sheets ->
  numberedFrom 0 (fold_left (placePiece panel kerf) pieces sheets)
  /\ (length sheets
      <= length (fold_left (placePiece panel kerf) pieces sheets))%nat.
Proof.
  revert sheets. induction pieces as [|piece pieces IH]; intros sheets Hnum;
    simpl; [by split|].
  destruct (IH _ (placePiece_numbered panel kerf sheets piece Hnum))
    as [Hnum' Hlen].
  split; [exact Hnum'|].
  pose proof (placePiece_length panel kerf sheets piece). lia.
Qed.

Lemma numberedFrom_bound i sheets :
  numberedFrom i sheets ->
  Forall (fun p => exists k, Placed.sheetNumber p = Some k
                             /\ (i <= k < i + length sheets)%nat)
         (flat_map placedPieces sheets).
Proof.
  revert i. induction sheets as [|sheet rest IH]; intros i; simpl;
    [constructor|].
  intros [Hsheet Hrest]. apply Forall_app. split.
  - eapply Forall_impl; [|exact Hsheet].
    intros p Hp. exists i. split; [exact Hp | lia].
  - eapply Forall_impl; [|exact (IH (S i) Hrest)].
    intros p (k & Hk & Hrange). exists k. split; [exact Hk | lia].
Qed.

Lemma splitOne_leftAligned panel placedPiece space :
  0 < Panel.width panel ->
  Rectangle.x placedPiece = 0 -> 0 < Rectangle.width placedPiece ->
  Rectangle.x space = 0 /\ Rectangle.width space = Panel.width panel ->
  Forall (fun r => Rectangle.x r = 0 /\ Rectangle.width r = Panel.width panel)
         (splitOne placedPiece space).
Proof.
  intros HW Hx Hw [Hsx Hsw]. unfold splitOne.
  rewrite Hx, Hsx, Hsw.
  assert (E : (0 <? 0 + Panel.width panel)
              && (0 <? 0 + Rectangle.width placedPiece) = true).
  { rewrite andb_true_iff, !Qltb_lt. lra. }
  rewrite E. clear E. apply Forall_app. unfold pushIf.
  split; destruct (_ <? _); constructor; try constructor; by simpl.
Qed.

Lemma occupy_leftAligned panel sheet placed fit w h kerf :
  0 < Panel.width panel ->
  leftAligned panel sheet ->
  Placed.x placed = 0 ->
  Rectangle.x fit = 0 -> 0 < Rectangle.width fit ->
  leftAligned panel (occupy sheet placed fit w h kerf).
Proof.
  intros HW [Hplaced Hspaces] Hpx Hx Hw. split.
  - cbn [occupy placedPieces]. apply Forall_app. split; [exact Hplaced|].
    by repeat constructor.
  - cbn [occupy availableSpace]. unfold FirstFitDecreasing.splitSpace.
    induction Hspaces as [|space spaces Hspace _ IH]; simpl; [constructor|].
    apply Forall_app. split; [|exact IH].
    by apply splitOne_leftAligned.
Qed.

Lemma fitted_positive piece rotated :
  positive piece -> 0 < fst (fitted piece rotated).
Proof. intros [Hw Hh]. unfold fitted. by destruct rotated. Qed.

Lemma placePiece_leftAligned panel kerf sheets piece :
  0 < Panel.width panel -> positive piece ->
  Forall (leftAligned panel) sheets ->
  Forall (leftAligned panel) (placePiece panel kerf sheets piece).
Proof.
  intros HW Hpos Hall.
  destruct (placePiece_cases panel kerf sheets piece)
    as [(before & sheet & after & fit & rotated & w & h & -> & Hfit & ->)
       |[(_ & fit & w & h & Hfit & ->) | [_ ->]]].
  - apply Forall_app in Hall as [Hbefore Hrest].
    inversion Hrest as [|? ? Hsheet Hafter]; subst.
    apply Forall_app. split; [exact Hbefore|]. constructor; [|exact Hafter].
    apply findBestFit_corner in Hfit as (space & Hin & _ & ->).
    destruct Hsheet as [Hplaced Hspaces].
    pose proof Hspaces as Hspaces'. rewrite Forall_forall in Hspaces'.
    destruct (Hspaces' space Hin) as [Hsx _].
    apply occupy_leftAligned; try done.
    simpl. by apply fitted_positive.
  - apply Forall_app. split; [exact Hall|]. constructor; [|constructor].
    apply findBestFit_corner in Hfit as (space & [<-|[]] & _ & ->).
    apply occupy_leftAligned; try done.
    + split; [constructor|]. by repeat constructor.
    + exact (fitted_positive piece false Hpos).
  - exact Hall.
Qed.

Lemma runSheets_leftAligned panel kerf pieces sheets :
  0 < Panel.width panel -> Forall positive pieces ->
  Forall (leftAligned panel) sheets ->
  Forall (leftAligned panel) (fold_left (placePiece panel kerf) pieces sheets).
Proof.
  intros HW Hpos. revert sheets.
  induction Hpos as [|piece pieces Hpiece _ IH]; intros sheets Hall; simpl;
    [exact Hall|].
  by apply IH, placePiece_leftAligned.
Qed.

End FirstFitInvariants.

(** X14.  In every result of First-Fit-Decreasing the sheet count is at least
    1, every placed piece carries the number of a counted sheet, and the total
    area is that of as many panels. *)
Theorem firstFit_sheet_numbers_below_count
    (pieces : list OptimizationPiece) (panel : OptimizationPanel)
    (panels : list OptimizationPanel) (settings : OptimizationSettings) :
  exists result,
    FirstFitDecreasing.execute pieces (panel :: panels) settings = Ok result
    /\ (1 <= AlgorithmResult.sheetCount result)%Z
    /\ Forall (fun p => exists k, Placed.sheetNumber p = Some k
                                  /\ (Z.of_nat k
                                      < AlgorithmResult.sheetCount result)%Z)
              (AlgorithmResult.placedPieces result)
    /\ AlgorithmResult.totalArea result
       = Panel.width panel * Panel.height panel
         * inject_Z (AlgorithmResult.sheetCount result).
Proof.
  eexists. split; [reflexivity|].
  cbn [FirstFitDecreasing.runOptimization AlgorithmResult.placedPieces
       AlgorithmResult.sheetCount AlgorithmResult.totalArea].
  set (sheets := fold_left _ _ _).
  destruct (runSheets_numbered panel (Settings.kerf settings)
              (arraySort FirstFitDecreasing.compareArea
                         (sortPiecesByPriority (expandPieces pieces)))
              [FirstFitDecreasing.mkSheet [] [wholePanel panel]])
    as [Hnum Hlen]; [by repeat constructor|].
  fold sheets in Hnum, Hlen. simpl in Hlen.
  split; [lia|]. split; [|reflexivity].
  eapply Forall_impl; [|exact (numberedFrom_bound 0 sheets Hnum)].
  intros p (k & Hk & Hrange). exists k. split; [exact Hk | lia].
Qed.

(** X15.  First-Fit-Decreasing builds one column per sheet: for pieces of
    positive size and a panel of positive width, every placed piece sits at
    the left edge of its sheet. *)
Theorem firstFit_stacks_at_left_edge
    (pieces : list OptimizationPiece) (panel : OptimizationPanel)
    (panels : list OptimizationPanel) (settings : OptimizationSettings) :
  Forall positive pieces -> 0 < Panel.width panel ->
  exists result,
    FirstFitDecreasing.execute pieces (panel :: panels) settings = Ok result
    /\ Forall (fun p => Placed.x p = 0) (AlgorithmResult.placedPieces result).
Proof.
  intros Hpos HW. eexists. split; [reflexivity|].
  cbn [FirstFitDecreasing.runOptimization AlgorithmResult.placedPieces].
  set (sheets := fold_left _ _ _).
  assert (Hall : Forall (leftAligned panel) sheets).
  { apply runSheets_leftAligned; [exact HW| |].
    - eapply Permutation_Forall; [apply arraySort_Permutation|].
      by apply positive_preprocessed.
    - constructor; [|constructor]. split; [constructor|].
      by repeat constructor. }
  clearbody sheets. induction Hall as [|sheet rest [Hsheet _] _ IH]; simpl;
    [constructor|].
  apply Forall_app. by split.
Qed.

Lemma firstFit_stacks_at_left_edge_witness :
  Forall positive [Samples.twoSquares; Samples.small]
  /\ 0 < Panel.width Samples.panel500x300
  /\ exists result,
      FirstFitDecreasing.execute [Samples.twoSquares; Samples.small]
                                 [Samples.panel500x300] Samples.settings0
      = Ok result
      /\ map (fun p => (Placed.x p, Placed.y p))
             (AlgorithmResult.placedPieces result)
         = [(0, 0); (0, 100); (0, 200)].
Proof.
  assert (Hpos : Forall positive [Samples.twoSquares; Samples.small]).
  { repeat constructor. }
  assert (HW : 0 < Panel.width Samples.panel500x300) by reflexivity.
  split; [exact Hpos|]. split; [exact HW|].
  destruct (firstFit_stacks_at_left_edge [Samples.twoSquares; Samples.small]
              Samples.panel500x300 [] Samples.settings0 Hpos HW)
    as (result & Hrun & _).
  exists result. split; [exact Hrun|].
  vm_compute in Hrun. injection Hrun as <-. vm_compute. reflexivity.
Defined.

(** ** The hybrid search, continued *)

Section HybridFacts.
Import HybridLocalSearch.

Lemma hybrid_canPlacePiece_fitsIn piece space rotated :
  canPlacePiece piece space rotated = true <-> fitsIn piece rotated space.
Proof.
  unfold canPlacePiece, fitsIn, fitted.
  rewrite andb_true_iff, !Qleb_le. by destruct rotated.
Qed.

Lemma hybrid_canPlacePiece_false piece space rotated :
  canPlacePiece piece space rotated = false <-> ~ fitsIn piece rotated space.
Proof.
  rewrite <- hybrid_canPlacePiece_fitsIn.
  destruct (canPlacePiece piece space rotated); split; done.
Qed.

Lemma tryFirstSpace_unfit panel objects sheet piece i :
  ~ fitsPanel panel piece ->
  tryFirstSpace objects sheet piece (wholePanel panel) i = None.
Proof.
  intros Hno. unfold tryFirstSpace.
  destruct (canPlacePiece piece (wholePanel panel) false) eqn:E0.
  - exfalso. apply Hno. left. by apply hybrid_canPlacePiece_fitsIn.
  - destruct (Piece.rotatable piece) eqn:Er; [|reflexivity].
    destruct (canPlacePiece piece (wholePanel panel) true) eqn:E1;
      [|reflexivity].
    exfalso. apply Hno. right. split; [exact Er|].
    by apply hybrid_canPlacePiece_fitsIn.
Qed.

Lemma tryFirstSpace_fit panel objects sheet piece i :
  fitsPanel panel piece ->
  tryFirstSpace objects sheet piece (wholePanel panel) i
  = Some (placeIn objects sheet piece (wholePanel panel)
                  (negb (canPlacePiece piece (wholePanel panel) false)) i).
Proof.
  intros Hfit. unfold tryFirstSpace.
  destruct (canPlacePiece piece (wholePanel panel) false) eqn:E0;
    [reflexivity|].
  destruct Hfit as [H|[Hr H]].
  - apply hybrid_canPlacePiece_fitsIn in H. congruence.
  - apply hybrid_canPlacePiece_fitsIn in H. by rewrite Hr, H.
Qed.

Lemma constructiveStep_unfit panel piece :
  ~ fitsPanel panel piece ->
  constructiveStep panel ([], initialState panel) piece = ([], initialState panel).
Proof.
  intros Hno. unfold constructiveStep, initialState. simpl.
  rewrite (tryFirstSpace_unfit _ _ _ _ _ Hno).
  unfold placeElsewhere. simpl.
  rewrite (tryFirstSpace_unfit _ _ _ _ _ Hno).
  destruct (canPlacePiece piece (wholePanel panel) false) eqn:E0;
    [|reflexivity].
  exfalso. apply Hno. left. by apply hybrid_canPlacePiece_fitsIn.
Qed.

Lemma constructiveStep_fit panel piece :
  fitsPanel panel piece ->
  constructiveStep panel ([], initialState panel) piece
  = ([placePiece piece (wholePanel panel)
                 (negb (canPlacePiece piece (wholePanel panel) false)) 0],
     mkState [mkSheet [0%nat] []] 0).
Proof.
  intros Hfit. unfold constructiveStep, initialState. simpl.
  rewrite (tryFirstSpace_fit _ _ _ _ _ Hfit).
  unfold placeIn. simpl. by rewrite splitSpace_self.
Qed.

Lemma constructivePlacement_full panel objects placements pieces :
  constructivePlacement panel objects (mkState [mkSheet placements []] 0) pieces
  = (objects, mkState [mkSheet placements []] 0).
Proof.
  unfold constructivePlacement.
  induction pieces as [|piece pieces IH]; [reflexivity|]. simpl. exact IH.
Qed.

Lemma constructivePlacement_unfit panel pieces :
  Forall (fun piece => ~ fitsPanel panel piece) pieces ->
  constructivePlacement panel [] (initialState panel) pieces = ([], initialState panel).
Proof.
  unfold constructivePlacement.
  induction 1 as [|piece pieces Hno _ IH]; [reflexivity|].
  cbn [fold_left]. by rewrite (constructiveStep_unfit _ _ Hno).
Qed.

Lemma constructivePlacement_first_fit panel skipped piece rest :
  Forall (fun piece => ~ fitsPanel panel piece) skipped ->
  fitsPanel panel piece ->
  constructivePlacement panel [] (initialState panel) (skipped ++ piece :: rest)
  = ([placePiece piece (wholePanel panel)
                 (negb (canPlacePiece piece (wholePanel panel) false)) 0],
     mkState [mkSheet [0%nat] []] 0).
Proof.
  intros Hskipped Hfit. unfold constructivePlacement.
  rewrite fold_left_app.
  pose proof (constructivePlacement_unfit panel skipped Hskipped) as E.
  unfold constructivePlacement in E. rewrite E. cbn [fold_left].
  rewrite (constructiveStep_fit _ _ Hfit).
  apply constructivePlacement_full.
Qed.

Lemma localSearch_single_sheet objects sheet panel :
  localSearchImprovement objects (mkState [sheet] 0) panel = objects.
Proof.
  unfold localSearchImprovement, maxIterations.
  rewrite improveLoop_one_pass, swapPass_few_sheets; [reflexivity|].
  simpl. lia.
Qed.

Lemma hybrid_run_first_fit panel settings skipped piece rest :
  Forall (fun piece => ~ fitsPanel panel piece) skipped ->
  fitsPanel panel piece ->
  let placement :=
    placePiece piece (wholePanel panel)
               (negb (canPlacePiece piece (wholePanel panel) false)) 0 in
  AlgorithmResult.placedPieces
    (runOptimization (skipped ++ piece :: rest) panel settings) = [placement]
  /\ AlgorithmResult.unusedPieces
       (runOptimization (skipped ++ piece :: rest) panel settings)
     = notPlacedById [placement] (skipped ++ piece :: rest)
  /\ AlgorithmResult.sheetCount
       (runOptimization (skipped ++ piece :: rest) panel settings) = 1%Z.
Proof.
  intros Hskipped Hfit placement. unfold runOptimization.
  pose proof (constructivePlacement_first_fit panel skipped piece rest
                Hskipped Hfit) as E.
  unfold initialState in E. rewrite E.
  rewrite localSearch_single_sheet. by cbn.
Qed.

Lemma hybrid_run_unfit panel settings pieces :
  Forall (fun piece => ~ fitsPanel panel piece) pieces ->
  AlgorithmResult.placedPieces (runOptimization pieces panel settings) = []
  /\ AlgorithmResult.unusedPieces (runOptimization pieces panel settings)
     = pieces
  /\ AlgorithmResult.sheetCount (runOptimization pieces panel settings) = 1%Z.
Proof.
  intros Hno. unfold runOptimization.
  pose proof (constructivePlacement_unfit panel pieces Hno) as E.
  unfold initialState in E. rewrite E.
  rewrite localSearch_single_sheet. cbn.
  split; [reflexivity|]. split; [|reflexivity].
  unfold notPlacedById. simpl. clear. induction pieces as [|p l IH]; simpl;
    [reflexivity | by rewrite IH].
Qed.

End HybridFacts.

(** X16.  The hybrid search places one piece at most, whatever the quantities:
    the first piece of the request, in request order, that fits the empty
    panel (turned only if it does not fit as it is and may rotate) is put at
    the origin of sheet 0; every piece with another identifier is reported
    unused. If no piece fits, nothing is placed and all pieces are reported
    unused. *)
Theorem hybrid_places_first_fitting_piece_only
    (skipped : list OptimizationPiece) (panel : OptimizationPanel)
    (panels : list OptimizationPanel) (settings : OptimizationSettings) :
  Forall (fun piece => ~ fitsPanel panel piece) skipped ->
  (exists result,
      HybridLocalSearch.execute skipped (panel :: panels) settings = Ok result
      /\ AlgorithmResult.placedPieces result = []
      /\ AlgorithmResult.unusedPieces result = skipped
      /\ AlgorithmResult.sheetCount result = 1%Z)
  /\ forall piece rest,
      fitsPanel panel piece ->
      exists result,
        HybridLocalSearch.execute (skipped ++ piece :: rest) (panel :: panels)
                                  settings = Ok result
        /\ AlgorithmResult.placedPieces result
           = [HybridLocalSearch.placePiece piece (wholePanel panel)
                (negb (HybridLocalSearch.canPlacePiece piece (wholePanel panel)
                                                       false)) 0]
        /\ AlgorithmResult.unusedPieces result
           = List.filter
               (fun other =>
                  negb (String.eqb (Piece.id piece) (Piece.id other)))
               (skipped ++ piece :: rest)
        /\ AlgorithmResult.sheetCount result = 1%Z.
Proof.
  intros Hskipped. split.
  - eexists. split; [reflexivity|]. by apply hybrid_run_unfit.
  - intros piece rest Hfit. eexists. split; [reflexivity|].
    destruct (hybrid_run_first_fit panel settings skipped piece rest
                Hskipped Hfit) as (Hplaced & Hunused & Hcount).
    split; [exact Hplaced|]. split; [|exact Hcount].
    rewrite Hunused. unfold notPlacedById. apply filter_ext.
    intros other. simpl. by rewrite orb_false_r.
Qed.

Lemma hybrid_places_first_fitting_piece_only_witness :
  Forall (fun piece => ~ fitsPanel Samples.panel500x300 piece) [Samples.huge]
  /\ fitsPanel Samples.panel500x300 Samples.twoSquares
  /\ exists result,
      HybridLocalSearch.execute
        [Samples.huge; Samples.twoSquares; Samples.small]
        [Samples.panel500x300] Samples.settings0 = Ok result
      /\ map Placed.id (AlgorithmResult.placedPieces result)
         = ["square"%string]
      /\ AlgorithmResult.unusedPieces result = [Samples.huge; Samples.small].
Proof.
  assert (Hskipped : Forall (fun piece => ~ fitsPanel Samples.panel500x300 piece)
                            [Samples.huge]).
  { constructor; [|constructor].
    intros [[H _]|[_ [H _]]]; simpl in H; lra. }
  assert (Hfit : fitsPanel Samples.panel500x300 Samples.twoSquares).
  { left. split; simpl; lra. }
  split; [exact Hskipped|]. split; [exact Hfit|].
  destruct (hybrid_places_first_fitting_piece_only [Samples.huge]
              Samples.panel500x300 [] Samples.settings0 Hskipped)
    as [_ Hrun].
  destruct (Hrun Samples.twoSquares [Samples.small] Hfit)
    as (result & Hexec & Hplaced & Hunused & _).
  exists result. split; [exact Hexec|].
  split; [by rewrite Hplaced | by rewrite Hunused].
Defined.

(** ** Beam search, continued *)

Section BeamFacts.
Import BeamSearch.

Lemma beam_canPlacePiece_fitsIn piece space rotated :
  canPlacePiece piece space rotated = true <-> fitsIn piece rotated space.
Proof.
  unfold canPlacePiece, fitsIn, fitted.
  rewrite andb_true_iff, !Qleb_le. by destruct rotated.
Qed.

(** The candidates of the first step for a piece that fits the panel: the
    unrotated one comes first when it exists. *)
Lemma firstChildren_head kerf piece panel loc :
  fitsPanel panel piece ->
  exists spaces others,
    take beamWidth
         (arraySort compareScore
            (childrenAt kerf (Node.mk [] [wholePanel panel] 0 0) piece loc
                        (wholePanel panel) ++ []))
    = Node.mk [placePiece piece (wholePanel panel)
                          (negb (canPlacePiece piece (wholePanel panel) false)) 0]
              spaces loc
              (0 + calculateEfficiency
                     (placePiece piece (wholePanel panel)
                        (negb (canPlacePiece piece (wholePanel panel) false)) 0))
      :: others.
Proof.
  intros Hfit. rewrite app_nil_r. unfold childrenAt.
  cbn [Node.placedPieces Node.availableSpaces Node.score app].
  destruct (canPlacePiece piece (wholePanel panel) false) eqn:E0.
  - destruct (Piece.rotatable piece && canPlacePiece piece (wholePanel panel) true).
    + cbn [app arraySort foldr sortInsert].
      assert (E : (compareScore
                     (Node.mk [placePiece piece (wholePanel panel) false 0]
                        (splitSpace [wholePanel panel] (wholePanel panel)
                           (Piece.width piece) (Piece.height piece) kerf) loc
                        (0 + calculateEfficiency
                               (placePiece piece (wholePanel panel) false 0)))
                     (Node.mk [placePiece piece (wholePanel panel) true 0]
                        (splitSpace [wholePanel panel] (wholePanel panel)
                           (Piece.height piece) (Piece.width piece) kerf) loc
                        (0 + calculateEfficiency
                               (placePiece piece (wholePanel panel) true 0)))
                   <=? 0) = true).
      { apply Qleb_le. unfold compareScore, calculateEfficiency. simpl. lra. }
      rewrite E. simpl. eauto.
    + simpl. eauto.
  - destruct Hfit as [H|[Hr H]].
    + apply beam_canPlacePiece_fitsIn in H. congruence.
    + apply beam_canPlacePiece_fitsIn in H. rewrite Hr, H. simpl. eauto.
Qed.

Lemma runOptimization_single unit panel settings :
  fitsPanel panel unit ->
  exists result,
    runOptimization [unit] panel settings = Ok result
    /\ AlgorithmResult.placedPieces result
       = [placePiece unit (wholePanel panel)
                     (negb (canPlacePiece unit (wholePanel panel) false)) 0]
    /\ AlgorithmResult.unusedPieces result = [unit]
    /\ AlgorithmResult.sheetCount result = 1%Z.
Proof.
  intros Hfit. unfold runOptimization.
  change (length [unit]) with 1%nat.
  rewrite search_from_one.
  rewrite (expandNode_step _ _ _ _ unit []) by reflexivity.
  cbn [fst snd app Node.availableSpaces flat_map length search].
  destruct (firstChildren_head (Settings.kerf settings) unit panel 1 Hfit)
    as (spaces & others & ->).
  eexists. split; [reflexivity|]. by cbn.
Qed.

End BeamFacts.

(** X17.  Beam search double-books the only piece it can place: for a request
    of one unit piece that fits the panel (turned only if it does not fit as
    it is and may rotate), the piece is returned as placed at the origin and
    is listed in [unusedPieces] as well. *)
Theorem beam_single_piece_placed_and_unused
    (piece : OptimizationPiece) (panel : OptimizationPanel)
    (panels : list OptimizationPanel) (settings : OptimizationSettings) :
  Piece.quantity piece = 1%Z ->
  fitsPanel panel piece ->
  exists result,
    BeamSearch.execute [piece] (panel :: panels) settings = Ok result
    /\ AlgorithmResult.placedPieces result
       = [BeamSearch.placePiece piece (wholePanel panel)
            (negb (BeamSearch.canPlacePiece piece (wholePanel panel) false)) 0]
    /\ AlgorithmResult.unusedPieces result = [piece]
    /\ AlgorithmResult.sheetCount result = 1%Z.
Proof.
  intros Hq Hfit. unfold BeamSearch.execute.
  rewrite (expandPieces_unit piece Hq), sortPiecesByPriority_singleton.
  by apply runOptimization_single.
Qed.

Lemma beam_single_piece_placed_and_unused_witness :
  Piece.quantity Samples.turning = 1%Z
  /\ fitsPanel Samples.panel500x300 Samples.turning
  /\ exists result,
      BeamSearch.execute [Samples.turning] [Samples.panel500x300]
                         Samples.settings0 = Ok result
      /\ map (fun p => (Placed.id p, Placed.rotated p))
             (AlgorithmResult.placedPieces result)
         = [("turning"%string, true)]
      /\ AlgorithmResult.unusedPieces result = [Samples.turning].
Proof.
  assert (Hq : Piece.quantity Samples.turning = 1%Z) by reflexivity.
  assert (Hfit : fitsPanel Samples.panel500x300 Samples.turning).
  { right. split; [reflexivity|]. split; simpl; lra. }
  split; [exact Hq|]. split; [exact Hfit|].
  destruct (beam_single_piece_placed_and_unused Samples.turning
              Samples.panel500x300 [] Samples.settings0 Hq Hfit)
    as (result & Hrun & Hplaced & Hunused & _).
  exists result. split; [exact Hrun|].
  split; [by rewrite Hplaced | exact Hunused].
Defined.

(** ** Requests with nothing to place *)



Section GeneticNothingFits.
Import Genetic.
Variable random : nat -> Q.
Hypothesis random_unit : forall n, 0 <= random n /\ random n < 1.

Lemma runOptimization_nothing_fits pieces panel panels settings :
  Forall (fun piece => tooLarge piece panel) pieces ->
  returns (runOptimization random pieces (panel :: panels) settings)
          (fun result =>
             result
             = AlgorithmResult.mk [] [] 0 (Panel.height panel * Panel.width panel)
                 0 (Panel.height panel * Panel.width panel - 0) 0 name).
Proof.
  intros Hall. unfold runOptimization.
  eapply returns_bind.
  { apply returns_conj.
    - by apply returns_initializePopulationFrom.
    - apply initializePopulationFrom_tooLarge;
        [exact random_unit | by apply tooLarge_preprocessed | constructor]. }
  intros population0 [Hlen Hempty].
  assert (Hne : population0 <> []).
  { intros ->. simpl in Hlen. unfold populationSize in Hlen. lia. }
  eapply returns_bind.
  { apply returns_conj; [by apply returns_evolve | by apply evolve_empty]. }
  intros [|bestSolution others] [Hne' Hempty']; [congruence|].
  inversion Hempty'; subst.
  eapply returns_bind; [apply returns_getObjects|]. intros objects _.
  by apply returns_ret.
Qed.

End GeneticNothingFits.

(** X19.  For a request none of whose pieces fits the panel in any
    orientation, an empty request included, the genetic search returns a
    result without placed and without unused pieces that counts no sheet at
    all, while its total area is that of one panel. *)
Theorem genetic_counts_no_sheet_when_nothing_fits
    (random : nat -> Q) (pieces : list OptimizationPiece)
    (panel : OptimizationPanel) (panels : list OptimizationPanel)
    (settings : OptimizationSettings) :
  (forall n, 0 <= random n /\ random n < 1) ->
  Forall (fun piece => tooLarge piece panel) pieces ->
  Genetic.execute random pieces (panel :: panels) settings
  = Ok (AlgorithmResult.mk [] [] 0 (Panel.height panel * Panel.width panel)
          0 (Panel.height panel * Panel.width panel - 0) 0 Genetic.name).
Proof.
  intros Hrandom Hall. unfold Genetic.execute.
  destruct (runOptimization_nothing_fits random Hrandom pieces panel panels
              settings Hall (Genetic.mkWorld 0 []))
    as (result & w & -> & ->).
  reflexivity.
Qed.

Lemma genetic_counts_no_sheet_when_nothing_fits_witness :
  (forall n : nat, 0 <= (fun _ : nat => 0) n /\ (fun _ : nat => 0) n < 1)
  /\ Forall (fun piece => tooLarge piece Samples.panel500x300) [Samples.huge]
  /\ exists result,
      Genetic.execute (fun _ => 0) [Samples.huge] [Samples.panel500x300]
                      Samples.settings0 = Ok result
      /\ AlgorithmResult.placedPieces result = []
      /\ AlgorithmResult.unusedPieces result = []
      /\ AlgorithmResult.sheetCount result = 0%Z.
Proof.
  assert (Hrandom : forall n : nat,
             0 <= (fun _ : nat => 0) n /\ (fun _ : nat => 0) n < 1).
  { intros _. split; [apply Qle_refl | reflexivity]. }
  assert (Hall : Forall (fun piece => tooLarge piece Samples.panel500x300)
                        [Samples.huge]).
  { constructor; [|constructor]. split; left; reflexivity. }
  split; [exact Hrandom|]. split; [exact Hall|].
  eexists. split.
  - exact (genetic_counts_no_sheet_when_nothing_fits (fun _ => 0)
             [Samples.huge] Samples.panel500x300 [] Samples.settings0
             Hrandom Hall).
  - by cbn.
Defined.

(** ** The managers and the request handler *)

Section ManagerFacts.
Variable random : nat -> Q.

Lemma index_registry :
  AlgorithmIndex.algorithms random
  = [(BeamSearch.name, beamSearch); (HybridLocalSearch.name, hybridSearch);
     (Genetic.name, genetic random); (FirstFitDecreasing.name, firstFit)].
Proof. reflexivity. Qed.

Lemma manager_registry :
  AlgorithmManager.algorithms random
  = [(BeamSearch.name, beamSearch); (HybridLocalSearch.name, hybridSearch);
     (FirstFitDecreasing.name, firstFit); (Genetic.name, genetic random)].
Proof. reflexivity. Qed.

Lemma mapGet_unknown (m : AlgorithmMap) name :
  ~ In name (map fst m) -> mapGet m name = None.
Proof.
  unfold mapGet. induction m as [|[key value] m IH]; simpl; [done|].
  intros Hno. destruct (String.eqb key name) eqn:E.
  - apply String.eqb_eq in E. exfalso. apply Hno. by left.
  - apply IH. intros H. apply Hno. by right.
Qed.

Lemma validate_supported algorithm request panel panels :
  Request.panels request = panel :: panels ->
  Algorithm.supportsMultiSheet algorithm = true ->
  AlgorithmIndex.validateAlgorithmCompatibility algorithm request
  = if existsb Piece.rotatable (Request.pieces request)
       && negb (Algorithm.supportsRotation algorithm)
    then Throw ("Algorithm '" ++ Algorithm.name algorithm
                ++ "' does not support piece rotation")
    else Ok tt.
Proof.
  intros Hpanels Hmulti. unfold AlgorithmIndex.validateAlgorithmCompatibility.
  rewrite Hpanels, Hmulti. simpl negb. rewrite andb_false_r.
  reflexivity.
Qed.

End ManagerFacts.

(** X20.  For every strategy of the registry and every request with a panel,
    the compatibility check of [index.ts] rejects exactly the requests that
    hold a piece that may rotate while the strategy lacks rotation support:
    that is First-Fit-Decreasing alone. The rule on 80% of the panel area
    never rejects, since every registered strategy supports several sheets. *)
Theorem validateAlgorithmCompatibility_rejects_rotation_only
    (random : nat -> Q) (algorithm : Algorithm) (request : OptimizationRequest) :
  In algorithm (map snd (AlgorithmIndex.algorithms random)) ->
  Request.panels request <> [] ->
  AlgorithmIndex.validateAlgorithmCompatibility algorithm request
  = if existsb Piece.rotatable (Request.pieces request)
       && String.eqb (Algorithm.name algorithm) FirstFitDecreasing.name
    then Throw "Algorithm 'first_fit_decreasing' does not support piece rotation"
    else Ok tt.
Proof.
  intros Hin Hpanels.
  destruct (Request.panels request) as [|panel panels] eqn:E; [done|].
  rewrite index_registry in Hin. simpl in Hin.
  destruct Hin as [<-|[<-|[<-|[<-|[]]]]];
    rewrite (validate_supported _ _ _ _ E) by reflexivity;
    cbn; by rewrite ?andb_false_r, ?andb_true_r.
Qed.

Lemma validateAlgorithmCompatibility_rejects_rotation_only_witness :
  In firstFit (map snd (AlgorithmIndex.algorithms (fun _ => 0)))
  /\ Request.panels Samples.rotationRequest <> []
  /\ AlgorithmIndex.validateAlgorithmCompatibility firstFit
       Samples.rotationRequest
     = Throw "Algorithm 'first_fit_decreasing' does not support piece rotation".
Proof.
  assert (Hin : In firstFit (map snd (AlgorithmIndex.algorithms (fun _ => 0)))).
  { simpl. tauto. }
  assert (Hpanels : Request.panels Samples.rotationRequest <> []) by done.
  split; [exact Hin|]. split; [exact Hpanels|].
  rewrite (validateAlgorithmCompatibility_rejects_rotation_only
             (fun _ => 0) firstFit Samples.rotationRequest Hin Hpanels).
  reflexivity.
Defined.

(** X21.  [executeWithFallback] of [index.ts] never reaches its third
    strategy: with a panel it returns what beam search returns, and what the
    hybrid search returns if beam search throws; without a panel every
    strategy is rejected and it throws. *)
Theorem index_executeWithFallback_beam_then_hybrid
    (random : nat -> Q) (request : OptimizationRequest) :
  AlgorithmIndex.executeWithFallback random request
  = match Request.panels request with
    | [] => Throw "All algorithms failed to execute"
    | _ :: _ =>
        match BeamSearch.execute (Request.pieces request)
                (Request.panels request) (Request.settings request) with
        | Ok result => Ok result
        | Throw _ =>
            HybridLocalSearch.execute (Request.pieces request)
              (Request.panels request) (Request.settings request)
        end
    end.
Proof.
  unfold AlgorithmIndex.executeWithFallback, AlgorithmIndex.getAlgorithmPriority.
  cbn [AlgorithmIndex.executeInOrder].
  unfold AlgorithmIndex.executeAlgorithm, AlgorithmIndex.getAlgorithm.
  rewrite index_registry. cbn [mapGet find fst snd String.eqb Ascii.eqb
                               Bool.eqb BeamSearch.name HybridLocalSearch.name
                               Genetic.name FirstFitDecreasing.name].
  destruct (Request.panels request) as [|panel panels] eqn:E.
  - unfold AlgorithmIndex.validateAlgorithmCompatibility. by rewrite E.
  - rewrite !(validate_supported _ _ _ _ E) by reflexivity.
    cbn [beamSearch hybridSearch Algorithm.supportsRotation negb
         BeamSearch.supportsRotation HybridLocalSearch.supportsRotation
         Algorithm.execute].
    rewrite !andb_false_r.
    destruct (BeamSearch.execute _ _ _); [reflexivity|]. reflexivity.
Qed.

Section ManagerFallback.
Variable random : nat -> Q.

Lemma manager_unknown_preferred request name :
  mapGet (AlgorithmManager.algorithms random) name = None ->
  AlgorithmManager.executeWithFallback random request (Some name)
  = AlgorithmManager.executeWithFallback random request None.
Proof.
  intros Hnone. unfold AlgorithmManager.executeWithFallback.
  rewrite Hnone. by destruct (String.eqb name "").
Qed.

End ManagerFallback.

(** X22.  [executeWithFallback] of [algorithm-manager.ts] without a preferred
    strategy returns, for a request with a panel, what beam search returns,
    and what the hybrid search returns if beam search throws; the other two
    strategies are never consulted. Without a panel all four strategies throw
    and the error names the first one's message. *)
Theorem manager_default_is_beam_then_hybrid
    (random : nat -> Q) (request : OptimizationRequest) :
  AlgorithmManager.executeWithFallback random request None
  = match Request.panels request with
    | [] => Throw "All algorithms failed. Last error: No panels provided"
    | _ :: _ =>
        match BeamSearch.execute (Request.pieces request)
                (Request.panels request) (Request.settings request) with
        | Ok result => Ok result
        | Throw _ =>
            HybridLocalSearch.execute (Request.pieces request)
              (Request.panels request) (Request.settings request)
        end
    end.
Proof.
  unfold AlgorithmManager.executeWithFallback,
    AlgorithmManager.getDefaultAlgorithm, AlgorithmManager.algorithmPriority.
  rewrite (manager_registry random).
  cbn [mapGet find fst snd String.eqb Ascii.eqb Bool.eqb
       BeamSearch.name HybridLocalSearch.name Genetic.name
       FirstFitDecreasing.name beamSearch Algorithm.name Algorithm.execute
       drop AlgorithmManager.tryFallbacks].
  rewrite (manager_registry random).
  cbn [mapGet find fst snd String.eqb Ascii.eqb Bool.eqb
       BeamSearch.name HybridLocalSearch.name Genetic.name
       FirstFitDecreasing.name hybridSearch firstFit genetic
       Algorithm.name Algorithm.execute].
  destruct (Request.panels request) as [|panel panels] eqn:E.
  - reflexivity.
  - destruct (BeamSearch.execute _ _ _); reflexivity.
Qed.

(** X23.  A strategy name that is not registered is no error for
    [algorithm-manager.ts], which silently runs the default strategy, while
    [executeAlgorithm] of [index.ts] throws that the strategy is not found. *)
Theorem unknown_algorithm_name
    (random : nat -> Q) (request : OptimizationRequest) (name : string) :
  ~ In name [BeamSearch.name; HybridLocalSearch.name;
             FirstFitDecreasing.name; Genetic.name] ->
  AlgorithmManager.executeWithFallback random request (Some name)
  = AlgorithmManager.executeWithFallback random request None
  /\ AlgorithmIndex.executeAlgorithm random name request
     = Throw ("Algorithm '" ++ name ++ "' not found").
Proof.
  intros Hno. split.
  - apply manager_unknown_preferred, mapGet_unknown.
    rewrite manager_registry. exact Hno.
  - unfold AlgorithmIndex.executeAlgorithm, AlgorithmIndex.getAlgorithm.
    rewrite mapGet_unknown; [reflexivity|].
    rewrite index_registry. simpl. simpl in Hno. tauto.
Qed.

Lemma unknown_algorithm_name_witness :
  ~ In "simulated_annealing"%string
       [BeamSearch.name; HybridLocalSearch.name;
        FirstFitDecreasing.name; Genetic.name]
  /\ AlgorithmIndex.executeAlgorithm (fun _ => 0) "simulated_annealing"
       Samples.rotationRequest
     = Throw "Algorithm 'simulated_annealing' not found"
  /\ exists result,
      AlgorithmManager.executeWithFallback (fun _ => 0) Samples.rotationRequest
        (Some "simulated_annealing"%string) = Ok result
      /\ AlgorithmResult.algorithm result = BeamSearch.name.
Proof.
  assert (Hno : ~ In "simulated_annealing"%string
                     [BeamSearch.name; HybridLocalSearch.name;
                      FirstFitDecreasing.name; Genetic.name]).
  { intros [H|[H|[H|[H|[]]]]]; discriminate H. }
  split; [exact Hno|].
  destruct (unknown_algorithm_name (fun _ => 0) Samples.rotationRequest
              "simulated_annealing" Hno) as [Hmanager Hindex].
  split; [exact Hindex|].
  rewrite Hmanager. eexists. split; [vm_compute; reflexivity|]. reflexivity.
Defined.

(** ** The request handler *)

Section HandlerFacts.
Variable random : nat -> Q.

Lemma runRequest_resolved body :
  Api.runRequest random body
  = match Body.pieces body, Body.panels body, Body.settings body with
    | Some pieces, Some panels, Some settings =>
        match pieces, panels with
        | [], _ => Throw "No pieces provided"
        | _ :: _, [] => Throw "No panels provided"
        | _ :: _, _ :: _ =>
            match BeamSearch.execute pieces panels settings with
            | Ok result => Ok result
            | Throw _ => HybridLocalSearch.execute pieces panels settings
            end
        end
    | _, _, _ => Throw "Missing required fields: pieces, panels, or settings"
    end.
Proof.
  unfold Api.runRequest.
  destruct (Body.pieces body) as [[|piece pieces]|]; try reflexivity;
    destruct (Body.panels body) as [[|panel panels]|]; try reflexivity;
    destruct (Body.settings body) as [settings|]; reflexivity.
Qed.

End HandlerFacts.

(** X24.  [optimizeHandler] answers with [success: true] exactly when the body
    holds the three required fields, at least one piece and at least one
    panel: with these, one of the first two strategies always returns. *)
Theorem optimizeHandler_succeeds_iff (random : nat -> Q) (body : Body.t) :
  Response.success (Api.optimizeHandler random body) = true
  <-> exists piece pieces panel panels settings,
        Body.pieces body = Some (piece :: pieces)
        /\ Body.panels body = Some (panel :: panels)
        /\ Body.settings body = Some settings.
Proof.
  unfold Api.optimizeHandler. rewrite runRequest_resolved.
  destruct (Body.pieces body) as [[|piece pieces]|];
    destruct (Body.panels body) as [[|panel panels]|];
    destruct (Body.settings body) as [settings|]; simpl;
    try (split; [discriminate | by intros (?&?&?&?&?&?&?&?)]).
  destruct (BeamSearch.runOptimization _ _ _); simpl;
    (split; [intros _; eauto 10 | reflexivity]).
Qed.

(** X25.  [optimizeHandler] never reads the [algorithm] field of the body: the
    answer is the same whatever strategy the request names. *)
Theorem optimizeHandler_ignores_algorithm
    (random : nat -> Q) (body : Body.t) (name : option string) :
  Api.optimizeHandler random
    (Body.mk (Body.pieces body) (Body.panels body) (Body.settings body) name)
  = Api.optimizeHandler random body.
Proof.
  unfold Api.optimizeHandler. by rewrite !runRequest_resolved.
Qed.

(** X26.  Whatever the request, with pieces and first panel of positive size
    the answer of [optimizeHandler] holds one placed piece at most. *)
Theorem optimizeHandler_places_one_piece_at_most
    (random : nat -> Q) (pieces : list OptimizationPiece)
    (panel : OptimizationPanel) (panels : list OptimizationPanel)
    (settings : OptimizationSettings) (name : option string) :
  Forall positive pieces -> positivePanel panel ->
  (length (Response.placedPieces
             (Api.optimizeHandler random
                (Body.mk (Some pieces) (Some (panel :: panels))
                         (Some settings) name))) <= 1)%nat.
Proof.
  intros Hpos Hpanel. unfold Api.optimizeHandler.
  rewrite runRequest_resolved. cbn [Body.pieces Body.panels Body.settings].
  destruct pieces as [|piece pieces]; [simpl; lia|].
  destruct (BeamSearch.execute (piece :: pieces) (panel :: panels) settings)
    as [result|message] eqn:E.
  - cbn [Response.placedPieces].
    by destruct (beam_result_valid _ _ _ _ _ Hpos Hpanel E).
  - cbn [HybridLocalSearch.execute Response.placedPieces].
    by destruct (hybrid_result_valid (piece :: pieces) panel settings
                   Hpos Hpanel).
Qed.

Lemma optimizeHandler_places_one_piece_at_most_witness :
  Forall positive [Samples.twoSquares; Samples.small]
  /\ positivePanel Samples.panel500x300
  /\ Response.success
       (Api.optimizeHandler (fun _ => 0)
          (Body.mk (Some [Samples.twoSquares; Samples.small])
                   (Some [Samples.panel500x300]) (Some Samples.settings0) None))
     = true
  /\ (length (Response.placedPieces
                (Api.optimizeHandler (fun _ => 0%Q)
                   (Body.mk (Some [Samples.twoSquares; Samples.small])
                            (Some [Samples.panel500x300])
                            (Some Samples.settings0) None))) <= 1)%nat.
Proof.
  assert (Hpos : Forall positive [Samples.twoSquares; Samples.small]).
  { repeat constructor. }
  assert (Hpanel : positivePanel Samples.panel500x300).
  { split; reflexivity. }
  split; [exact Hpos|]. split; [exact Hpanel|].
  split; [vm_compute; reflexivity|].
  exact (optimizeHandler_places_one_piece_at_most (fun _ => 0)
           [Samples.twoSquares; Samples.small] Samples.panel500x300 []
           Samples.settings0 None Hpos Hpanel).
Defined.

(** ** The operators of the genetic search *)

Section GeneticOperators.
Import Genetic.

Lemma deref_app objects l1 l2 :
  deref objects (l1 ++ l2) = deref objects l1 ++ deref objects l2.
Proof. unfold deref. apply omap_app. Qed.

Lemma deref_single objects r piece :
  objects !! r = Some piece -> deref objects [r] = [piece].
Proof. intros H. unfold deref. simpl. by rewrite H. Qed.

Lemma existsb_false {A} (f : A -> bool) l :
  existsb f l = false -> Forall (fun a => f a = false) l.
Proof.
  induction l as [|a l IH]; simpl; [constructor|].
  intros [Ha Hl]%orb_false_iff. constructor; [exact Ha | by apply IH].
Qed.

(** The loop of [validatePlacements] from any accumulator. *)
Lemma validate_from objects panel placements valid :
  let step validPlacements r :=
    match objects !! r with
    | None => validPlacements
    | Some piece =>
        if (Placed.x piece <? 0) || (Placed.y piece <? 0)
           || (Panel.width panel <? Placed.x piece + Placed.width piece)
           || (Panel.width panel <? Placed.y piece + Placed.width piece)
        then validPlacements
        else if existsb (piecesOverlap piece) (deref objects validPlacements)
        then validPlacements
        else validPlacements ++ [r]
    end in
  let inBounds p :=
    0 <= Placed.x p /\ 0 <= Placed.y p
    /\ Placed.x p + Placed.width p <= Panel.width panel
    /\ Placed.y p + Placed.width p <= Panel.width panel in
  let apart p q := piecesOverlap q p = false in
  Forall inBounds (deref objects valid) ->
  ForallOrdPairs apart (deref objects valid) ->
  exists kept,
    fold_left step placements valid = valid ++ kept
    /\ sublist kept placements
    /\ Forall inBounds (deref objects (valid ++ kept))
    /\ ForallOrdPairs apart (deref objects (valid ++ kept)).
Proof.
  intros step inBounds apart. revert valid.
  induction placements as [|r placements IH]; intros valid Hb Ha.
  - exists []. rewrite app_nil_r. by repeat split.
  - cbn [fold_left].
    assert (Hcases :
              step valid r = valid
              \/ exists piece,
                  objects !! r = Some piece /\ inBounds piece
                  /\ Forall (fun q => piecesOverlap piece q = false)
                            (deref objects valid)
                  /\ step valid r = valid ++ [r]).
    { unfold step. destruct (objects !! r) as [piece|]; [|by left].
      destruct (_ || _) eqn:Ebounds; [by left|].
      destruct (existsb _ _) eqn:Eoverlap; [by left|].
      right. exists piece. split; [reflexivity|].
      apply orb_false_iff in Ebounds as [Ebounds E4].
      apply orb_false_iff in Ebounds as [Ebounds E3].
      apply orb_false_iff in Ebounds as [E1 E2]. Qbools.
      split; [by repeat split|]. split; [|reflexivity].
      by apply existsb_false. }
    destruct Hcases as [->|(piece & Er & Hpiece & Hfree & ->)].
    + destruct (IH valid Hb Ha) as (kept & E & Hsub & H1 & H2).
      exists kept. split; [exact E|]. split; [by constructor|]. by split.
    + destruct (IH (valid ++ [r])) as (kept & E & Hsub & H1 & H2).
      * rewrite deref_app, (deref_single _ _ _ Er).
        apply Forall_app. split; [exact Hb|].
        constructor; [exact Hpiece | constructor].
      * rewrite deref_app, (deref_single _ _ _ Er).
        apply ForallOrdPairs_app; [exact Ha | repeat constructor |].
        intros p q Hp [<-|[]].
        rewrite Forall_forall in Hfree. by apply Hfree.
      * exists (r :: kept). rewrite <- app_assoc in E, H1, H2.
        split; [exact E|]. split; [by constructor|]. by split.
Qed.

(** The loop of [removeDuplicatePlacements] from any set of seen keys. *)
Lemma removeDuplicatesFrom_distinct objects seen placements :
  sublist (removeDuplicatesFrom objects seen placements) placements
  /\ Forall (fun q => Forall (fun s => sameKey q s = false) seen)
            (deref objects (removeDuplicatesFrom objects seen placements))
  /\ ForallOrdPairs (fun p q => sameKey q p = false)
       (deref objects (removeDuplicatesFrom objects seen placements)).
Proof.
  revert seen. induction placements as [|r placements IH]; intros seen.
  - simpl. split; [constructor|]. split; constructor.
  - cbn [removeDuplicatesFrom].
    destruct (objects !! r) as [piece|] eqn:Er.
    + destruct (existsb (sameKey piece) seen) eqn:Eseen.
      * destruct (IH seen) as (Hsub & H1 & H2).
        split; [by constructor|]. by split.
      * destruct (IH (seen ++ [piece])) as (Hsub & H1 & H2).
        split; [by constructor|].
        change (r :: removeDuplicatesFrom objects (seen ++ [piece]) placements)
          with ([r] ++ removeDuplicatesFrom objects (seen ++ [piece]) placements).
        rewrite deref_app, (deref_single _ _ _ Er). simpl. split.
        -- constructor; [by apply existsb_false|].
           eapply Forall_impl; [|exact H1].
           intros q Hq. simpl in Hq. by apply Forall_app in Hq as [Hq _].
        -- constructor; [|exact H2].
           eapply Forall_impl; [|exact H1].
           intros q Hq. simpl in Hq. apply Forall_app in Hq as [_ Hq].
           by inversion Hq.
    + destruct (IH seen) as (Hsub & H1 & H2).
      split; [by constructor|]. by split.
Qed.

Lemma validatePlacements_sound objects placements panel :
  sublist (validatePlacements objects placements panel) placements
  /\ Forall (fun p =>
               0 <= Placed.x p /\ 0 <= Placed.y p
               /\ Placed.x p + Placed.width p <= Panel.width panel
               /\ Placed.y p + Placed.width p <= Panel.width panel)
            (deref objects (validatePlacements objects placements panel))
  /\ ForallOrdPairs
       (fun p q =>
          rectanglesOverlap (Placed.footprint p) (Placed.footprint q) = false)
       (deref objects (validatePlacements objects placements panel)).
Proof.
  unfold validatePlacements.
  destruct (validate_from objects panel placements [])
    as (kept & -> & Hsub & Hbounds & Hapart); [constructor | constructor |].
  simpl in *. split; [exact Hsub|]. split; [exact Hbounds|].
  clear -Hapart. induction Hapart as [|p l Hp _ IH]; constructor; [|exact IH].
  eapply Forall_impl; [|exact Hp]. intros q Hq. simpl in Hq.
  unfold piecesOverlap in Hq. unfold rectanglesOverlap. simpl.
  rewrite <- Hq.
  destruct (_ <=? _), (_ <=? _), (_ <=? _), (_ <=? _); reflexivity.
Qed.

End GeneticOperators.

(** X27.  [validatePlacements] keeps a subsequence of the placements it is
    given; no two of the kept pieces overlap, and each lies within the bounds
    the code tests, which compare both [x + width] and [y + width] with the
    panel's width: the panel's height is never read, so the result is the same
    for any height. *)
Theorem validatePlacements_keeps_disjoint_pieces
    (objects : Objects) (placements : list nat) (panel : OptimizationPanel) :
  let kept := Genetic.validatePlacements objects placements panel in
  sublist kept placements
  /\ Forall (fun p =>
               0 <= Placed.x p /\ 0 <= Placed.y p
               /\ Placed.x p + Placed.width p <= Panel.width panel
               /\ Placed.y p + Placed.width p <= Panel.width panel)
            (deref objects kept)
  /\ ForallOrdPairs
       (fun p q =>
          rectanglesOverlap (Placed.footprint p) (Placed.footprint q) = false)
       (deref objects kept)
  /\ forall height grainDirection,
       Genetic.validatePlacements objects placements
         (Panel.mk (Panel.width panel) height grainDirection)
       = kept.
Proof.
  intros kept.
  destruct (validatePlacements_sound objects placements panel)
    as (Hsub & Hbounds & Hapart).
  split; [exact Hsub|]. split; [exact Hbounds|]. split; [exact Hapart|].
  reflexivity.
Qed.

(** X28.  [removeDuplicatePlacements] keeps a subsequence of the placements,
    in which no two pieces agree on identifier, position and rotation flag. *)
Theorem removeDuplicatePlacements_distinct_keys
    (objects : Objects) (placements : list nat) :
  sublist (Genetic.removeDuplicatePlacements objects placements) placements
  /\ ForallOrdPairs
       (fun p q => Genetic.sameKey q p = false)
       (deref objects (Genetic.removeDuplicatePlacements objects placements)).
Proof.
  unfold Genetic.removeDuplicatePlacements.
  destruct (removeDuplicatesFrom_distinct objects [] placements)
    as (Hsub & _ & Hdistinct).
  by split.
Qed.

(** ** What the genetic search returns *)

Section Ensures.
Import Genetic.
Context (I : World -> Prop).

Lemma ensures_ret {A} (a : A) (Q : A -> Prop) : Q a -> ensures I (ret a) Q.
Proof. intros Ha w a' w' Hw [= <- <-]. by split. Qed.

Lemma ensures_throw {A} message (Q : A -> Prop) :
  ensures I (throw message : M A) Q.
Proof. intros w a w' _ H. discriminate H. Qed.

Lemma ensures_bind {A B} (m : M A) (k : A -> M B) (P : A -> Prop)
    (Q : B -> Prop) :
  ensures I m P -> (forall a, P a -> ensures I (k a) Q) ->
  ensures I (bind m k) Q.
Proof.
  intros Hm Hk w b w' Hw. unfold bind.
  destruct (m w) as [[a w1]|] eqn:E; [|discriminate].
  intros Hrun. destruct (Hm w a w1 Hw E) as [Hw1 Ha].
  exact (Hk a Ha w1 b w' Hw1 Hrun).
Qed.

Lemma ensures_weaken {A} (m : M A) (P Q : A -> Prop) :
  ensures I m P -> (forall a, P a -> Q a) -> ensures I m Q.
Proof.
  intros Hm HPQ w a w' Hw Hrun. destruct (Hm w a w' Hw Hrun) as [Hw' Ha].
  split; [exact Hw' | by apply HPQ].
Qed.

Lemma ensures_forEach {A} (l : list A) (body : A -> M unit) :
  (forall a, ensures I (body a) (fun _ => True)) ->
  ensures I (forEach l body) (fun _ => True).
Proof.
  intros Hbody. induction l as [|a l IH]; cbn [forEach].
  - by apply ensures_ret.
  - eapply ensures_bind; [apply Hbody | intros _ _; exact IH].
Qed.

End Ensures.

Section GenuinePlacements.
Import Genetic.
Variable random : nat -> Q.
Hypothesis random_unit : forall n, 0 <= random n /\ random n < 1.
Variable units : list OptimizationPiece.

Lemma ensures_mathRandom :
  ensures (genuineStore units) (mathRandom random)
          (fun r => 0 <= r /\ r < 1).
Proof. intros w a w' Hw [= <- <-]. split; [exact Hw | apply random_unit]. Qed.

Lemma ensures_getObjects :
  ensures (genuineStore units) getObjects (fun _ => True).
Proof. intros w a w' Hw [= _ <-]. by split. Qed.

Lemma ensures_newObject p :
  genuine units p ->
  ensures (genuineStore units) (newObject p) (fun _ => True).
Proof.
  intros Hp w a w' Hw [= _ <-]. split; [|done].
  unfold genuineStore. simpl. apply Forall_app. split; [exact Hw|].
  by constructor.
Qed.

Lemma ensures_update r f :
  (forall p, genuine units p -> genuine units (f p)) ->
  ensures (genuineStore units) (update r f) (fun _ => True).
Proof.
  intros Hf w a w' Hw [= _ <-]. split; [|done].
  unfold genuineStore. simpl. apply Forall_alter; [exact Hw|].
  intros p _ Hp. by apply Hf.
Qed.

Lemma genuine_rotatePiece p : genuine units p -> genuine units (rotatePiece p).
Proof.
  intros (piece & Hin & Hid & Hlabel & Hsheet & Hx & Hy & Hdims).
  exists piece. unfold rotatePiece. simpl.
  repeat (split; [assumption|]).
  unfold fitted in *. destruct (Placed.rotated p); simpl in *; congruence.
Qed.

Lemma Qmax0_nonneg q : 0 <= Qmax0 q.
Proof.
  unfold Qmax0. destruct (q <? 0) eqn:E; [lra|]. by apply Qltb_ge in E.
Qed.

Lemma genuine_withPosition p x y :
  0 <= x -> 0 <= y -> genuine units p ->
  genuine units (Placed.withPosition p x y).
Proof.
  intros Hx Hy (piece & Hin & Hid & Hlabel & Hsheet & _ & _ & Hdims).
  exists piece. unfold Placed.withPosition. simpl. by repeat split.
Qed.

(** Splitting a rectangle around itself returns nothing but, possibly, the
    rectangle. *)
Lemma splitSpace_around_itself space w h kerf r :
  In r (splitSpace [space] space w h kerf) -> r = space.
Proof.
  unfold splitSpace. simpl. rewrite app_nil_r. unfold splitOne.
  intros Hin. apply filter_In in Hin as [Hin _].
  destruct (overlapsSpace space space).
  - rewrite !Qltb_irrefl in Hin. destruct Hin.
  - by destruct Hin as [<-|[]].
Qed.

Lemma splice1_cornered spaces i newSpaces :
  Forall cornered spaces -> Forall cornered newSpaces ->
  Forall cornered (splice1 spaces i newSpaces).
Proof.
  intros Hs Hn. unfold splice1. apply Forall_app. split; [by apply Forall_take|].
  apply Forall_app. split; [exact Hn | by apply Forall_drop].
Qed.

Lemma ensures_tryPlacePiece piece space rotated settings placements spaces i :
  In piece units -> cornered space -> Forall cornered spaces ->
  ensures (genuineStore units)
    (tryPlacePiece piece space rotated settings placements spaces i)
    (fun '(placed, placements', spaces') =>
       (length placements' <= S (length placements))%nat
       /\ Forall cornered spaces'
       /\ (placed = false -> placements' = placements /\ spaces' = spaces)).
Proof.
  intros Hin [Hx Hy] Hspaces. unfold tryPlacePiece.
  destruct (_ && _).
  - eapply ensures_bind.
    + apply ensures_newObject. exists piece. simpl.
      repeat (split; [done|]). unfold fitted. by destruct rotated.
    + intros loc _. apply ensures_ret.
      split; [rewrite length_app; simpl; lia|]. split; [|done].
      apply splice1_cornered; [exact Hspaces|].
      apply Forall_forall. intros r Hr.
      apply splitSpace_around_itself in Hr as ->. by split.
  - apply ensures_ret. split; [lia|]. by split.
Qed.

Lemma ensures_scanSpaces piece settings placements spaces i rest :
  In piece units -> Forall cornered spaces -> Forall cornered rest ->
  ensures (genuineStore units)
    (scanSpaces random piece settings placements spaces i rest)
    (fun '(placed, placements', spaces') =>
       (length placements' <= S (length placements))%nat
       /\ Forall cornered spaces'
       /\ (placed = false -> placements' = placements /\ spaces' = spaces)).
Proof.
  intros Hin Hspaces Hrest. revert i.
  induction Hrest as [|space rest Hspace _ IH]; intros i; cbn [scanSpaces].
  - apply ensures_ret. split; [lia|]. by split.
  - eapply (ensures_bind _ _ _ (fun _ => True)).
    + destruct (Piece.rotatable piece); [|by apply ensures_ret].
      eapply ensures_bind; [apply ensures_mathRandom|].
      intros r _. by apply ensures_ret.
    + intros rotated _. eapply ensures_bind.
      * by apply ensures_tryPlacePiece.
      * intros [[placed placements'] spaces'] (Hlen & Hcorn & Hsame).
        destruct placed.
        -- apply ensures_ret. split; [exact Hlen|]. by split.
        -- destruct (Hsame eq_refl) as [-> ->]. apply IH.
Qed.

Lemma ensures_placeRandomly panel settings placements spaces piece :
  In piece units -> Forall cornered spaces ->
  ensures (genuineStore units)
    (placeRandomly random panel settings (placements, spaces) piece)
    (fun st => (length (fst st) <= S (length placements))%nat
               /\ Forall cornered (snd st)).
Proof.
  intros Hin Hspaces. unfold placeRandomly.
  eapply ensures_bind; [by apply ensures_scanSpaces|].
  intros [[placed placements'] spaces'] (Hlen & Hcorn & Hsame).
  destruct placed.
  - apply ensures_ret. by split.
  - destruct (Hsame eq_refl) as [-> ->].
    eapply ensures_bind.
    + apply ensures_tryPlacePiece; [exact Hin| |exact Hspaces].
      split; simpl; lra.
    + intros [[placed placements''] spaces''] (Hlen' & Hcorn' & _).
      apply ensures_ret. by split.
Qed.

Lemma ensures_placeAll panel settings pieces placements spaces :
  Forall (fun piece => In piece units) pieces -> Forall cornered spaces ->
  ensures (genuineStore units)
    (foldM (placeRandomly random panel settings) pieces (placements, spaces))
    (fun st => (length (fst st) <= length placements + length pieces)%nat).
Proof.
  intros Hpieces. revert placements spaces.
  induction Hpieces as [|piece pieces Hin _ IH]; intros placements spaces Hsp;
    cbn [foldM].
  - apply ensures_ret. simpl. lia.
  - eapply ensures_bind; [by apply ensures_placeRandomly|].
    intros [placements' spaces'] [Hlen Hcorn]. simpl in Hlen, Hcorn.
    eapply ensures_weaken; [by apply IH|].
    intros st Hst. simpl in *. lia.
Qed.

Lemma ensures_createRandomPlacement panel settings :
  ensures (genuineStore units)
    (createRandomPlacement random units panel settings)
    (fun placements => (length placements <= length units)%nat).
Proof.
  unfold createRandomPlacement.
  eapply ensures_bind.
  - apply ensures_placeAll; [by apply Forall_forall|].
    constructor; [split; simpl; lra | constructor].
  - intros st Hst. by apply ensures_ret.
Qed.

Lemma evaluateIndividual_atMost n objects placements panel :
  (length placements <= n)%nat ->
  atMost n (evaluateIndividual objects placements panel).
Proof.
  intros Hlen. unfold atMost, evaluateIndividual.
  destruct placements; simpl in *; lia.
Qed.

Lemma ensures_initializePopulationFrom k panel settings population :
  Forall (atMost (length units)) population ->
  ensures (genuineStore units)
    (initializePopulationFrom random k units panel settings population)
    (Forall (atMost (length units))).
Proof.
  revert population.
  induction k as [|k IH]; intros population Hpop; cbn [initializePopulationFrom].
  - by apply ensures_ret.
  - eapply ensures_bind; [apply ensures_createRandomPlacement|].
    intros placements Hlen.
    eapply ensures_bind; [apply ensures_getObjects|]. intros objects _.
    apply IH. apply Forall_app. split; [exact Hpop|].
    constructor; [by apply evaluateIndividual_atMost | constructor].
Qed.

Lemma ensures_tournament population k best :
  (forall b, best = Some b -> In b population) ->
  ensures (genuineStore units) (tournament random population k best)
          (fun best' => forall b, best' = Some b -> In b population).
Proof.
  revert best. induction k as [|k IH]; intros best Hbest; cbn [tournament].
  - by apply ensures_ret.
  - eapply ensures_bind; [apply ensures_mathRandom|]. intros r _.
    apply IH. intros b.
    destruct (at_ population _) as [c|] eqn:Ec; [|exact (Hbest b)].
    apply at_In in Ec.
    destruct best as [b0|]; [|by intros [= <-]].
    destruct (fitness b0 <? fitness c); [by intros [= <-] | exact (Hbest b)].
Qed.

Lemma ensures_selectParent population :
  ensures (genuineStore units) (selectParent random population)
          (fun b => In b population).
Proof.
  unfold selectParent.
  eapply ensures_bind; [by apply ensures_tournament|].
  intros [b|] Hb; [apply ensures_ret; by apply Hb | apply ensures_throw].
Qed.

Lemma crossover_point_range (r : Q) (len : nat) :
  0 <= r -> r < 1 ->
  (0 <= Qfloor (r * inject_Z (Z.of_nat len)) <= Z.of_nat len)%Z.
Proof.
  intros H0 H1.
  assert (Hlen : 0 <= inject_Z (Z.of_nat len)).
  { change 0 with (inject_Z 0). rewrite <- Zle_Qle. lia. }
  pose proof (Qfloor_Z (Z.of_nat len)) as HZ.
  set (L := inject_Z (Z.of_nat len)) in *.
  assert (Hlo : (Qfloor 0 <= Qfloor (r * L))%Z).
  { apply Qfloor_resp_le. by apply Qmult_le_0_compat. }
  assert (Hhi : (Qfloor (r * L) <= Qfloor L)%Z).
  { apply Qfloor_resp_le.
    assert (0 <= (1 - r) * L) by (apply Qmult_le_0_compat; lra).
    lra. }
  change (Qfloor 0) with 0%Z in Hlo. lia.
Qed.

Lemma ensures_crossover n parent1 parent2 panel :
  atMost n parent1 -> atMost n parent2 ->
  ensures (genuineStore units) (crossover random parent1 parent2 panel)
          (atMost n).
Proof.
  intros H1 H2. unfold crossover.
  eapply ensures_bind; [apply ensures_mathRandom|]. intros r [Hr0 Hr1].
  eapply ensures_bind; [apply ensures_getObjects|]. intros objects _.
  apply ensures_ret. apply evaluateIndividual_atMost.
  etransitivity; [apply sublist_length, validatePlacements_sound|].
  etransitivity;
    [apply sublist_length, (removeDuplicatesFrom_distinct objects [])|].
  rewrite length_app. unfold sliceTo, sliceFrom.
  rewrite length_take, length_drop.
  destruct (crossover_point_range r (length (placements parent1)) Hr0 Hr1)
    as [Hlo Hhi].
  set (c := Qfloor _) in *. unfold relativeIndex, atMost in *.
  destruct (Z.ltb_spec c 0); lia.
Qed.

Lemma swapEntries_length placements i j :
  length (swapEntries placements i j) = length placements.
Proof.
  unfold swapEntries.
  destruct (at_ placements i); [|reflexivity].
  destruct (at_ placements j); [|reflexivity].
  destruct (i =? j)%Z; [reflexivity|]. by rewrite !length_insert.
Qed.

Lemma ensures_mutate n individual panel :
  atMost n individual ->
  ensures (genuineStore units) (mutate random individual panel) (atMost n).
Proof.
  intros Hn. unfold mutate.
  eapply (ensures_bind _ _ _
            (fun placements1 => length placements1
                                = length (placements individual))).
  { destruct (_ <? _)%nat; [|by apply ensures_ret].
    eapply ensures_bind; [apply ensures_mathRandom|]. intros r _.
    destruct (r <? 0.3); [|by apply ensures_ret].
    eapply ensures_bind; [apply ensures_mathRandom|]. intros ri _.
    eapply ensures_bind; [apply ensures_mathRandom|]. intros rj _.
    apply ensures_ret. apply swapEntries_length. }
  intros placements1 Hlen. eapply ensures_bind.
  { apply ensures_forEach. intros piece.
    eapply ensures_bind; [apply ensures_mathRandom|]. intros r _.
    destruct (r <? 0.1); [|by apply ensures_ret].
    apply ensures_update. apply genuine_rotatePiece. }
  intros _ _. eapply ensures_bind.
  { apply ensures_forEach. intros piece.
    eapply ensures_bind; [apply ensures_mathRandom|]. intros r _.
    destruct (r <? 0.05); [|by apply ensures_ret].
    eapply ensures_bind; [apply ensures_mathRandom|]. intros rx _.
    eapply ensures_bind.
    { apply ensures_update. intros p Hp.
      apply genuine_withPosition; [apply Qmax0_nonneg| |exact Hp].
      by destruct Hp as (? & _ & _ & _ & _ & _ & ? & _). }
    intros _ _.
    eapply ensures_bind; [apply ensures_mathRandom|]. intros ry _.
    apply ensures_update. intros p Hp.
    apply genuine_withPosition; [|apply Qmax0_nonneg|exact Hp].
    by destruct Hp as (? & _ & _ & _ & _ & ? & _). }
  intros _ _.
  eapply ensures_bind; [apply ensures_getObjects|]. intros objects _.
  apply ensures_ret. unfold atMost in *. simpl. lia.
Qed.

Lemma ensures_breed n population panel k newPopulation :
  Forall (atMost n) population -> Forall (atMost n) newPopulation ->
  ensures (genuineStore units) (breed random population panel k newPopulation)
          (Forall (atMost n)).
Proof.
  intros Hpop. revert newPopulation.
  induction k as [|k IH]; intros newPopulation Hnew; cbn [breed].
  - by apply ensures_ret.
  - rewrite Forall_forall in Hpop.
    eapply ensures_bind; [apply ensures_selectParent|]. intros parent1 Hp1.
    eapply ensures_bind; [apply ensures_selectParent|]. intros parent2 Hp2.
    eapply ensures_bind; [apply ensures_crossover; by apply Hpop|].
    intros child Hchild.
    eapply ensures_bind; [by apply ensures_mutate|]. intros child' Hchild'.
    apply IH. apply Forall_app. split; [exact Hnew|].
    constructor; [exact Hchild' | constructor].
Qed.

Lemma ensures_evolvePopulation n population panel :
  Forall (atMost n) population ->
  ensures (genuineStore units) (evolvePopulation random population panel)
          (Forall (atMost n)).
Proof.
  intros Hpop. unfold evolvePopulation.
  destruct population as [|first others]; [apply ensures_throw|].
  apply ensures_breed; [exact Hpop|].
  constructor; [|constructor].
  rewrite Forall_forall in Hpop. apply Hpop, fittest_In.
Qed.

Lemma ensures_evolve n panel remaining population :
  Forall (atMost n) population ->
  ensures (genuineStore units) (evolve random panel remaining population)
          (Forall (atMost n)).
Proof.
  revert population.
  induction remaining as [|remaining IH]; intros population Hpop; cbn [evolve].
  - by apply ensures_ret.
  - eapply ensures_bind; [apply ensures_getObjects|]. intros objects _.
    match goal with
    | |- context [arraySort compareFitness ?l] => set (evaluated := l)
    end.
    assert (Hsorted : Forall (atMost n) (arraySort compareFitness evaluated)).
    { eapply Permutation_Forall; [apply arraySort_Permutation|].
      subst evaluated. apply Forall_map.
      eapply Forall_impl; [|exact Hpop]. by intros individual. }
    match goal with |- ensures _ (if ?c then _ else _) _ => destruct c end;
      [by apply ensures_ret|].
    eapply ensures_bind; [by apply ensures_evolvePopulation|].
    intros population' Hpop'. by apply IH.
Qed.

End GenuinePlacements.

Lemma ensures_storedObjects units :
  ensures (genuineStore units) Genetic.getObjects (Forall (genuine units)).
Proof. intros w a w' Hw [= <- <-]. by split. Qed.

Lemma deref_length objects refs : (length (deref objects refs) <= length refs)%nat.
Proof.
  unfold deref. induction refs as [|r refs IH]; [simpl; lia|].
  cbn [omap list_omap]. destruct (objects !! r); cbn [length]; lia.
Qed.

Lemma genuine_request pieces p :
  genuine (sortPiecesByPriority (expandPieces pieces)) p -> genuine pieces p.
Proof.
  intros (unit & Hin & Hid & Hlabel & Hsheet & Hx & Hy & Hdims).
  assert (Hunit : In unit (expandPieces pieces)).
  { eapply Permutation_in; [|exact Hin]. symmetry.
    apply arraySort_Permutation. }
  apply expandPieces_In in Hunit as (piece & Hpiece & ->).
  exists piece. by repeat split.
Qed.

Lemma ensures_runOptimization random pieces panel panels settings :
  (forall n, 0 <= random n /\ random n < 1) ->
  let units := sortPiecesByPriority (expandPieces pieces) in
  ensures (genuineStore units)
    (Genetic.runOptimization random pieces (panel :: panels) settings)
    (fun result =>
       Forall (genuine units) (AlgorithmResult.placedPieces result)
       /\ (length (AlgorithmResult.placedPieces result) <= length units)%nat).
Proof.
  intros Hrandom units. unfold Genetic.runOptimization. fold units.
  eapply ensures_bind.
  { apply ensures_initializePopulationFrom; [exact Hrandom | constructor]. }
  intros population0 Hpop0.
  eapply ensures_bind; [by apply ensures_evolve|].
  intros [|bestSolution others] Hpop; [apply ensures_throw|].
  inversion Hpop as [|? ? Hbest _]; subst.
  eapply ensures_bind; [apply ensures_storedObjects|]. intros objects Hobjects.
  apply ensures_ret. cbn [AlgorithmResult.placedPieces]. split.
  - by apply deref_Forall.
  - etransitivity; [apply deref_length | exact Hbest].
Qed.

(** X29.  Whatever the random source draws, the genetic search returns only
    pieces of the request: every placed piece has the identifier and the
    dimensions of a requested piece, exchanged exactly when it is flagged as
    rotated; it carries no label, sits on sheet 0 at a corner without negative
    coordinate, and there are no more placed pieces than units requested. *)
Theorem genetic_places_requested_pieces
    (random : nat -> Q) (pieces : list OptimizationPiece)
    (panel : OptimizationPanel) (panels : list OptimizationPanel)
    (settings : OptimizationSettings) :
  (forall n, 0 <= random n /\ random n < 1) ->
  exists result,
    Genetic.execute random pieces (panel :: panels) settings = Ok result
    /\ Forall (genuine pieces) (AlgorithmResult.placedPieces result)
    /\ (length (AlgorithmResult.placedPieces result)
        <= length (expandPieces pieces))%nat.
Proof.
  intros Hrandom. unfold Genetic.execute.
  destruct (returns_runOptimization random Hrandom pieces panel panels settings
              (Genetic.mkWorld 0 []))
    as (result & w & Hrun & _).
  exists result. rewrite Hrun. split; [reflexivity|].
  destruct (ensures_runOptimization random pieces panel panels settings Hrandom
              (Genetic.mkWorld 0 []) result w)
    as (_ & Hgenuine & Hlen); [constructor | exact Hrun |].
  split.
  - eapply Forall_impl; [|exact Hgenuine]. apply genuine_request.
  - unfold sortPiecesByPriority in Hlen. by rewrite arraySort_length in Hlen.
Qed.

Lemma genetic_places_requested_pieces_witness :
  (forall n : nat, 0 <= (fun _ : nat => 0) n /\ (fun _ : nat => 0) n < 1)
  /\ exists result,
      Genetic.execute (fun _ => 0) [Samples.twoSquares] [Samples.panel150x100]
                      Samples.settings0 = Ok result
      /\ Forall (genuine [Samples.twoSquares])
                (AlgorithmResult.placedPieces result)
      /\ length (AlgorithmResult.placedPieces result) = 2%nat.
Proof.
  assert (Hrandom : forall n : nat,
             0 <= (fun _ : nat => 0) n /\ (fun _ : nat => 0) n < 1).
  { intros _. split; [apply Qle_refl | reflexivity]. }
  split; [exact Hrandom|].
  destruct (genetic_places_requested_pieces (fun _ => 0) [Samples.twoSquares]
              Samples.panel150x100 [] Samples.settings0 Hrandom)
    as (result & Hrun & Hgenuine & _).
  exists result. split; [exact Hrun|]. split; [exact Hgenuine|].
  vm_compute in Hrun. by injection Hrun as <-.
Defined.

Section Elitism.
Import Genetic.
Variable random : nat -> Q.
Hypothesis random_unit : forall n, 0 <= random n /\ random n < 1.

Lemma breed_appends population panel k newPopulation :
  population <> [] ->
  returns (breed random population panel k newPopulation)
          (fun p => exists rest, p = newPopulation ++ rest /\ length rest = k).
Proof.
  intros Hpop. revert newPopulation.
  induction k as [|k IH]; intros newPopulation; cbn [breed].
  - apply returns_ret. exists []. by rewrite app_nil_r.
  - eapply returns_bind; [by apply returns_selectParent|]. intros parent1 _.
    eapply returns_bind; [by apply returns_selectParent|]. intros parent2 _.
    eapply returns_bind; [by apply returns_crossover|]. intros child _.
    eapply returns_bind; [by apply returns_mutate|]. intros child' _.
    eapply returns_weaken; [apply IH|].
    intros p (rest & -> & Hlen). exists (child' :: rest).
    split; [by rewrite <- app_assoc | simpl; lia].
Qed.

Lemma fittest_greatest (first : GeneticIndividual) others :
  let best :=
    fold_left (fun best current =>
                 if fitness best <? fitness current then current else best)
              others first in
  fitness first <= fitness best
  /\ Forall (fun other => fitness other <= fitness best) others.
Proof.
  revert first. induction others as [|current others IH]; intros first.
  - simpl. split; [lra | constructor].
  - cbn [fold_left]. destruct (fitness first <? fitness current) eqn:E.
    + apply Qltb_lt in E. destruct (IH current) as [Hc Hall].
      split; [simpl in *; lra|]. by constructor.
    + apply Qltb_ge in E. destruct (IH first) as [Hf Hall].
      split; [exact Hf|]. constructor; [simpl in *; lra | exact Hall].
Qed.

End Elitism.

(** X30.  Elitism: a generation keeps the size of the population, and the new
    population starts with a copy of an individual of the old one whose
    recorded fitness no other individual of the old one exceeds. *)
Theorem evolvePopulation_keeps_the_fittest
    (random : nat -> Q) (population : list Genetic.GeneticIndividual)
    (panel : OptimizationPanel) (w : Genetic.World) :
  (forall n, 0 <= random n /\ random n < 1) ->
  population <> [] ->
  exists best rest w',
    Genetic.evolvePopulation random population panel w = Ok (best :: rest, w')
    /\ length (best :: rest) = length population
    /\ In best population
    /\ Forall (fun other => Genetic.fitness other <= Genetic.fitness best)
              population.
Proof.
  intros Hrandom Hpop. unfold Genetic.evolvePopulation.
  destruct population as [|first others]; [done|].
  set (best := fold_left _ others first).
  destruct (breed_appends random Hrandom (first :: others) panel
              (length (first :: others) - 1) [best] Hpop w)
    as (next & w' & Hrun & rest & -> & Hlen).
  exists best, rest, w'. split; [exact Hrun|].
  split; [simpl in *; lia|]. split; [apply fittest_In|].
  destruct (fittest_greatest first others) as [Hfirst Hothers].
  by constructor.
Qed.

Lemma evolvePopulation_keeps_the_fittest_witness :
  (forall n : nat, 0 <= Jitter.random n /\ Jitter.random n < 1)
  /\ Elite.population <> []
  /\ map Genetic.placements Elite.population = [[0%nat]; [1%nat]; [2%nat]]
  /\ exists best rest w',
      Genetic.evolvePopulation Jitter.random Elite.population Elite.panel
                               Elite.world = Ok (best :: rest, w')
      /\ length rest = 2%nat
      /\ Genetic.placements best = [1%nat]
      /\ Genetic.fitness best == 1
      /\ Forall (fun other => Genetic.fitness other <= Genetic.fitness best)
                Elite.population.
Proof.
  assert (Hrandom : forall n : nat,
             0 <= Jitter.random n /\ Jitter.random n < 1).
  { intros [|[|[|n]]]; split; vm_compute; congruence. }
  assert (Hpop : Elite.population <> []) by done.
  split; [exact Hrandom|]. split; [exact Hpop|]. split; [reflexivity|].
  destruct (evolvePopulation_keeps_the_fittest Jitter.random
              Elite.population Elite.panel Elite.world Hrandom Hpop)
    as (best & rest & w' & Hrun & Hlen & Hin & Hgreatest).
  exists best, rest, w'. split; [exact Hrun|].
  split; [simpl in Hlen; lia|].
  vm_compute in Hrun. injection Hrun as <- _ _.
  split; [reflexivity|]. split; [reflexivity | exact Hgreatest].
Defined.

(** ** Instances of earlier results *)



Lemma beam_raises_on_two_units_witness :
  Forall positive [Samples.twoSquares]
  /\ (2 <= length (expandPieces [Samples.twoSquares]))%nat
  /\ BeamSearch.execute [Samples.twoSquares] [Samples.panel500x300]
                        Samples.settings0
     = Throw "No valid solution found".
Proof.
  assert (Hpos : Forall positive [Samples.twoSquares]).
  { repeat constructor. }
  assert (Hlen : (2 <= length (expandPieces [Samples.twoSquares]))%nat).
  { simpl. lia. }
  split; [exact Hpos|]. split; [exact Hlen|].
  exact (beam_raises_on_two_units [Samples.twoSquares] Samples.panel500x300 []
           Samples.settings0 Hpos Hlen).
Defined.

Lemma firstFit_reports_oversize_piece_witness :
  Piece.quantity Samples.huge = 1%Z
  /\ tooLarge Samples.huge Samples.panel500x300
  /\ exists result,
      FirstFitDecreasing.execute [Samples.huge] [Samples.panel500x300]
                                 Samples.settings0 = Ok result
      /\ AlgorithmResult.placedPieces result = []
      /\ AlgorithmResult.unusedPieces result = [Samples.huge]
      /\ AlgorithmResult.sheetCount result = 1%Z.
Proof.
  assert (Hq : Piece.quantity Samples.huge = 1%Z) by reflexivity.
  assert (Hlarge : tooLarge Samples.huge Samples.panel500x300).
  { split; left; reflexivity. }
  split; [exact Hq|]. split; [exact Hlarge|].
  exact (firstFit_reports_oversize_piece Samples.huge Samples.panel500x300 []
           Samples.settings0 Hq Hlarge).
Defined.
